(** * mcp-file-preview: the preview and analysis handlers

    A shallow embedding of [src/index.ts] (class [FilePreviewServer]) and of
    the second implementation printed in the README (class
    [FilePreviewWrapper] with its tool-call handler), together with the
    properties of the specification that concern them.

    JavaScript strings are sequences of UTF-16 code units; they are modelled
    as [list N].  The file system, the browser engine and the clock are the
    external world: they are modelled as an explicit state that the handlers
    thread, and the outcome of every call into the browser engine is read
    from a script that is an argument of the handler. *)

From Stdlib Require Import NArith ZArith List String Ascii Lia Bool.
From stdpp Require Import base option list gmap.

Local Open Scope N_scope.

(** ** JavaScript strings *)

Abbreviation jsstring := (list N).

(** [js] turns an ASCII literal into the code units of the JavaScript
    string with the same text. *)
Fixpoint js (s : string) : jsstring :=
  match s with
  | EmptyString => []
  | String a s' => N_of_ascii a :: js s'
  end.

Definition jseqb (a b : jsstring) : bool := bool_decide (a = b).

(** Decimal digits of a non-negative integer, as the template literal
    [`${n}`] and [JSON.stringify] print it. *)
Fixpoint digits_go (fuel : nat) (n : N) (acc : jsstring) : jsstring :=
  match fuel with
  | O => acc
  | S f =>
      let acc' := (48 + n mod 10) :: acc in
      if n <? 10 then acc' else digits_go f (n / 10) acc'
  end.

Definition dec (n : N) : jsstring := digits_go (S (N.size_nat n)) n [].

(** ** Regular expressions

    The fragment of ECMAScript regular expressions that the four patterns
    of [handleAnalyzeContent] are written in: a pattern is a sequence of
    items, an item is one atom, a greedy [a*] or a lazy [a*?]. *)

Module Regex.

Inductive atom : Type :=
  | Lit (c : N)            (* a literal character *)
  | NotLit (c : N)         (* [^c] *)
  | Range (lo hi : N)      (* [lo-hi] *)
  | Dot.                   (* . without the s flag *)

Inductive item : Type :=
  | One (a : atom)
  | Star (a : atom)        (* a*  *)
  | StarLazy (a : atom).   (* a*? *)

Definition regex := list item.

(** Line terminators of ECMAScript: LF, CR, LS and PS. *)
Definition line_terminator (c : N) : bool :=
  (c =? 10) || (c =? 13) || (c =? 8232) || (c =? 8233).

Definition atom_ok (a : atom) (c : N) : bool :=
  match a with
  | Lit x => c =? x
  | NotLit x => negb (c =? x)
  | Range lo hi => (lo <=? c) && (c <=? hi)
  | Dot => negb (line_terminator c)
  end.

(** The backtracking matcher anchored at the head of the input: the rest of
    the input after the match that the backtracking order finds first. *)
Fixpoint exec_here (r : regex) : jsstring -> option jsstring :=
  match r with
  | [] => fun s => Some s
  | One a :: r' =>
      fun s =>
        match s with
        | c :: s' => if atom_ok a c then exec_here r' s' else None
        | [] => None
        end
  | Star a :: r' =>
      fix greedy (s : jsstring) : option jsstring :=
        match s with
        | c :: s' =>
            if atom_ok a c then
              match greedy s' with
              | Some t => Some t
              | None => exec_here r' s
              end
            else exec_here r' s
        | [] => exec_here r' []
        end
  | StarLazy a :: r' =>
      fix lazy (s : jsstring) : option jsstring :=
        match exec_here r' s with
        | Some t => Some t
        | None =>
            match s with
            | c :: s' => if atom_ok a c then lazy s' else None
            | [] => None
            end
        end
  end.

(** [String.prototype.match] with a global pattern: the successive matches,
    each searched from the end of the one before (one further after an
    empty match).  [m] is the matcher anchored at a position; [skip] counts
    the characters of the current match still to pass. *)
Fixpoint match_g (m : jsstring -> option jsstring) (skip : nat) (s : jsstring)
  : list jsstring :=
  match s with
  | [] =>
      match skip, m [] with
      | O, Some _ => [[]]
      | _, _ => []
      end
  | _ :: s' =>
      match skip with
      | S k => match_g m k s'
      | O =>
          match m s with
          | Some rest =>
              let n := (length s - length rest)%nat in
              take n s :: match_g m (pred n) s'
          | None => match_g m 0 s'
          end
      end
  end.

(** [(content.match(re) || []).length] *)
Definition count (r : regex) (content : jsstring) : nat :=
  length (match_g (exec_here r) 0 content).

Definition lits (s : string) : regex := map (fun c => One (Lit c)) (js s).

End Regex.

Import Regex.

(** ** The four patterns of [handleAnalyzeContent] *)

Definition gt : N := 62.

(** [/<h[1-6][^>]*>.*?<\/h[1-6]>/g] *)
Definition re_heading : regex :=
  lits "<h" ++ [One (Range 49 54); Star (NotLit gt); One (Lit gt); StarLazy Dot]
  ++ lits "</h" ++ [One (Range 49 54); One (Lit gt)].

(** [/<p[^>]*>.*?<\/p>/g] *)
Definition re_paragraph : regex :=
  lits "<p" ++ [Star (NotLit gt); One (Lit gt); StarLazy Dot] ++ lits "</p>".

(** [/<img[^>]*>/g] *)
Definition re_image : regex :=
  lits "<img" ++ [Star (NotLit gt); One (Lit gt)].

(** [/<a[^>]*>.*?<\/a>/g] *)
Definition re_link : regex :=
  lits "<a" ++ [Star (NotLit gt); One (Lit gt); StarLazy Dot] ++ lits "</a>".

Record analysis : Type := Analysis {
  headings : nat;
  paragraphs : nat;
  images : nat;
  links : nat
}.

(** The object built at lines 188-193 of [src/index.ts] (and returned by
    [FilePreviewWrapper.analyzeContent]). *)
Definition analyze (content : jsstring) : analysis :=
  {| headings := count re_heading content;
     paragraphs := count re_paragraph content;
     images := count re_image content;
     links := count re_link content |}.

(** ** Paths

    The functions of Node's POSIX [path] module and the string method that
    the handlers call.  They follow the documented behaviour of the
    library: components are separated by [/], trailing separators are
    ignored by [basename] and [dirname], and [join] normalises its result. *)

Module Path.

Definition slash : N := 47.
Definition dot : jsstring := [46].
Definition dotdot : jsstring := [46; 46].

(** The components of a path: the pieces between separators, empty pieces
    included. *)
Fixpoint components (p : jsstring) : list jsstring :=
  match p with
  | [] => [[]]
  | c :: p' =>
      if c =? slash then [] :: components p'
      else match components p' with
           | x :: xs => (c :: x) :: xs
           | [] => [[c]]
           end
  end.

Definition nonempty (s : jsstring) : bool :=
  match s with [] => false | _ => true end.

(** [path.basename(p)]: the last portion of the path. *)
Definition basename (p : jsstring) : jsstring :=
  default [] (last (filter (fun c => nonempty c = true) (components p))).

Definition ends_with (s suffix : jsstring) : bool :=
  bool_decide (drop (length s - length suffix) s = suffix)
  && (length suffix <=? length s)%nat.

(** The separators at the head of [l]. *)
Fixpoint leading_slashes (l : jsstring) : jsstring :=
  match l with
  | c :: l' => if c =? slash then c :: leading_slashes l' else []
  | [] => []
  end.

(** The separators at the end of a path. *)
Definition trailing_slashes (p : jsstring) : jsstring :=
  leading_slashes (rev p).

(** [path.basename(p, ext)], after the loop of the library, which compares
    the last portion with [ext] from the end: the suffix is removed when
    the portion ends with it and is more than it; when the portion is
    exhausted before [ext] is, the end index is left unset and the slice
    runs to the end of the path, trailing separators included. *)
Definition basename_ext (p ext : jsstring) : jsstring :=
  let b := basename p in
  if nonempty ext && (length ext <=? length p)%nat then
    if jseqb p ext then []
    else if ends_with b ext
         then (if jseqb b ext then b else take (length b - length ext) b)
         else if ends_with ext b then b ++ trailing_slashes p
         else b
  else b.

(** [path.dirname(p)], after the loop of the library: from the end, skip
    the trailing separators and the last portion, and cut at the separator
    found (index 0 is not visited).  [l] holds the characters from the last
    one down to index 1. *)
Fixpoint dirname_scan (l : jsstring) (matchedSlash : bool) : option jsstring :=
  match l with
  | [] => None
  | c :: l' =>
      if c =? slash then
        if matchedSlash then dirname_scan l' true else Some l'
      else dirname_scan l' false
  end.

Definition dirname (p : jsstring) : jsstring :=
  match p with
  | [] => dot
  | c0 :: rest =>
      let hasRoot := c0 =? slash in
      match dirname_scan (rev rest) true with
      | None => if hasRoot then [slash] else dot
      | Some pre =>
          if hasRoot && negb (nonempty pre) then [slash; slash]
          else c0 :: rev pre
      end
  end.

(** One component of [normalizeString]: [stack] holds the segments kept so
    far, the last one first. *)
Definition norm_step (allowAboveRoot : bool) (stack : list jsstring)
    (c : jsstring) : list jsstring :=
  if jseqb c [] || jseqb c dot then stack
  else if jseqb c dotdot then
    match stack with
    | top :: stack' =>
        if jseqb top dotdot
        then (if allowAboveRoot then c :: stack else stack)
        else stack'
    | [] => if allowAboveRoot then [c] else []
    end
  else c :: stack.

Definition norm_segments (allowAboveRoot : bool) (cs : list jsstring)
  : list jsstring :=
  rev (fold_left (norm_step allowAboveRoot) cs []).

(** Segments joined by the separator. *)
Fixpoint render (segs : list jsstring) : jsstring :=
  match segs with
  | [] => []
  | [x] => x
  | x :: rest => x ++ slash :: render rest
  end.

Definition is_absolute (p : jsstring) : bool :=
  match p with c :: _ => c =? slash | [] => false end.

Definition trailing_slash (p : jsstring) : bool :=
  match last p with Some c => c =? slash | None => false end.

(** [path.normalize(p)] *)
Definition normalize (p : jsstring) : jsstring :=
  match p with
  | [] => dot
  | _ =>
      let body := render (norm_segments (negb (is_absolute p)) (components p)) in
      match body with
      | [] =>
          if is_absolute p then [slash]
          else if trailing_slash p then dot ++ [slash] else dot
      | _ =>
          let body' := if trailing_slash p then body ++ [slash] else body in
          if is_absolute p then slash :: body' else body'
      end
  end.

(** [path.join(...segs)]: the non-empty arguments joined by the separator,
    then normalised. *)
Definition join (segs : list jsstring) : jsstring :=
  match filter (fun c => nonempty c = true) segs with
  | [] => dot
  | segs' => normalize (render segs')
  end.

(** [s.replace(pat, rep)] with a string pattern: the first occurrence of
    [pat] is replaced ([rep] holds no [$]). *)
Fixpoint replace (pat rep s : jsstring) : jsstring :=
  if jseqb (take (length pat) s) pat then rep ++ drop (length pat) s
  else match s with
       | [] => []
       | c :: s' => c :: replace pat rep s'
       end.

End Path.

(** ** Values, errors and the external world *)

(** The values a tool call can carry in its argument mapping.  [VNum z]
    is the Number value for the integer [z]: the double nearest to [z]
    (see [Number.round]). *)
Inductive jsval : Type :=
  | VUndefined
  | VNull
  | VBool (b : bool)
  | VNum (z : Z)
  | VStr (s : jsstring).

Global Instance jsval_eq_dec : EqDecision jsval.
Proof. solve_decision. Defined.

(** The Number values that are integers, and how they print. *)
Module Number.

(** The Number value for a natural number: the nearest number with a
    significand of 53 bits, the even significand where two are as near;
    [None] is [Infinity], from [2^1024 - 2^970] on. *)
Definition round (m : N) : option N :=
  let size := N.size m in
  if size <=? 53 then Some m
  else
    let sh := size - 53 in
    let q := N.shiftr m sh in
    let r := m - N.shiftl q sh in
    let half := N.shiftl 1 (sh - 1) in
    let q' := if (half <? r) || ((r =? half) && N.odd q) then q + 1 else q in
    let v := N.shiftl q' sh in
    if N.shiftl 1 1024 <=? v then None else Some v.

(** The decimal [d] is read back as the number [x]. *)
Definition rounds_to (x d : N) : bool :=
  (0 <? d) && match round d with Some y => y =? x | None => false end.

(** The multiples of [10^e] next to [x], below and above: the one that is
    read back as [x]; of two, the nearer to [x], and the one with the even
    last digit when they are as near. *)
Definition candidate (x : N) (e : nat) : option N :=
  let p := 10 ^ N.of_nat e in
  let lo := x / p * p in
  let hi := lo + p in
  match rounds_to x lo, rounds_to x hi with
  | true, true =>
      Some (if x - lo <? hi - x then lo
            else if hi - x <? x - lo then hi
            else if N.even (lo / p) then lo else hi)
  | true, false => Some lo
  | false, true => Some hi
  | false, false => None
  end.

(** The decimal with the fewest significant digits that is read back as
    [x]: the first candidate found from [10^e] downwards. *)
Fixpoint shortest (x : N) (e : nat) : N :=
  match candidate x e with
  | Some d => d
  | None => match e with O => x | S e' => shortest x e' end
  end.

Fixpoint drop_zeros (ds : jsstring) : jsstring :=
  match ds with
  | c :: ds' => if c =? 48 then drop_zeros ds' else ds
  | [] => []
  end.

(** [Number::toString] in radix 10 for the Number value for [z]: the
    digits of the shortest decimal, in full below [10^21] and as
    [d.ddde+n] from there on. *)
Definition toString (z : Z) : jsstring :=
  let sign := if (z <? 0)%Z then [45] else [] in
  match round (Z.abs_N z) with
  | None => sign ++ js "Infinity"
  | Some x =>
      if x =? 0 then js "0"
      else
        let ds := dec (shortest x (length (dec x))) in
        let n := length ds in
        if (n <=? 21)%nat then sign ++ ds
        else
          match rev (drop_zeros (rev ds)) with
          | [] => []
          | [c] => sign ++ c :: js "e+" ++ dec (N.of_nat (n - 1))
          | c :: cs => sign ++ c :: 46 :: cs ++ js "e+" ++ dec (N.of_nat (n - 1))
          end
  end.

End Number.

(** [`${v}`] *)
Definition to_string (v : jsval) : jsstring :=
  match v with
  | VUndefined => js "undefined"
  | VNull => js "null"
  | VBool true => js "true"
  | VBool false => js "false"
  | VNum z => Number.toString z
  | VStr s => s
  end.

(** [!v] *)
Definition falsy (v : jsval) : bool :=
  match v with
  | VUndefined | VNull | VBool false => true
  | VNum z => (z =? 0)%Z
  | VStr s => negb (Path.nonempty s)
  | VBool true => false
  end.

(** The argument mapping of a request; [request.params.arguments] may be
    absent. *)
Abbreviation arguments := (gmap jsstring jsval).

(** [args.k]: a missing property reads as [undefined]. *)
Definition prop (a : arguments) (k : string) : jsval :=
  default VUndefined (a !! js k).

(** A destructuring default, [{ k = d }]: [d] replaces [undefined]. *)
Definition prop_default (a : arguments) (k : string) (d : jsval) : jsval :=
  match prop a k with VUndefined => d | v => v end.

Inductive ErrorCode : Type := InvalidRequest | MethodNotFound.

Inductive errno : Type := ENOENT | ENOTDIR | EISDIR | EEXIST.

(** The calls into the browser engine. *)
Inductive engine_call : Type :=
  | CLaunch | CNewPage | CSetViewport | CSetBypassCSP | CSetExtraHTTPHeaders
  | CGoto | CAddStyleTag | CEvaluate | CScreenshot | CContent | CClose.

Inductive error : Type :=
  | McpError (code : ErrorCode) (message : jsstring)
  | JsError (message : jsstring)               (* new Error(message) *)
  | TypeError
  | FsError (code : errno) (path : jsstring)   (* thrown by the fs module *)
  | TimeoutError                               (* page.goto after 30000 ms *)
  | EngineError (call : engine_call).          (* any other engine failure *)

(** A file-system entry; a file holds the text that
    [readFileSync(path, 'utf-8')] returns for it. *)
Inductive entry : Type :=
  | File (data : jsstring)
  | Dir.

Global Instance entry_eq_dec : EqDecision entry.
Proof. solve_decision. Defined.

(** Entries are keyed by their names from the root. *)
Abbreviation fskey := (list jsstring).

Inductive event : Type :=
  | EExistsSync (v : jsval)
  | EReadFileSync (p : jsstring)
  | EMkdirSync (p : jsstring)
  | ELaunch
  | ENewPage
  | ESetViewport (page : nat) (width height : jsval)
  | ESetBypassCSP (page : nat)
  | ESetExtraHTTPHeaders (page : nat)
  | EGoto (page : nat) (url : jsstring)
  | EAddStyleTag (page : nat) (css : jsstring)
  | EEvaluate (page : nat)
  | EDelay (ms : N)
  | EDateNow
  | EScreenshot (page : nat) (path : jsstring)
  | EContent (page : nat)
  | EClose (page : nat).

Record World : Type := mkWorld {
  fs : gmap fskey entry;     (* the file system *)
  cwd : fskey;               (* the working directory of the process *)
  browser : option nat;      (* the field [this.browser] *)
  engines : list nat;        (* the engine processes that are alive *)
  pages : list nat;          (* the open pages of the session *)
  fresh : nat;               (* the next handle *)
  trace : list event         (* the calls made so far, oldest first *)
}.

Inductive goto_outcome : Type := Loaded | TimedOut | NavigationFailed.

(** How the engine and the clock answer during one call of a handler. *)
Record Script : Type := mkScript {
  launch_ok : bool;
  newPage_ok : bool;
  setViewport_ok : bool;
  setBypassCSP_ok : bool;
  setExtraHTTPHeaders_ok : bool;
  goto_result : goto_outcome;
  addStyleTag_main_ok : bool;
  addStyleTag_page_ok : bool;
  evaluate_ok : bool;
  now : N;                         (* Date.now() *)
  capture : option jsstring;       (* the image, when the capture works *)
  content_result : option jsstring;(* page.content() *)
  close_ok : bool
}.

(** ** The monad of the handlers: state and exceptions *)

Inductive outcome (A : Type) : Type :=
  | Ok (a : A)
  | Throw (e : error).
Arguments Ok {A} a.
Arguments Throw {A} e.

Definition M (A : Type) : Type := World -> outcome A * World.

Definition ret {A} (a : A) : M A := fun w => (Ok a, w).
Definition throw {A} (e : error) : M A := fun w => (Throw e, w).

Definition bind {A B} (m : M A) (f : A -> M B) : M B :=
  fun w =>
    match m w with
    | (Ok a, w') => f a w'
    | (Throw e, w') => (Throw e, w')
    end.

(** [try { body } finally { fin }]: [fin] runs on both exits, and an
    exception of [fin] replaces the result of [body]. *)
Definition try_finally {A} (body : M A) (fin : M unit) : M A :=
  fun w =>
    match body w with
    | (r, w1) =>
        match fin w1 with
        | (Ok _, w2) => (r, w2)
        | (Throw e, w2) => (Throw e, w2)
        end
    end.

(** [try { body } catch (error) { handler }] *)
Definition try_catch {A} (body : M A) (handler : error -> M A) : M A :=
  fun w =>
    match body w with
    | (Ok a, w1) => (Ok a, w1)
    | (Throw e, w1) => handler e w1
    end.

Global Instance M_ret : MRet M := @ret.
Global Instance M_bind : MBind M := fun A B f m => bind m f.

(** ** The file system

    Path resolution walks the components of a path from the root (or from
    the working directory for a relative path); every component but the
    last is looked up in a directory.  There are no symbolic links. *)

Module Fs.

Definition next (cur : fskey) (c : jsstring) : fskey :=
  if jseqb c [] || jseqb c Path.dot then cur
  else if jseqb c Path.dotdot then removelast cur
  else cur ++ [c].

Fixpoint walk (f : gmap fskey entry) (cur : fskey) (cs : list jsstring)
  : errno + fskey :=
  match cs with
  | [] => inr cur
  | c :: cs' =>
      match f !! cur with
      | Some Dir => walk f (next cur c) cs'
      | Some (File _) => inl ENOTDIR
      | None => inl ENOENT
      end
  end.

Definition start (wd : fskey) (p : jsstring) : fskey :=
  if Path.is_absolute p then [] else wd.

Definition resolve (f : gmap fskey entry) (wd : fskey) (p : jsstring)
  : errno + fskey :=
  match p with
  | [] => inl ENOENT
  | _ => walk f (start wd p) (Path.components p)
  end.

Definition stat (f : gmap fskey entry) (wd : fskey) (p : jsstring)
  : errno + entry :=
  match resolve f wd p with
  | inl e => inl e
  | inr k => match f !! k with Some e => inr e | None => inl ENOENT end
  end.

(** The entry that a path references, if any. *)
Definition lookup (f : gmap fskey entry) (wd : fskey) (p : jsstring)
  : option entry :=
  match stat f wd p with
  | inr e => Some e
  | inl _ => None
  end.

(** [mkdir] with [recursive: true]: every missing directory on the way is
    created. *)
Fixpoint mkdir_p (f : gmap fskey entry) (cur : fskey) (cs : list jsstring)
  : errno + gmap fskey entry :=
  match cs with
  | [] => inr f
  | c :: cs' =>
      let k := next cur c in
      match f !! k with
      | Some Dir => mkdir_p f k cs'
      | Some (File _) => inl (match cs' with [] => EEXIST | _ => ENOTDIR end)
      | None => mkdir_p (<[k := Dir]> f) k cs'
      end
  end.

(** Writing a file creates it or replaces its data. *)
Definition write (f : gmap fskey entry) (wd : fskey) (p data : jsstring)
  : errno + gmap fskey entry :=
  match resolve f wd p with
  | inl e => inl e
  | inr k =>
      match f !! k with
      | Some Dir => inl EISDIR
      | _ => inr (<[k := File data]> f)
      end
  end.

(** A file system is a tree when the parent of every entry is a
    directory. *)
Definition tree (f : gmap fskey entry) : Prop :=
  forall (k : fskey) (c : jsstring) (e : entry),
    f !! (k ++ [c]) = Some e -> f !! k = Some Dir.

End Fs.

(** *** The calls of the [fs] module *)

(** A step that reads or changes the world. *)
Definition act {A} (f : World -> outcome A * World) : M A := f.

(** The world after one more call is recorded. *)
Definition logged (e : event) (w : World) : World :=
  mkWorld (fs w) (cwd w) (browser w) (engines w) (pages w) (fresh w)
          (trace w ++ [e]).

Definition log (e : event) : M unit := act (fun w => (Ok tt, logged e w)).

Definition set_fs (f : gmap fskey entry) : M unit :=
  act (fun w => (Ok tt, mkWorld f (cwd w) (browser w) (engines w) (pages w)
                                (fresh w) (trace w))).

(** The entry that a path references in a world, if any. *)
Definition entry_at (w : World) (p : jsstring) : option entry :=
  Fs.lookup (fs w) (cwd w) p.

(** [fs.existsSync(v)]: false for whatever is not a path. *)
Definition existsSync (v : jsval) : M bool :=
  log (EExistsSync v);;
  act (fun w =>
    match v with
    | VStr p =>
        match Fs.lookup (fs w) (cwd w) p with
        | Some _ => (Ok true, w)
        | None => (Ok false, w)
        end
    | _ => (Ok false, w)
    end).

(** The library functions that take a path reject other values. *)
Definition validateString (v : jsval) : M jsstring :=
  match v with
  | VStr p => mret p
  | _ => throw TypeError
  end.

(** [fs.readFileSync(p, 'utf-8')] *)
Definition readFileSync (v : jsval) : M jsstring :=
  p ← validateString v;
  log (EReadFileSync p);;
  act (fun w =>
    match Fs.stat (fs w) (cwd w) p with
    | inr (File data) => (Ok data, w)
    | inr Dir => (Throw (FsError EISDIR p), w)
    | inl e => (Throw (FsError e p), w)
    end).

(** [fs.mkdirSync(p, { recursive: true })] *)
Definition mkdirSync (p : jsstring) : M unit :=
  log (EMkdirSync p);;
  act (fun w =>
    match Fs.mkdir_p (fs w) (Fs.start (cwd w) p) (Path.components p) with
    | inr f => set_fs f w
    | inl e => (Throw (FsError e p), w)
    end).

(** *** The calls of the browser engine *)

Definition engine (c : engine_call) (ok : bool) : M unit :=
  if ok then mret tt else throw (EngineError c).

(** [puppeteer.launch()] starts an engine process. *)
Definition launch (sc : Script) : M nat :=
  log ELaunch;;
  engine CLaunch (launch_ok sc);;
  act (fun w => (Ok (fresh w),
                 mkWorld (fs w) (cwd w) (browser w) (fresh w :: engines w)
                         (pages w) (S (fresh w)) (trace w))).

Definition set_browser (b : option nat) : M unit :=
  act (fun w => (Ok tt, mkWorld (fs w) (cwd w) b (engines w) (pages w)
                                (fresh w) (trace w))).

(** [browser.newPage()] *)
Definition newPage (sc : Script) : M nat :=
  log ENewPage;;
  engine CNewPage (newPage_ok sc);;
  act (fun w => (Ok (fresh w),
                 mkWorld (fs w) (cwd w) (browser w) (engines w)
                         (pages w ++ [fresh w]) (S (fresh w)) (trace w))).

Definition setViewport (sc : Script) (page : nat) (width height : jsval) : M unit :=
  log (ESetViewport page width height);;
  engine CSetViewport (setViewport_ok sc).

Definition setBypassCSP (sc : Script) (page : nat) : M unit :=
  log (ESetBypassCSP page);;
  engine CSetBypassCSP (setBypassCSP_ok sc).

Definition setExtraHTTPHeaders (sc : Script) (page : nat) : M unit :=
  log (ESetExtraHTTPHeaders page);;
  engine CSetExtraHTTPHeaders (setExtraHTTPHeaders_ok sc).

(** [page.goto(url, { waitUntil: [...], timeout: 30000 })] *)
Definition goto (sc : Script) (page : nat) (url : jsstring) : M unit :=
  log (EGoto page url);;
  match goto_result sc with
  | Loaded => mret tt
  | TimedOut => throw TimeoutError
  | NavigationFailed => throw (EngineError CGoto)
  end.

Definition addStyleTag (ok : bool) (page : nat) (css : jsstring) : M unit :=
  log (EAddStyleTag page css);;
  engine CAddStyleTag ok.

(** [page.evaluate] of the wait for the images that are not complete. *)
Definition evaluate (sc : Script) (page : nat) : M unit :=
  log (EEvaluate page);;
  engine CEvaluate (evaluate_ok sc).

(** [new Promise(resolve => setTimeout(resolve, ms))] *)
Definition delay (ms : N) : M unit := log (EDelay ms).

Definition dateNow (sc : Script) : M N :=
  log EDateNow;; mret (now sc).

(** [page.screenshot({ fullPage: true, path })]: the image is captured,
    then written at [path]. *)
Definition screenshot (sc : Script) (page : nat) (path : jsstring) : M unit :=
  log (EScreenshot page path);;
  match capture sc with
  | None => throw (EngineError CScreenshot)
  | Some image =>
      act (fun w =>
        match Fs.write (fs w) (cwd w) path image with
        | inr f => set_fs f w
        | inl e => (Throw (FsError e path), w)
        end)
  end.

(** [page.content()] *)
Definition pageContent (sc : Script) (page : nat) : M jsstring :=
  log (EContent page);;
  match content_result sc with
  | Some html => mret html
  | None => throw (EngineError CContent)
  end.

(** [page.close()] *)
Definition closePage (sc : Script) (page : nat) : M unit :=
  log (EClose page);;
  engine CClose (close_ok sc);;
  act (fun w => (Ok tt,
                 mkWorld (fs w) (cwd w) (browser w) (engines w)
                         (filter (fun q => q <> page) (pages w)) (fresh w)
                         (trace w))).

(** ** The handlers *)

Definition gets {A} (f : World -> A) : M A := act (fun w => (Ok (f w), w)).

(** [initBrowser], lines 35-40 of [src/index.ts]. *)
Definition initBrowser (sc : Script) : M nat :=
  b ← gets browser;
  match b with
  | Some h => mret h
  | None => h ← launch sc; set_browser (Some h);; mret h
  end.

(** [new McpError(ErrorCode.InvalidRequest, `File not found: ${filePath}`)] *)
Definition file_not_found (filePath : jsval) : error :=
  McpError InvalidRequest (js "File not found: " ++ to_string filePath).

(** [path.join(baseDir, '..', 'style.css')] with
    [baseDir = path.dirname(filePath)] *)
Definition mainCssPath (filePath : jsstring) : jsstring :=
  Path.join [Path.dirname filePath; js ".."; js "style.css"].

(** [path.join(baseDir, path.basename(filePath).replace('.html', '.css'))] *)
Definition pageCssPath (filePath : jsstring) : jsstring :=
  Path.join [Path.dirname filePath;
             Path.replace (js ".html") (js ".css") (Path.basename filePath)].

Definition screenshotsDir (base : jsstring) : jsstring :=
  Path.join [base; js "screenshots"].

(** [`${path.basename(filePath, '.html')}_${Date.now()}.png`] *)
Definition screenshotName (filePath : jsstring) (t : N) : jsstring :=
  Path.basename_ext filePath (js ".html") ++ js "_" ++ dec t ++ js ".png".

Definition screenshotPath (base filePath : jsstring) (t : N) : jsstring :=
  Path.join [screenshotsDir base; screenshotName filePath t].

(** The body of [handlePreviewFile] from the existence check on (lines
    104-175 of [src/index.ts]); [FilePreviewWrapper.previewFile] of the
    README is the same text with another [base].  The result is the pair of
    [screenshotPath] and [content]. *)
Definition previewFile (base : jsstring) (sc : Script)
    (filePath width height : jsval) : M (jsstring * jsstring) :=
  found ← existsSync filePath;
  if negb found then throw (file_not_found filePath) else
  _ ← initBrowser sc;
  page ← newPage sc;
  setViewport sc page width height;;
  try_finally
    (setBypassCSP sc page;;
     setExtraHTTPHeaders sc page;;
     goto sc page (js "file://" ++ to_string filePath);;
     file ← validateString filePath;
     mainCss ← readFileSync (VStr (mainCssPath file));
     pageCss ← readFileSync (VStr (pageCssPath file));
     addStyleTag (addStyleTag_main_ok sc) page mainCss;;
     addStyleTag (addStyleTag_page_ok sc) page pageCss;;
     evaluate sc page;;
     delay 1000;;
     dirFound ← existsSync (VStr (screenshotsDir base));
     (if negb dirFound then mkdirSync (screenshotsDir base) else mret tt);;
     t ← dateNow sc;
     screenshot sc page (screenshotPath base file t);;
     content ← pageContent sc page;
     mret (screenshotPath base file t, content))
    (closePage sc page).

(** The analysis of lines 181-193 of [src/index.ts];
    [FilePreviewWrapper.analyzeContent] of the README is the same text. *)
Definition analyzeContent (filePath : jsval) : M analysis :=
  found ← existsSync filePath;
  if negb found then throw (file_not_found filePath) else
  content ← readFileSync filePath;
  mret (analyze content).

(** What a tool call answers: a text block, or, where a handler catches,
    the text block that carries the message of the error. *)
Inductive tool_result : Type :=
  | Text (text : jsstring)
  | ErrorText (e : error).

Definition quote : jsstring := [34].
Definition newline : jsstring := [10].

(** [JSON.stringify(analysis, null, 2)] *)
Definition stringify (a : analysis) : jsstring :=
  let field (k : string) (n : nat) :=
    js "  " ++ quote ++ js k ++ quote ++ js ": " ++ dec (N.of_nat n) in
  js "{" ++ newline
  ++ field "headings"%string (headings a) ++ js "," ++ newline
  ++ field "paragraphs"%string (paragraphs a) ++ js "," ++ newline
  ++ field "images"%string (images a) ++ js "," ++ newline
  ++ field "links"%string (links a) ++ newline ++ js "}".

(** [`Screenshot saved to: ${screenshotPath}\n\nHTML Content:\n${content}`] *)
Definition preview_text (r : jsstring * jsstring) : jsstring :=
  js "Screenshot saved to: " ++ fst r ++ newline ++ newline
  ++ js "HTML Content:" ++ newline ++ snd r.

(** *** [src/index.ts]: class [FilePreviewServer] *)

Module Server.

Definition base : jsstring :=
  js "/Users/seanivore/Documents/Cline/MCP/mcp-file-preview".

(** Destructuring [args]; it throws when there is no mapping. *)
Definition destructure (args : option arguments) : M arguments :=
  match args with
  | Some a => mret a
  | None => throw TypeError
  end.

Definition handlePreviewFile (sc : Script) (args : option arguments)
  : M tool_result :=
  a ← destructure args;
  r ← previewFile base sc (prop a "filePath")
        (prop_default a "width" (VNum 1024))
        (prop_default a "height" (VNum 768));
  mret (Text (preview_text r)).

Definition handleAnalyzeContent (args : option arguments) : M tool_result :=
  a ← destructure args;
  r ← analyzeContent (prop a "filePath");
  mret (Text (stringify r)).

(** The handler of [CallToolRequestSchema], lines 86-98. *)
Definition callTool (sc : Script) (name : jsstring) (args : option arguments)
  : M tool_result :=
  if jseqb name (js "preview_file") then handlePreviewFile sc args
  else if jseqb name (js "analyze_content") then handleAnalyzeContent args
  else throw (McpError MethodNotFound (js "Unknown tool: " ++ name)).

End Server.

(** *** The README: class [FilePreviewWrapper] and its tool-call handler *)

Module Wrapper.

Definition base : jsstring := js "/Users/seanivore/Projects/mcp-file-preview".

(** A default parameter value replaces [undefined]. *)
Definition param_default (v d : jsval) : jsval :=
  match v with VUndefined => d | _ => v end.

Definition previewFile (sc : Script) (filePath width height : jsval)
  : M (jsstring * jsstring) :=
  previewFile base sc filePath
    (param_default width (VNum 1024)) (param_default height (VNum 768)).

Definition missing_argument : error :=
  JsError (js "Missing required argument: filePath").

Definition callTool (sc : Script) (name : jsstring) (args : option arguments)
  : M tool_result :=
  try_catch
    (match args with
     | None => throw (JsError (js "No arguments provided"))
     | Some a =>
         if jseqb name (js "preview_file") then
           if falsy (prop a "filePath") then throw missing_argument
           else
             r ← previewFile sc (prop a "filePath") (prop a "width")
                   (prop a "height");
             mret (Text (preview_text r))
         else if jseqb name (js "analyze_content") then
           if falsy (prop a "filePath") then throw missing_argument
           else
             r ← analyzeContent (prop a "filePath");
             mret (Text (stringify r))
         else throw (McpError MethodNotFound (js "Unknown tool: " ++ name))
     end)
    (fun e => mret (ErrorText e)).

End Wrapper.

(** ** A sample site *)

Module Sample.

Definition html : jsstring :=
  js "<h1>One</h1><h1>Two</h1><h1>Three</h1><p>first <a href='a'>a</a> <a href='b'>b</a></p><p>second <a href='c'>c</a><a href='d'>d</a></p><img src='logo.png'>".

Definition files : gmap fskey entry :=
  list_to_map
    [ ([], Dir);
      ([js "site"], Dir);
      ([js "site"; js "style.css"], File (js "body{margin:0}"));
      ([js "site"; js "pages"], Dir);
      ([js "site"; js "pages"; js "about.html"], File html);
      ([js "site"; js "pages"; js "about.css"], File (js "h1{color:red}"));
      ([js "site"; js "pages"; js "bare.html"], File (js "<p>x</p>")) ].

Definition world : World := mkWorld files [] None [] [] 0 [].

Definition good : Script :=
  mkScript true true true true true Loaded true true true 1700000000000
           (Some (js "PNG")) (Some (js "<html></html>")) true.

Definition args (p : string) : option arguments :=
  Some {[ js "filePath" := VStr (js p) ]}.

End Sample.

(** ** Vocabulary of the properties *)

(** The calls recorded between two worlds. *)
Definition events_since (w w' : World) : list event :=
  drop (length (trace w)) (trace w').

(** The calls that only read the file system. *)
Definition read_only (e : event) : bool :=
  match e with
  | EExistsSync _ | EReadFileSync _ => true
  | _ => false
  end.

(** The calls that write to the file system. *)
Definition writes (e : event) : bool :=
  match e with
  | EMkdirSync _ | EScreenshot _ _ => true
  | _ => false
  end.

Definition is_launch (e : event) : bool :=
  match e with ELaunch => true | _ => false end.

Definition is_throw {A} (r : outcome A) : bool :=
  match r with Throw _ => true | Ok _ => false end.

(** The engine answers well up to and including the navigation, so that the
    call reaches the loading of the stylesheets. *)
Definition reaches_styles (sc : Script) (w : World) : bool :=
  (bool_decide (browser w <> None) || launch_ok sc)
  && newPage_ok sc && setViewport_ok sc && setBypassCSP_ok sc
  && setExtraHTTPHeaders_ok sc
  && match goto_result sc with Loaded => true | _ => false end.

Arguments Fs.lookup : simpl never.
Arguments Fs.stat : simpl never.
Arguments Fs.mkdir_p : simpl never.
Arguments Fs.write : simpl never.
Arguments mainCssPath : simpl never.
Arguments pageCssPath : simpl never.
Arguments screenshotPath : simpl never.
Arguments screenshotsDir : simpl never.
Arguments file_not_found : simpl never.
Arguments to_string : simpl never.
Arguments js : simpl never.
Arguments analyze : simpl never.
Arguments stringify : simpl never.
Arguments preview_text : simpl never.

Ltac run :=
  unfold mbind, M_bind, bind, mret, M_ret, ret, throw, act, try_finally,
    try_catch, gets.

Ltac prims :=
  unfold existsSync, readFileSync, mkdirSync, validateString, initBrowser,
    launch, set_browser, newPage, setViewport, setBypassCSP,
    setExtraHTTPHeaders, goto, addStyleTag, evaluate, delay, dateNow,
    screenshot, pageContent, closePage, engine, log, set_fs.

(** One case split of the symbolic run: on a scrutinee that holds no other
    case analysis. *)
Ltac step :=
  match goal with
  | H : ?x = _ |- context [match ?x with _ => _ end] => rewrite H; cbn
  | |- context [match ?x with _ => _ end] =>
      lazymatch x with
      | context [match _ with _ => _ end] => fail
      | _ => destruct x eqn:?; cbn
      end
  end.

Ltac trace_tail :=
  eexists; split;
  [ rewrite <- ?app_assoc; reflexivity | cbn; repeat constructor ].

(** The error of a failed read of one of the two stylesheets of [file]. *)
Definition style_resource_error (file : jsstring) (e : error) : Prop :=
  exists code : errno,
    e = FsError code (mainCssPath file) \/ e = FsError code (pageCssPath file).

Definition is_file (o : option entry) : bool :=
  match o with Some (File _) => true | _ => false end.

Module Running.

(** The sample site once the engine runs. *)
Definition world : World :=
  mkWorld Sample.files [] (Some 0%nat) [0%nat] [] 1 [ELaunch].

(** The engine rejects the viewport. *)
Definition bad_viewport : Script :=
  mkScript true true false true true Loaded true true true 1700000000000
           (Some (js "PNG")) (Some (js "<html></html>")) true.

End Running.

Module Gallery.

(** A site in which the input path is a directory whose name ends in
    [.html], with both stylesheets at the derived paths. *)
Definition files : gmap fskey entry :=
  list_to_map
    [ ([], Dir);
      ([js "style.css"], File (js "body{margin:0}"));
      ([js "site"], Dir);
      ([js "site"; js "gallery.html"], Dir);
      ([js "site"; js "gallery.css"], File (js "img{width:10%}")) ].

Definition world : World := mkWorld files [] None [] [] 0 [].

Definition path : jsstring := js "/site/gallery.html".

End Gallery.

(** *** The session over a run of calls *)

(** A tool call as the server receives it, with the answers that the engine
    gives during the call. *)
Record request : Type := Request {
  req_script : Script;
  req_name : jsstring;
  req_args : option arguments
}.

(** The world after a call is handled; a call that throws leaves the world
    that it reached. *)
Definition serve (w : World) (r : request) : World :=
  snd (Server.callTool (req_script r) (req_name r) (req_args r) w).

Definition serve_all (w : World) (rs : list request) : World :=
  fold_left serve rs w.

(** The engines alive are the one that [this.browser] holds, if any. *)
Definition session_ok (w : World) : Prop :=
  engines w = match browser w with Some h => [h] | None => [] end.

(** [w'] is [w] after more calls, none of which launches an engine. *)
Definition no_launch (w w' : World) : Prop :=
  exists evs, trace w' = trace w ++ evs
              /\ Forall (fun e => is_launch e = false) evs.

Module Run.

(** A call that times out at the navigation, then a call that works, then
    an analysis. *)
Definition timeout : Script :=
  mkScript true true true true true TimedOut true true true 1700000000000
           (Some (js "PNG")) (Some (js "<html></html>")) true.

Definition calls : list request :=
  [ Request timeout (js "preview_file") (Sample.args "/site/pages/about.html");
    Request Sample.good (js "preview_file") (Sample.args "/site/pages/about.html");
    Request Sample.good (js "analyze_content") (Sample.args "/site/pages/about.html") ].

End Run.

(** *** Calls that overlap

    The handlers are [async] functions.  A call of one runs at once up to
    its first [await]; there it is suspended, and it goes on when it is
    resumed, up to the next [await].  The server starts the handler of a
    request when the request arrives, whether or not earlier calls have
    settled, so that the parts of several calls follow one another in any
    order that keeps the order of the parts of each call. *)

Local Unset Elimination Schemes.

(** An [async] function under way: settled, with a result or an
    exception, or suspended at an [await], with the code that runs when it
    is resumed. *)
Inductive Async (A : Type) : Type :=
  | Settled (r : outcome A)
  | Pending (resume : World -> Async A * World).

Local Set Elimination Schemes.

Arguments Settled {A} r.
Arguments Pending {A} resume.

(** The body of an [async] function: run in a world, it gets as far as its
    first [await]. *)
Definition Co (A : Type) : Type := World -> Async A * World.

Module Overlap.

(** Code without [await]. *)
Definition sync {A} (m : M A) : Co A :=
  fun w => match m w with (r, w') => (Settled r, w') end.

(** What follows an [async] function under way. *)
Fixpoint and_then {A B} (a : Async A) (f : A -> Co B) (w : World)
  : Async B * World :=
  match a with
  | Settled (Ok x) => f x w
  | Settled (Throw e) => (Settled (Throw e), w)
  | Pending k =>
      (Pending (fun w1 => match k w1 with (a', w2) => and_then a' f w2 end), w)
  end.

Definition bind {A B} (c : Co A) (f : A -> Co B) : Co B :=
  fun w => match c w with (a, w1) => and_then a f w1 end.

Global Instance Co_ret : MRet Co := fun A a => sync (ret a).
Global Instance Co_bind : MBind Co := fun A B f c => bind c f.

(** The caller of an [async] function that awaits it: it is suspended
    while the callee is under way, and once more when the callee has
    settled. *)
Fixpoint awaited {A} (a : Async A) : Async A :=
  match a with
  | Settled r => Pending (fun w => (Settled r, w))
  | Pending k => Pending (fun w => match k w with (a', w') => (awaited a', w') end)
  end.

(** [await f()] for an [async] function [f] of the program: [f] runs up to
    its first [await] within the call. *)
Definition await_call {A} (c : Co A) : Co A :=
  fun w => match c w with (a, w') => (awaited a, w') end.

(** [await] of a call into a library: the call is made, and its outcome
    is there when the caller is resumed. *)
Definition await {A} (m : M A) : Co A := await_call (sync m).

(** The [finally] clause after its [try] block has settled. *)
Fixpoint settle_as {A} (r : outcome A) (f : Async unit) : Async A :=
  match f with
  | Settled (Ok _) => Settled r
  | Settled (Throw e) => Settled (Throw e)
  | Pending k => Pending (fun w => match k w with (f', w') => (settle_as r f', w') end)
  end.

Fixpoint finally {A} (a : Async A) (fin : Co unit) (w : World)
  : Async A * World :=
  match a with
  | Settled r => match fin w with (f, w1) => (settle_as r f, w1) end
  | Pending k =>
      (Pending (fun w1 => match k w1 with (a', w2) => finally a' fin w2 end), w)
  end.

(** [try { body } finally { fin }] in an [async] function. *)
Definition try_finally {A} (body : Co A) (fin : Co unit) : Co A :=
  fun w => match body w with (a, w1) => finally a fin w1 end.

(** [initBrowser], lines 35-40 of [src/index.ts]: the function is
    suspended between the test of [this.browser] and the assignment. *)
Definition initBrowser (sc : Script) : Co nat :=
  b ← sync (gets browser);
  match b with
  | Some h => mret h
  | None => h ← await (launch sc); sync (set_browser (Some h));; mret h
  end.

(** The body of [handlePreviewFile] from the existence check on, with its
    [await]s. *)
Definition previewFile (base : jsstring) (sc : Script)
    (filePath width height : jsval) : Co (jsstring * jsstring) :=
  found ← sync (existsSync filePath);
  if negb found then sync (throw (file_not_found filePath)) else
  _ ← await_call (initBrowser sc);
  page ← await (newPage sc);
  await (setViewport sc page width height);;
  try_finally
    (await (setBypassCSP sc page);;
     await (setExtraHTTPHeaders sc page);;
     await (goto sc page (js "file://" ++ to_string filePath));;
     file ← sync (validateString filePath);
     mainCss ← sync (readFileSync (VStr (mainCssPath file)));
     pageCss ← sync (readFileSync (VStr (pageCssPath file)));
     await (addStyleTag (addStyleTag_main_ok sc) page mainCss);;
     await (addStyleTag (addStyleTag_page_ok sc) page pageCss);;
     await (evaluate sc page);;
     await (delay 1000);;
     dirFound ← sync (existsSync (VStr (screenshotsDir base)));
     (if negb dirFound then sync (mkdirSync (screenshotsDir base)) else mret tt);;
     t ← sync (dateNow sc);
     await (screenshot sc page (screenshotPath base file t));;
     content ← await (pageContent sc page);
     mret (screenshotPath base file t, content))
    (await (closePage sc page)).

Definition handlePreviewFile (sc : Script) (args : option arguments)
  : Co tool_result :=
  a ← sync (Server.destructure args);
  r ← previewFile Server.base sc (prop a "filePath")
        (prop_default a "width" (VNum 1024))
        (prop_default a "height" (VNum 768));
  mret (Text (preview_text r)).

(** [handleAnalyzeContent] has no [await]. *)
Definition handleAnalyzeContent (args : option arguments) : Co tool_result :=
  sync (Server.handleAnalyzeContent args).

(** The handler of [CallToolRequestSchema], lines 86-98: an [async]
    function that returns the promise of the handler of the tool. *)
Definition callTool (sc : Script) (name : jsstring) (args : option arguments)
  : Co tool_result :=
  if jseqb name (js "preview_file") then await_call (handlePreviewFile sc args)
  else if jseqb name (js "analyze_content")
       then await_call (handleAnalyzeContent args)
  else sync (throw (McpError MethodNotFound (js "Unknown tool: " ++ name))).

(** What happens at the server: a request arrives, or the call at some
    position, in the order of arrival, is resumed. *)
Inductive tick : Type :=
  | Arrives (r : request)
  | Resumes (i : nat).

(** The calls under way, in the order of arrival, and the world. *)
Definition state : Type := list (Async tool_result) * World.

Definition step (s : state) (t : tick) : state :=
  match t with
  | Arrives r =>
      match callTool (req_script r) (req_name r) (req_args r) (snd s) with
      | (a, w) => (fst s ++ [a], w)
      end
  | Resumes i =>
      match fst s !! i with
      | Some (Pending k) =>
          match k (snd s) with (a, w) => (<[i := a]> (fst s), w) end
      | _ => s
      end
  end.

Definition run (s : state) (ts : list tick) : state := fold_left step ts s.

(** A call that runs to its end with no other code in between. *)
Fixpoint complete {A} (a : Async A) (w : World) : outcome A * World :=
  match a with
  | Settled r => (r, w)
  | Pending k => match k w with (a', w') => complete a' w' end
  end.

Definition alone {A} (c : Co A) : M A :=
  fun w => match c w with (a, w1) => complete a w1 end.

(** Induction on an [async] function under way. *)
Fixpoint Async_induction {A} (P : Async A -> Prop)
    (HS : forall r, P (Settled r))
    (HP : forall k, (forall w, P (fst (k w))) -> P (Pending k))
    (a : Async A) : P a :=
  match a with
  | Settled r => HS r
  | Pending k => HP k (fun w => Async_induction P HS HP (fst (k w)))
  end.

(** What the calls under way have answered. *)
Definition answer (a : Async tool_result) : option (outcome tool_result) :=
  match a with Settled r => Some r | Pending _ => None end.

(** The requests that arrive, in their order. *)
Definition arrivals (ts : list tick) : list request :=
  omap (fun t => match t with Arrives r => Some r | Resumes _ => None end) ts.

(** A request for a page of the sample site. *)
Definition about : request :=
  Request Sample.good (js "preview_file") (Sample.args "/site/pages/about.html").

End Overlap.

(** *** What the patterns match *)

(** [o] is accepted by the atoms, one character each. *)
Definition accepts (atoms : list atom) (o : jsstring) : Prop :=
  Forall2 (fun a c => atom_ok a c = true) atoms o.

(** [s] begins with characters that the atoms accept. *)
Definition begins (atoms : list atom) (s : jsstring) : Prop :=
  exists o t, s = o ++ t /\ accepts atoms o.

(** A match of an element pattern, [open [^>]* > .*? close], at the head of
    [s], leaving [rest]: the characters of the open tag up to the first
    [>], then the shortest run of characters that are not line terminators
    and after which the close tag is accepted. *)
Definition element_match (open close : list atom) (s rest : jsstring) : Prop :=
  exists o attrs body c,
    s = o ++ attrs ++ gt :: body ++ c ++ rest
    /\ accepts open o
    /\ Forall (fun x => x <> gt) attrs
    /\ Forall (fun x => line_terminator x = false) body
    /\ accepts close c
    /\ forall i, (i < length body)%nat ->
                 ~ begins close (drop i (body ++ c ++ rest)).

(** The pattern of an element. *)
Definition element_re (open close : list atom) : regex :=
  map One open ++ [Star (NotLit gt); One (Lit gt); StarLazy Dot] ++ map One close.

Definition heading_open : list atom := [Lit 60; Lit 104; Range 49 54].
Definition heading_close : list atom := [Lit 60; Lit 47; Lit 104; Range 49 54; Lit gt].
Definition paragraph_open : list atom := [Lit 60; Lit 112].
Definition paragraph_close : list atom := [Lit 60; Lit 47; Lit 112; Lit gt].
Definition link_open : list atom := [Lit 60; Lit 97].
Definition link_close : list atom := [Lit 60; Lit 47; Lit 97; Lit gt].
Definition image_open : list atom := [Lit 60; Lit 105; Lit 109; Lit 103].

(** The successive matches of a scan from the left: where the matcher
    fails the scan moves one character on, where it succeeds the match is
    kept and the scan goes on after it. *)
Inductive scan (m : jsstring -> option jsstring)
  : jsstring -> list jsstring -> Prop :=
  | scan_end : scan m [] []
  | scan_skip c s ms :
      m (c :: s) = None -> scan m s ms -> scan m (c :: s) ms
  | scan_hit c x rest ms :
      m (c :: x ++ rest) = Some rest -> scan m rest ms ->
      scan m (c :: x ++ rest) ((c :: x) :: ms).

(** The claim's reading of a heading: the close tag has the level of the
    open tag. *)
Definition claimed_heading (level : N) : regex :=
  element_re [Lit 60; Lit 104; Lit level] [Lit 60; Lit 47; Lit 104; Lit level; Lit gt].

Definition claimed_heading_here (s : jsstring) : option jsstring :=
  match s with
  | _ :: _ :: level :: _ =>
      if (49 <=? level) && (level <=? 54)
      then exec_here (claimed_heading level) s
      else None
  | _ => None
  end.

Definition claimed_headings (content : jsstring) : nat :=
  length (match_g claimed_heading_here 0 content).

(** *** Paths and names *)

(** A proper name of an entry: not empty, without separator, and neither
    [.] nor [..]. *)
Definition proper_name (c : jsstring) : Prop :=
  c <> [] /\ (Path.slash ∉ c) /\ c <> Path.dot /\ c <> Path.dotdot.

(** [s] ends with the component [n]. *)
Definition ends_in (s n : jsstring) : Prop :=
  s = n \/ exists a, s = a ++ Path.slash :: n.

Global Instance proper_name_dec c : Decision (proper_name c).
Proof. unfold proper_name. apply _. Defined.

(** The segments kept by [normalizeString]: proper names, and [..] where
    the path may climb above its start. *)
Definition kept (b : bool) (c : jsstring) : Prop :=
  proper_name c \/ (b = true /\ c = Path.dotdot).

(** The directory of a path joined with its last portion, before the
    normalisation of [path.join]. *)
Definition joined (p : jsstring) : jsstring :=
  Path.render (filter (fun c => Path.nonempty c = true)
                 [Path.dirname p; Path.basename p]).

(** [path.basename(p, ext)] has removed the suffix from the last portion,
    or nothing. *)
Definition suffix_removed (p ext : jsstring) : Prop :=
  Path.basename_ext p ext = Path.basename p
  \/ Path.basename p = Path.basename_ext p ext ++ ext.

(** The three shapes of a path: a directory part, a separator and a name;
    a root and a name; a name alone.  Trailing separators follow. *)
Inductive shape (p : jsstring) : Prop :=
  | shape_dir d name tail :
      p = d ++ Path.slash :: name ++ tail -> d <> [] -> name <> [] ->
      (Path.slash ∉ name) -> Forall (eq Path.slash) tail ->
      Path.dirname p = d \/ (d = [Path.slash] /\ Path.dirname p = [Path.slash; Path.slash]) ->
      shape p
  | shape_root name tail :
      p = Path.slash :: name ++ tail ->
      (Path.slash ∉ name) -> Forall (eq Path.slash) tail ->
      Path.dirname p = [Path.slash] ->
      shape p
  | shape_name name tail :
      p = name ++ tail -> name <> [] ->
      (Path.slash ∉ name) -> Forall (eq Path.slash) tail ->
      Path.dirname p = Path.dot ->
      shape p.

Module Backup.

(** A page whose name holds [.html] twice, with its stylesheets. *)
Definition files : gmap fskey entry :=
  list_to_map
    [ ([], Dir);
      ([js "site"], Dir);
      ([js "site"; js "style.css"], File (js "body{margin:0}"));
      ([js "site"; js "pages"], Dir);
      ([js "site"; js "pages"; js "a.html.html"], File (js "<p>x</p>"));
      ([js "site"; js "pages"; js "a.html.css"], File (js "p{color:red}")) ].

Definition world : World := mkWorld files [] None [] [] 0 [].

Definition path : jsstring := js "/site/pages/a.html.html".

End Backup.

(** * The rest of the two files *)

(** ** The tools that the server announces *)

Inductive json_type : Type := TString | TNumber.

(** One property of an input schema. *)
Record schema_property : Type := SchemaProperty {
  sp_name : string;
  sp_type : json_type;
  sp_description : string;
  sp_default : option jsval
}.

Record tool : Type := Tool {
  tool_name : jsstring;
  tool_description : string;
  tool_properties : list schema_property;
  tool_required : list string
}.

(** The answer to [ListToolsRequestSchema], lines 43-84 of [src/index.ts];
    the README announces the same two tools. *)
Definition listTools : list tool :=
  [ Tool (js "preview_file") "Preview local HTML file and capture screenshot"
      [ SchemaProperty "filePath" TString "Path to local HTML file" None;
        SchemaProperty "width" TNumber "Viewport width" (Some (VNum 1024));
        SchemaProperty "height" TNumber "Viewport height" (Some (VNum 768)) ]
      ["filePath"%string];
    Tool (js "analyze_content") "Analyze HTML content structure"
      [ SchemaProperty "filePath" TString "Path to local HTML file" None ]
      ["filePath"%string] ].

(** ** The resources of the README

    The handlers of [ListResourcesRequestSchema],
    [ListResourceTemplatesRequestSchema], [ReadResourceRequestSchema] and
    [ListPromptsRequestSchema], lines 367-428 of the README. *)

Module Resource.

Record resource : Type := Resource {
  res_uri : jsstring;
  res_name : string;
  res_description : string;
  res_mimeType : string
}.

Definition listResources : list resource :=
  [ Resource (js "file://preview/html") "HTML Preview"
      "Preview HTML files with styling" "text/html" ].

(** The one template announced; [res_uri] holds its [uriTemplate]. *)
Definition listResourceTemplates : list resource :=
  [ Resource (js "file://preview/html/{path}") "HTML File Preview"
      "Preview any HTML file with its associated CSS" "text/html" ].

(** No prompt is announced. *)
Definition listPrompts : list string := [].

(** The backtracking matcher of a pattern that stands between [^] and [$]:
    whether the pattern matches the whole of the input. *)
Fixpoint exec_whole (r : regex) : jsstring -> bool :=
  match r with
  | [] => fun s => match s with [] => true | _ => false end
  | One a :: r' =>
      fun s =>
        match s with
        | c :: s' => atom_ok a c && exec_whole r' s'
        | [] => false
        end
  | Star a :: r' =>
      fix greedy (s : jsstring) : bool :=
        match s with
        | c :: s' => (atom_ok a c && greedy s') || exec_whole r' s
        | [] => exec_whole r' []
        end
  | StarLazy a :: r' =>
      fix lazy (s : jsstring) : bool :=
        exec_whole r' s
        || match s with
           | c :: s' => atom_ok a c && lazy s'
           | [] => false
           end
  end.

Definition prefix : jsstring := js "file://preview/html/".

(** [/^file:\/\/preview\/html\/(.+)$/], without the anchors and the
    group. *)
Definition uri_re : regex := map (fun c => One (Lit c)) prefix ++ [One Dot; Star Dot].

(** [uri.match(...)]: the text of the group when the pattern matches; the
    group is what follows the literal part. *)
Definition match_uri (uri : jsstring) : option jsstring :=
  if exec_whole uri_re uri then Some (drop (length prefix) uri) else None.

(** *** [decodeURIComponent] *)

Definition hex_digit (c : N) : option N :=
  if (48 <=? c) && (c <=? 57) then Some (c - 48)
  else if (65 <=? c) && (c <=? 70) then Some (c - 55)
  else if (97 <=? c) && (c <=? 102) then Some (c - 87)
  else None.

Definition hex_octet (h l : N) : option N :=
  match hex_digit h, hex_digit l with
  | Some a, Some b => Some (16 * a + b)
  | _, _ => None
  end.

(** The number of leading 1 bits of an octet. *)
Definition leading_ones (b : N) : nat :=
  if b <? 128 then 0
  else if b <? 192 then 1
  else if b <? 224 then 2
  else if b <? 240 then 3
  else if b <? 248 then 4
  else 5.

Definition continuation (b : N) : bool := (128 <=? b) && (b <? 192).

(** The code point of a well-formed UTF-8 sequence of two to four octets:
    shortest form, no surrogate, at most U+10FFFF. *)
Definition utf8_code_point (octets : list N) : option N :=
  match octets with
  | [b0; b1] =>
      let v := (b0 - 192) * 64 + (b1 - 128) in
      if continuation b1 && (128 <=? v) then Some v else None
  | [b0; b1; b2] =>
      let v := (b0 - 224) * 4096 + (b1 - 128) * 64 + (b2 - 128) in
      if continuation b1 && continuation b2 && (2048 <=? v)
         && negb ((55296 <=? v) && (v <=? 57343))
      then Some v else None
  | [b0; b1; b2; b3] =>
      let v := (b0 - 240) * 262144 + (b1 - 128) * 4096 + (b2 - 128) * 64
               + (b3 - 128) in
      if continuation b1 && continuation b2 && continuation b3
         && (65536 <=? v) && (v <=? 1114111)
      then Some v else None
  | _ => None
  end.

(** The code units of a code point. *)
Definition utf16 (v : N) : jsstring :=
  if v <? 65536 then [v]
  else [55296 + (v - 65536) / 1024; 56320 + (v - 65536) mod 1024].

Definition percent : N := 37.

(** The loop of [Decode]: [need] octets of the sequence begun by [octets]
    are still to be read, each one as an escape.  [None] stands for the
    [URIError]. *)
Fixpoint decode (s : jsstring) (octets : list N) (need : nat) {struct s}
  : option jsstring :=
  match s with
  | [] => match need with O => Some [] | S _ => None end
  | c :: s1 =>
      if c =? percent then
        match s1 with
        | h :: l :: rest =>
            match hex_octet h l with
            | None => None
            | Some b =>
                match need with
                | O =>
                    match leading_ones b with
                    | 0%nat => option_map (cons b) (decode rest [] 0)
                    | 2%nat => decode rest [b] 1
                    | 3%nat => decode rest [b] 2
                    | 4%nat => decode rest [b] 3
                    | _ => None
                    end
                | 1%nat =>
                    match utf8_code_point (octets ++ [b]) with
                    | Some v => option_map (app (utf16 v)) (decode rest [] 0)
                    | None => None
                    end
                | S need' => decode rest (octets ++ [b]) need'
                end
            end
        | _ => None
        end
      else
        match need with
        | O => option_map (cons c) (decode s1 [] 0)
        | S _ => None
        end
  end.

Definition decodeURIComponent (s : jsstring) : option jsstring := decode s [] 0.

(** *** The handler of [ReadResourceRequestSchema] *)

Inductive read_error : Type :=
  | InvalidUri (uri : jsstring)     (* McpError(InvalidRequest,
                                       `Invalid resource URI format: ${uri}`) *)
  | URIError                        (* thrown by decodeURIComponent *)
  | PreviewFailed (e : error).      (* McpError(InvalidRequest, message of e) *)

Record contents : Type := Contents {
  c_uri : jsstring;
  c_mimeType : string;
  c_text : jsstring
}.

Definition readResource (sc : Script) (uri : jsstring) (w : World)
  : (read_error + contents) * World :=
  match match_uri uri with
  | None => (inl (InvalidUri uri), w)
  | Some group =>
      match decodeURIComponent group with
      | None => (inl URIError, w)
      | Some filePath =>
          match Wrapper.previewFile sc (VStr filePath) VUndefined VUndefined w with
          | (Ok r, w') => (inr (Contents uri "text/html" (snd r)), w')
          | (Throw e, w') => (inl (PreviewFailed e), w')
          end
      end
  end.

End Resource.

(** ** The end of the process

    The handlers of [SIGINT], lines 210-216 of [src/index.ts] and lines
    262-267 and 434-438 of the README, and the listener of [SIGINT] that
    [puppeteer.launch()] adds for the engine that it starts. *)

Inductive exit_step : Type :=
  | BrowserClose (h : nat)      (* browser.close() *)
  | ServerClose                 (* server.close() *)
  | Exit (code : Z).            (* process.exit(code) *)

(** The world, and the calls that the listeners of the signal have made,
    oldest first. *)
Record Process : Type := mkProcess {
  world : World;
  steps : list exit_step
}.

Definition stepped (s : exit_step) (p : Process) : Process :=
  mkProcess (world p) (steps p ++ [s]).

(** [browser.close()] ends the engine process and, with it, its pages. *)
Definition closeBrowser (h : nat) (w : World) : World :=
  mkWorld (fs w) (cwd w) (browser w) (filter (fun e => e <> h) (engines w)) []
          (fresh w) (trace w).

(** [this.browser = null] *)
Definition forget (w : World) : World :=
  mkWorld (fs w) (cwd w) None (engines w) (pages w) (fresh w) (trace w).

(** The rest of both handlers: [await server.close(); process.exit(0)];
    a [close] that rejects ends the handler. *)
Definition closeServer (server_ok : bool) (p : Process) : Process :=
  let p1 := stepped ServerClose p in
  if server_ok then stepped (Exit 0) p1 else p1.

(** The listener that [puppeteer.launch()] adds to the process for the
    engine that it starts (option [handleSIGINT], which is on when it is
    not given, as here), and that is there while that engine is alive: it
    ends the engine and calls [process.exit(130)]; at the exit the engines
    that are left are ended as well. *)
Definition engineSigint (p : Process) : Process :=
  let w := world p in
  stepped (Exit 130)
    (mkProcess (mkWorld (fs w) (cwd w) (browser w) [] [] (fresh w) (trace w))
               (steps p)).

(** The signal: the listeners run in the order in which they were added,
    each one up to its first [await].  The handler of the program was added
    first ([first] is what it does up to its first [await], [rest] what it
    does when it is resumed); the listeners of the engines that are alive
    come next, and the first of them exits the process, so that the
    handler is not resumed. *)
Definition signalled (first rest : Process -> Process) (p : Process) : Process :=
  match engines (world p) with
  | [] => rest (first p)
  | _ :: _ => engineSigint (first p)
  end.


(** [FilePreviewWrapper.cleanup]: whether it returned, and the process
    after it. *)
Definition cleanup (browser_ok : bool) (p : Process) : bool * Process :=
  match browser (world p) with
  | Some h =>
      let p1 := stepped (BrowserClose h) p in
      if browser_ok
      then (true, mkProcess (forget (closeBrowser h (world p1))) (steps p1))
      else (false, p1)
  | None => (true, p)
  end.

(** The handler of the README: it is suspended at
    [await filePreview.cleanup()], within which [browser.close()] has been
    called when a handle is held. *)
Definition wrapperSigint (browser_ok server_ok : bool) (p : Process) : Process :=
  match browser (world p) with
  | Some h =>
      signalled (stepped (BrowserClose h))
        (fun p1 =>
           if browser_ok
           then closeServer server_ok
                  (mkProcess (forget (closeBrowser h (world p1))) (steps p1))
           else p1)
        p
  | None => signalled (fun p0 => p0) (closeServer server_ok) p
  end.

(** ** The server of the README over a run of requests *)

(** A request to the server of the README, with the answers that the
    engine gives while it is handled. *)
Inductive readme_request : Type :=
  | ToolCall (sc : Script) (name : jsstring) (args : option arguments)
  | ResourceRead (sc : Script) (uri : jsstring).

(** The world after a request is handled. *)
Definition readme_serve (w : World) (r : readme_request) : World :=
  match r with
  | ToolCall sc name args => snd (Wrapper.callTool sc name args w)
  | ResourceRead sc uri => snd (Resource.readResource sc uri w)
  end.

Definition readme_serve_all (w : World) (rs : list readme_request) : World :=
  fold_left readme_serve rs w.

(** * Vocabulary of the further properties *)

(** What a handler that catches has made of the outcome of a call. *)
Definition caught (r : outcome tool_result * World) : outcome tool_result * World :=
  match r with
  | (Ok t, w) => (Ok t, w)
  | (Throw e, w) => (Ok (ErrorText e), w)
  end.

(** The handles of the open pages were given out before. *)
Definition handles_ok (w : World) : Prop :=
  Forall (fun q => (q < fresh w)%nat) (pages w).

(** In this call the engine accepts the viewport and closes the page. *)
Definition page_is_released (r : request) : Prop :=
  setViewport_ok (req_script r) = true /\ close_ok (req_script r) = true.

(** The calls of a successful [previewFile], in their order: [launched]
    tells whether the engine had to be launched, [created] whether the
    directory of the screenshots had to be created. *)
Definition preview_calls (base filePath : jsstring) (width height : jsval)
    (page : nat) (mainCss pageCss : jsstring) (t : N)
    (launched created : bool) : list event :=
  [EExistsSync (VStr filePath)]
  ++ (if launched then [ELaunch] else [])
  ++ [ENewPage;
      ESetViewport page width height;
      ESetBypassCSP page;
      ESetExtraHTTPHeaders page;
      EGoto page (js "file://" ++ filePath);
      EReadFileSync (mainCssPath filePath);
      EReadFileSync (pageCssPath filePath);
      EAddStyleTag page mainCss;
      EAddStyleTag page pageCss;
      EEvaluate page;
      EDelay 1000;
      EExistsSync (VStr (screenshotsDir base))]
  ++ (if created then [EMkdirSync (screenshotsDir base)] else [])
  ++ [EDateNow;
      EScreenshot page (screenshotPath base filePath t);
      EContent page;
      EClose page].



(** The absolute path through the names: [/n1/.../nk]. *)
Definition rooted (names : list jsstring) : jsstring :=
  concat (map (cons Path.slash) names).

(** [f'] holds every entry of [f], a directory as a directory and a file
    as a file, whose data may differ. *)
Definition grows (f f' : gmap fskey entry) : Prop :=
  (forall k, f !! k = Some Dir -> f' !! k = Some Dir)
  /\ (forall k d, f !! k = Some (File d) -> exists d', f' !! k = Some (File d')).

Definition is_mkdir (e : event) : bool :=
  match e with EMkdirSync _ => true | _ => false end.

(** The number of places of [s] at which [pre] stands. *)
Fixpoint occurrences (pre s : jsstring) : nat :=
  match s with
  | [] => 0
  | _ :: s' =>
      (if jseqb (take (length pre) s) pre then 1 else 0) + occurrences pre s'
  end.

(** The number that decimal digits print. *)
Definition digits_value (ds : jsstring) : N :=
  fold_left (fun a d => 10 * a + (d - 48)) ds 0.

(** ** Further samples *)

Module Later.

(** The sample site after a first preview. *)
Definition world : World :=
  serve Sample.world
    (Request Sample.good (js "preview_file")
       (Sample.args "/site/pages/about.html")).

End Later.

Module Failing.

(** The engine cannot be launched. *)
Definition no_engine : Script :=
  mkScript false true true true true Loaded true true true 1700000000000
           (Some (js "PNG")) (Some (js "<html></html>")) true.

(** Everything works but [page.close()]. *)
Definition bad_close : Script :=
  mkScript true true true true true Loaded true true true 1700000000000
           (Some (js "PNG")) (Some (js "<html></html>")) false.

End Failing.

(** * Properties *)

(** ** The model at work *)

Example analyze_sample :
  analyze (js "<h1>a</h1><p>x <a href='u'>l</a></p><img src='i.png'>")
  = Analysis 1 1 1 1.
Proof. vm_compute. reflexivity. Qed.

Example analyze_multiline :
  analyze (N_of_ascii "<" :: js "p>a" ++ [10] ++ js "b</p>") = Analysis 0 0 0 0.
Proof. vm_compute. reflexivity. Qed.

Example analyze_mixed_levels :
  analyze (js "<h1>a</h2>") = Analysis 1 0 0 0.
Proof. vm_compute. reflexivity. Qed.

Example dirname_ex1 : Path.dirname (js "/site/pages/about.html") = js "/site/pages".
Proof. vm_compute. reflexivity. Qed.
Example dirname_ex2 : Path.dirname (js "about.html") = js ".".
Proof. vm_compute. reflexivity. Qed.
Example dirname_ex3 : Path.dirname (js "/about.html") = js "/".
Proof. vm_compute. reflexivity. Qed.
Example dirname_ex4 : Path.dirname (js "/site/pages/") = js "/site".
Proof. vm_compute. reflexivity. Qed.
Example basename_ex1 : Path.basename (js "/site/pages/about.html") = js "about.html".
Proof. vm_compute. reflexivity. Qed.
Example basename_ex2 : Path.basename_ext (js "/site/pages/about.html") (js ".html") = js "about".
Proof. vm_compute. reflexivity. Qed.
Example basename_ex3 : Path.basename_ext (js "/site/.html") (js ".html") = js ".html".
Proof. vm_compute. reflexivity. Qed.
Example basename_ex4 : Path.basename_ext (js "/site/ml") (js ".html") = js "ml".
Proof. vm_compute. reflexivity. Qed.
Example basename_ex5 : Path.basename_ext (js "/site/ml/") (js ".html") = js "ml/".
Proof. vm_compute. reflexivity. Qed.
Example basename_ex6 : Path.basename_ext (js "/site/pages.html/") (js ".html") = js "pages".
Proof. vm_compute. reflexivity. Qed.
Example join_ex1 : Path.join [js "/site/pages"; js ".."; js "style.css"] = js "/site/style.css".
Proof. vm_compute. reflexivity. Qed.
Example join_ex2 : Path.join [js "."; js ".."; js "style.css"] = js "../style.css".
Proof. vm_compute. reflexivity. Qed.
Example join_ex3 : Path.join [js "/"; js ".."; js "style.css"] = js "/style.css".
Proof. vm_compute. reflexivity. Qed.
Example join_ex4 : Path.join [js "a/b/"; js "../../../c/"] = js "../c/".
Proof. vm_compute. reflexivity. Qed.
Example replace_ex1 : Path.replace (js ".html") (js ".css") (js "a.html.html") = js "a.css.html".
Proof. vm_compute. reflexivity. Qed.
Example replace_ex2 : Path.replace (js ".html") (js ".css") (js "readme.txt") = js "readme.txt".
Proof. vm_compute. reflexivity. Qed.

Example preview_sample :
  fst (Server.handlePreviewFile Sample.good (Sample.args "/site/pages/about.html") Sample.world)
  = Ok (Text (js "Screenshot saved to: /Users/seanivore/Documents/Cline/MCP/mcp-file-preview/screenshots/about_1700000000000.png"
              ++ [10; 10] ++ js "HTML Content:" ++ [10] ++ js "<html></html>")).
Proof. vm_compute. reflexivity. Qed.

Example analyze_sample_file :
  fst (Server.handleAnalyzeContent (Sample.args "/site/pages/about.html") Sample.world)
  = Ok (Text (stringify (Analysis 3 2 1 4))).
Proof. vm_compute. reflexivity. Qed.

Lemma lookup_None_stat f wd p :
  Fs.lookup f wd p = None -> exists e, Fs.stat f wd p = inl e.
Proof. unfold Fs.lookup. destruct (Fs.stat f wd p); [eauto | discriminate]. Qed.

Lemma lookup_Some_stat f wd p e :
  Fs.lookup f wd p = Some e -> Fs.stat f wd p = inr e.
Proof. unfold Fs.lookup. destruct (Fs.stat f wd p); congruence. Qed.

Lemma events_since_app w w' evs :
  trace w' = trace w ++ evs -> events_since w w' = evs.
Proof. unfold events_since. intros ->. apply drop_app_length. Qed.

(** ** The existence check *)

Lemma previewFile_absent base sc p width height w :
  entry_at w p = None ->
  previewFile base sc (VStr p) width height w
  = (Throw (file_not_found (VStr p)), logged (EExistsSync (VStr p)) w).
Proof.
  unfold entry_at. intros H. unfold previewFile. prims. run. cbn.
  rewrite H. reflexivity.
Qed.

Lemma analyzeContent_absent p w :
  entry_at w p = None ->
  analyzeContent (VStr p) w
  = (Throw (file_not_found (VStr p)), logged (EExistsSync (VStr p)) w).
Proof.
  unfold entry_at. intros H. unfold analyzeContent. prims. run. cbn.
  rewrite H. reflexivity.
Qed.

Lemma previewFile_not_a_path base sc v width height w :
  (forall p, v <> VStr p) ->
  previewFile base sc v width height w
  = (Throw (file_not_found v), logged (EExistsSync v) w).
Proof.
  intros H. unfold previewFile. prims. run. cbn.
  destruct v; try reflexivity. now destruct (H s).
Qed.

Lemma analyzeContent_not_a_path v w :
  (forall p, v <> VStr p) ->
  analyzeContent v w = (Throw (file_not_found v), logged (EExistsSync v) w).
Proof.
  intros H. unfold analyzeContent. prims. run. cbn.
  destruct v; try reflexivity. now destruct (H s).
Qed.

(** C2. For a path that references no file-system entry, [previewFile] and
    [analyzeContent] (of both implementations) throw the error
    [File not found], and the world they leave differs from the initial one
    by the record of the existence check only: nothing is written, no
    engine is launched and no page is created. *)
Theorem absent_path_fails_first (base : jsstring) (sc : Script)
    (a : arguments) (p : jsstring) (width height : jsval) (w : World) :
  prop a "filePath" = VStr p ->
  entry_at w p = None ->
  let failed := (Throw (file_not_found (VStr p)),
                 logged (EExistsSync (VStr p)) w) in
  previewFile base sc (VStr p) width height w = failed
  /\ analyzeContent (VStr p) w = (Throw (file_not_found (VStr p)), snd failed)
  /\ Server.handlePreviewFile sc (Some a) w
     = (Throw (file_not_found (VStr p)), snd failed)
  /\ Server.handleAnalyzeContent (Some a) w
     = (Throw (file_not_found (VStr p)), snd failed)
  /\ fs (snd failed) = fs w
  /\ pages (snd failed) = pages w
  /\ browser (snd failed) = browser w
  /\ events_since w (snd failed) = [EExistsSync (VStr p)].
Proof.
  intros Ha Hp. cbn.
  repeat split.
  - now apply previewFile_absent.
  - now apply analyzeContent_absent.
  - unfold Server.handlePreviewFile, Server.destructure. run.
    rewrite Ha, previewFile_absent by assumption. reflexivity.
  - unfold Server.handleAnalyzeContent, Server.destructure. run.
    rewrite Ha, analyzeContent_absent by assumption. reflexivity.
  - unfold events_since. cbn. apply drop_app_length.
Qed.

Lemma absent_path_fails_first_witness :
  let p := js "/site/pages/missing.html" in
  let a : arguments := {[ js "filePath" := VStr p ]} in
  (prop a "filePath" = VStr p /\ entry_at Sample.world p = None)
  /\ Server.handlePreviewFile Sample.good (Some a) Sample.world
     = (Throw (file_not_found (VStr p)),
        logged (EExistsSync (VStr p)) Sample.world).
Proof.
  intros p a.
  assert (Ha : prop a "filePath" = VStr p) by (vm_compute; reflexivity).
  assert (Hp : entry_at Sample.world p = None) by (vm_compute; reflexivity).
  split; [split; assumption|].
  exact (proj1 (proj2 (proj2 (absent_path_fails_first Server.base Sample.good
    a p VUndefined VUndefined Sample.world Ha Hp)))).
Defined.

(** ** A call without [filePath] *)

Lemma prop_missing (a : arguments) (k : string) :
  a !! js k = None -> prop a k = VUndefined.
Proof. unfold prop. now intros ->. Qed.

(** The handler of the README rejects the call before it touches anything:
    the world is unchanged. *)
Lemma wrapper_missing_filePath (sc : Script) (name : jsstring) (a : arguments)
    (w : World) :
  a !! js "filePath" = None ->
  name = js "preview_file" \/ name = js "analyze_content" ->
  Wrapper.callTool sc name (Some a) w
  = (Ok (ErrorText Wrapper.missing_argument), w).
Proof.
  intros Ha [-> | ->]; unfold Wrapper.callTool; run;
    rewrite (prop_missing a "filePath" Ha); reflexivity.
Qed.

(** C3. In [src/index.ts] a call whose mapping has no [filePath] is not
    rejected as a missing argument: both handlers pass [undefined] to
    [fs.existsSync] and throw the error of a file that is not found, with
    the message [File not found: undefined]; the handler of the README
    answers the same call with [Missing required argument: filePath]. *)
Theorem server_missing_filePath (sc : Script) (a : arguments) (w : World) :
  a !! js "filePath" = None ->
  Server.handlePreviewFile sc (Some a) w
  = (Throw (McpError InvalidRequest (js "File not found: undefined")),
     logged (EExistsSync VUndefined) w)
  /\ Server.handleAnalyzeContent (Some a) w
     = (Throw (McpError InvalidRequest (js "File not found: undefined")),
        logged (EExistsSync VUndefined) w)
  /\ Wrapper.callTool sc (js "preview_file") (Some a) w
     = (Ok (ErrorText (JsError (js "Missing required argument: filePath"))), w).
Proof.
  intros Ha. repeat split.
  - unfold Server.handlePreviewFile, Server.destructure. run.
    rewrite (prop_missing a "filePath" Ha).
    rewrite previewFile_not_a_path by discriminate. reflexivity.
  - unfold Server.handleAnalyzeContent, Server.destructure. run.
    rewrite (prop_missing a "filePath" Ha).
    rewrite analyzeContent_not_a_path by discriminate. reflexivity.
  - now apply wrapper_missing_filePath; [|left].
Qed.

Lemma server_missing_filePath_witness :
  (∅ : arguments) !! js "filePath" = None
  /\ Server.handlePreviewFile Sample.good (Some ∅) Sample.world
     = (Throw (McpError InvalidRequest (js "File not found: undefined")),
        logged (EExistsSync VUndefined) Sample.world).
Proof.
  assert (H : (∅ : arguments) !! js "filePath" = None) by reflexivity.
  split; [exact H|].
  exact (proj1 (server_missing_filePath Sample.good ∅ Sample.world H)).
Defined.

(** ** The analysis reads only *)

Lemma analyzeContent_run v w :
  let r := analyzeContent v w in
  fs (snd r) = fs w /\ cwd (snd r) = cwd w /\ browser (snd r) = browser w
  /\ engines (snd r) = engines w /\ pages (snd r) = pages w
  /\ fresh (snd r) = fresh w
  /\ exists evs, trace (snd r) = trace w ++ evs
                 /\ Forall (fun e => read_only e = true) evs.
Proof.
  unfold analyzeContent. prims. run. cbn.
  destruct v; cbn; repeat step; repeat split; trace_tail.
Qed.






(** ** A missing stylesheet *)

Lemma previewFile_no_style base sc p width height w e :
  entry_at w p = Some e ->
  is_file (entry_at w (mainCssPath p)) = false
  \/ is_file (entry_at w (pageCssPath p)) = false ->
  let r := previewFile base sc (VStr p) width height w in
  is_throw (fst r) = true
  /\ fs (snd r) = fs w
  /\ (exists evs, trace (snd r) = trace w ++ evs
                  /\ Forall (fun ev => writes ev = false) evs)
  /\ (reaches_styles sc w = true -> close_ok sc = true ->
      exists err, fst r = Throw err /\ style_resource_error p err).
Proof.
  unfold entry_at, reaches_styles, style_resource_error, Fs.lookup.
  intros H Hs. unfold previewFile. prims. run. cbn.
  unfold Fs.lookup. apply lookup_Some_stat in H. rewrite H. cbn.
  destruct (Fs.stat (fs w) (cwd w) (mainCssPath p)) as [e1|[d1|]] eqn:Hm;
    [| destruct Hs as [Hs|Hs]; [discriminate|];
       destruct (Fs.stat (fs w) (cwd w) (pageCssPath p)) as [e2|[d2|]] eqn:Hp;
       [|discriminate|] |];
    repeat step;
      (split; [reflexivity | split; [reflexivity | split; [trace_tail|]]]);
      rewrite ?andb_false_r; try discriminate; intros _ _; eauto.
Qed.




Example missing_style_sample :
  fst (previewFile Server.base Sample.good (VStr (js "/site/pages/bare.html"))
         (VNum 1024) (VNum 768) Sample.world)
  = Throw (FsError ENOENT (js "/site/pages/bare.css")).
Proof. vm_compute. reflexivity. Qed.


(** ** The page of a call *)

(** Once the viewport is set, the body of the call runs under
    [try ... finally]: whatever the later steps do, the last call is
    [page.close()] on the page of this call; when it works the page is no
    longer open, and the session handle is the one acquired. *)
Lemma previewFile_closes_page base sc p width height w e h :
  entry_at w p = Some e ->
  browser w = Some h ->
  newPage_ok sc = true ->
  setViewport_ok sc = true ->
  let r := previewFile base sc (VStr p) width height w in
  last (trace (snd r)) = Some (EClose (fresh w))
  /\ browser (snd r) = Some h
  /\ engines (snd r) = engines w
  /\ (close_ok sc = true ->
      pages (snd r) = filter (fun q => q <> fresh w) (pages w ++ [fresh w])).
Proof.
  unfold entry_at. intros H Hb Hn Hv.
  unfold previewFile. prims. run. cbn.
  rewrite H. cbn. rewrite Hb. cbn. rewrite Hn. cbn. rewrite Hv. cbn.
  repeat step.
  all: split; [apply last_snoc|].
  all: split; [assumption || reflexivity|].
  all: split; [reflexivity|].
  all: try (intros; discriminate).
  all: try reflexivity.
Qed.

(** C5. [page.setViewport] is called after the page is created and before
    the [try] block is entered: when it fails, [handlePreviewFile] throws
    with the page of the call still open in the session, and
    [page.close()] is not called. *)
Theorem viewport_failure_leaves_page_open (base : jsstring) (sc : Script)
    (p : jsstring) (width height : jsval) (w : World) (e : entry) (h : nat) :
  entry_at w p = Some e ->
  browser w = Some h ->
  newPage_ok sc = true ->
  setViewport_ok sc = false ->
  let r := previewFile base sc (VStr p) width height w in
  fst r = Throw (EngineError CSetViewport)
  /\ pages (snd r) = pages w ++ [fresh w]
  /\ events_since w (snd r)
     = [EExistsSync (VStr p); ENewPage; ESetViewport (fresh w) width height]
  /\ browser (snd r) = Some h.
Proof.
  unfold entry_at. intros H Hb Hn Hv.
  unfold previewFile. prims. run. cbn.
  rewrite H. cbn. rewrite Hb. cbn. rewrite Hn. cbn. rewrite Hv. cbn.
  repeat split; try assumption.
  apply events_since_app. cbn. now rewrite <- !app_assoc.
Qed.

Lemma viewport_failure_leaves_page_open_witness :
  let p := js "/site/pages/about.html" in
  (entry_at Running.world p = Some (File Sample.html)
   /\ browser Running.world = Some 0%nat
   /\ newPage_ok Running.bad_viewport = true
   /\ setViewport_ok Running.bad_viewport = false)
  /\ pages (snd (previewFile Server.base Running.bad_viewport (VStr p)
                   (VNum (-1)) (VNum 768) Running.world)) = [1%nat].
Proof.
  intros p.
  assert (H1 : entry_at Running.world p = Some (File Sample.html))
    by (vm_compute; reflexivity).
  assert (H2 : browser Running.world = Some 0%nat) by reflexivity.
  assert (H3 : newPage_ok Running.bad_viewport = true) by reflexivity.
  assert (H4 : setViewport_ok Running.bad_viewport = false) by reflexivity.
  split; [repeat split; assumption|].
  exact (proj1 (proj2 (viewport_failure_leaves_page_open Server.base
    Running.bad_viewport p (VNum (-1)) (VNum 768) Running.world _ _
    H1 H2 H3 H4))).
Defined.

(** ** A directory as input *)

Lemma previewFile_no_McpError base sc p width height w e :
  entry_at w p = Some e ->
  let r := previewFile base sc (VStr p) width height w in
  (forall code msg, fst r <> Throw (McpError code msg))
  /\ exists ev evs, events_since w (snd r) = EExistsSync (VStr p) :: ev :: evs.
Proof.
  unfold entry_at. intros H.
  unfold previewFile. prims. run. cbn.
  rewrite H. cbn.
  repeat step.
  all: split; [intros code msg; cbn; discriminate|].
  all: eexists; eexists; apply events_since_app; cbn;
       rewrite <- ?app_assoc; cbn; reflexivity.
Qed.

Lemma analyzeContent_directory p w :
  entry_at w p = Some Dir ->
  analyzeContent (VStr p) w
  = (Throw (FsError EISDIR p),
     logged (EReadFileSync p) (logged (EExistsSync (VStr p)) w)).
Proof.
  unfold entry_at. intros H. unfold analyzeContent. prims. run. cbn.
  rewrite H. cbn. apply lookup_Some_stat in H. rewrite H. reflexivity.
Qed.

(** C9, the claim refuted: on the directory [/site/gallery.html], with the
    files [/style.css] and [/site/gallery.css] present, [previewFile] does
    not fail. *)
Lemma directory_preview_can_succeed :
  entry_at Gallery.world Gallery.path = Some Dir
  /\ is_throw (fst (previewFile Server.base Sample.good (VStr Gallery.path)
                      (VNum 1024) (VNum 768) Gallery.world)) = false.
Proof. split; vm_compute; reflexivity. Qed.

(** C9, amended. For a path that references an existing directory the
    branch of the missing file is not taken: [analyzeContent] fails at the
    read of the file, with the error [EISDIR]; [previewFile] goes on past
    the check to the session, never throws the error of a missing file, and
    fails whenever one of the two derived stylesheet paths does not hold a
    file. *)
Theorem directory_passes_existence_check (base : jsstring) (sc : Script)
    (p : jsstring) (width height : jsval) (w : World) :
  entry_at w p = Some Dir ->
  analyzeContent (VStr p) w
  = (Throw (FsError EISDIR p),
     logged (EReadFileSync p) (logged (EExistsSync (VStr p)) w))
  /\ let r := previewFile base sc (VStr p) width height w in
     (forall code msg, fst r <> Throw (McpError code msg))
     /\ (exists ev evs,
           events_since w (snd r) = EExistsSync (VStr p) :: ev :: evs)
     /\ (is_file (entry_at w (mainCssPath p))
         && is_file (entry_at w (pageCssPath p)) = false ->
         is_throw (fst r) = true).
Proof.
  intros H. split; [now apply analyzeContent_directory|].
  cbv zeta.
  destruct (previewFile_no_McpError base sc p width height w Dir H) as [H1 H2].
  repeat split; try assumption.
  intros Hs. apply andb_false_iff in Hs.
  now destruct (previewFile_no_style base sc p width height w Dir H Hs).
Qed.

Lemma directory_passes_existence_check_witness :
  let p := js "/site/pages" in
  entry_at Sample.world p = Some Dir
  /\ analyzeContent (VStr p) Sample.world
     = (Throw (FsError EISDIR p),
        logged (EReadFileSync p) (logged (EExistsSync (VStr p)) Sample.world)).
Proof.
  intros p.
  assert (H : entry_at Sample.world p = Some Dir) by (vm_compute; reflexivity).
  split; [exact H|].
  exact (proj1 (directory_passes_existence_check Server.base Sample.good p
    (VNum 1024) (VNum 768) Sample.world H)).
Defined.

(** For a directory whose name holds no [.html], the per-page stylesheet
    path is the directory itself, and the call fails at the second read. *)
Example directory_preview_sample :
  pageCssPath (js "/site/pages") = js "/site/pages"
  /\ fst (previewFile Server.base Sample.good (VStr (js "/site/pages"))
            (VNum 1024) (VNum 768)
            (mkWorld (<[ [js "style.css"] := File [] ]> Sample.files) [] None
                     [] [] 0 []))
     = Throw (FsError EISDIR (js "/site/pages")).
Proof. split; vm_compute; reflexivity. Qed.

(** ** The session over a run of calls *)

Lemma no_launch_refl w : no_launch w w.
Proof. exists []. split; [now rewrite app_nil_r | constructor]. Qed.

Lemma no_launch_trans w1 w2 w3 :
  no_launch w1 w2 -> no_launch w2 w3 -> no_launch w1 w3.
Proof.
  intros (e1 & H1 & F1) (e2 & H2 & F2). exists (e1 ++ e2). split.
  - now rewrite H2, H1, app_assoc.
  - now apply Forall_app.
Qed.

Lemma initBrowser_first sc w :
  browser w = None -> launch_ok sc = true ->
  initBrowser sc w
  = (Ok (fresh w),
     mkWorld (fs w) (cwd w) (Some (fresh w)) (fresh w :: engines w) (pages w)
             (S (fresh w)) (trace w ++ [ELaunch])).
Proof.
  intros Hb Hl. unfold initBrowser. prims. run. cbn.
  rewrite Hb. cbn. rewrite Hl. reflexivity.
Qed.

Lemma initBrowser_again sc w h :
  browser w = Some h -> initBrowser sc w = (Ok h, w).
Proof.
  intros Hb. unfold initBrowser. prims. run. cbn. now rewrite Hb.
Qed.

Lemma initBrowser_failed sc w :
  browser w = None -> launch_ok sc = false ->
  initBrowser sc w = (Throw (EngineError CLaunch), logged ELaunch w).
Proof.
  intros Hb Hl. unfold initBrowser. prims. run. cbn.
  rewrite Hb. cbn. rewrite Hl. reflexivity.
Qed.

Lemma previewFile_session_ok base sc v width height w :
  session_ok w -> session_ok (snd (previewFile base sc v width height w)).
Proof.
  unfold session_ok. intros H.
  unfold previewFile. prims. run.
  destruct v; cbn; try assumption.
  destruct (browser w) eqn:Hb; repeat step; cbn; rewrite ?Hb, ?H;
    reflexivity.
Qed.

Lemma previewFile_keeps_handle base sc v width height w h :
  browser w = Some h ->
  let w' := snd (previewFile base sc v width height w) in
  browser w' = Some h /\ engines w' = engines w /\ no_launch w w'.
Proof.
  unfold no_launch. intros Hb.
  unfold previewFile. prims. run.
  destruct v; cbn; try (split; [assumption | split; [reflexivity | trace_tail]]).
  repeat step; try discriminate.
  all: split; [assumption | split; [reflexivity | trace_tail]].
Qed.

Lemma analyzeContent_keeps_session v w :
  let w' := snd (analyzeContent v w) in
  browser w' = browser w /\ engines w' = engines w /\ no_launch w w'.
Proof.
  destruct (analyzeContent_run v w) as (_ & _ & Hb & He & _ & _ & evs & Ht & Hf).
  cbv zeta. split; [assumption|]. split; [assumption|].
  exists evs. split; [assumption|].
  eapply Forall_impl; [exact Hf|]. intros [] ; cbn; congruence.
Qed.

Lemma callTool_snd sc name args w :
  snd (Server.callTool sc name args w)
  = if jseqb name (js "preview_file") then
      match args with
      | None => w
      | Some a =>
          snd (previewFile Server.base sc (prop a "filePath")
                 (prop_default a "width" (VNum 1024))
                 (prop_default a "height" (VNum 768)) w)
      end
    else if jseqb name (js "analyze_content") then
      match args with
      | None => w
      | Some a => snd (analyzeContent (prop a "filePath") w)
      end
    else w.
Proof.
  unfold Server.callTool, Server.handlePreviewFile,
    Server.handleAnalyzeContent, Server.destructure. run.
  destruct (jseqb name (js "preview_file")).
  - destruct args; [|reflexivity].
    now destruct (previewFile _ _ _ _ _ w) as [[r|e] w'].
  - destruct (jseqb name (js "analyze_content")); [|reflexivity].
    destruct args; [|reflexivity].
    now destruct (analyzeContent _ w) as [[r|e] w'].
Qed.

Lemma serve_session_ok w r : session_ok w -> session_ok (serve w r).
Proof.
  intros H. unfold serve. rewrite callTool_snd.
  destruct (jseqb _ _); [destruct (req_args r); [|assumption];
                         now apply previewFile_session_ok|].
  destruct (jseqb _ _); [|assumption].
  destruct (req_args r) as [a|]; [|assumption].
  destruct (analyzeContent_keeps_session (prop a "filePath") w) as (Hb & He & _).
  unfold session_ok in *. now rewrite Hb, He.
Qed.

Lemma serve_keeps_handle w r h :
  browser w = Some h ->
  browser (serve w r) = Some h /\ engines (serve w r) = engines w
  /\ no_launch w (serve w r).
Proof.
  intros H. unfold serve. rewrite callTool_snd.
  destruct (jseqb _ _).
  { destruct (req_args r);
      [now apply previewFile_keeps_handle
      | split; [assumption | split; [reflexivity | apply no_launch_refl]]]. }
  destruct (jseqb _ _);
    [| split; [assumption | split; [reflexivity | apply no_launch_refl]]].
  destruct (req_args r) as [a|];
    [| split; [assumption | split; [reflexivity | apply no_launch_refl]]].
  destruct (analyzeContent_keeps_session (prop a "filePath") w) as (Hb & He & Hn).
  split; [now rewrite Hb | split; assumption].
Qed.

Lemma serve_all_session_ok rs : forall w,
  session_ok w -> session_ok (serve_all w rs).
Proof.
  unfold serve_all. induction rs as [|r rs IH]; intros w H; cbn; [assumption|].
  apply IH. now apply serve_session_ok.
Qed.

Lemma serve_all_keeps_handle rs : forall w h,
  browser w = Some h ->
  browser (serve_all w rs) = Some h /\ engines (serve_all w rs) = engines w
  /\ no_launch w (serve_all w rs).
Proof.
  unfold serve_all. induction rs as [|r rs IH]; intros w h H; cbn.
  - split; [assumption | split; [reflexivity | apply no_launch_refl]].
  - destruct (serve_keeps_handle w r h H) as (Hb & He & Hn).
    destruct (IH (serve w r) h Hb) as (Hb' & He' & Hn').
    split; [assumption|]. split; [congruence|].
    eapply no_launch_trans; eassumption.
Qed.

(** X29. For calls handled one after the other: while no engine is held,
    [initBrowser] launches one and stores its handle; once a handle is
    held, [initBrowser] returns it and changes nothing; over any run of
    tool calls, whatever the engine answers and whether the calls fail or
    not, the engines alive are the one held (at most one), and a handle
    that is held stays the same, with no further launch. *)
Theorem session_is_a_singleton (sc : Script) (w : World) (rs : list request) :
  session_ok w ->
  (browser w = None -> launch_ok sc = true ->
   fst (initBrowser sc w) = Ok (fresh w)
   /\ browser (snd (initBrowser sc w)) = Some (fresh w)
   /\ engines (snd (initBrowser sc w)) = [fresh w])
  /\ (forall h, browser w = Some h -> initBrowser sc w = (Ok h, w))
  /\ session_ok (serve_all w rs)
  /\ (length (engines (serve_all w rs)) <= 1)%nat
  /\ (forall h, browser w = Some h ->
      browser (serve_all w rs) = Some h
      /\ engines (serve_all w rs) = [h]
      /\ Forall (fun e => is_launch e = false)
           (events_since w (serve_all w rs))).
Proof.
  intros Hs. split; [|split; [|split; [|split]]].
  - intros Hb Hl. rewrite initBrowser_first by assumption. cbn.
    unfold session_ok in Hs. rewrite Hb in Hs. now rewrite Hs.
  - intros h Hb. now apply initBrowser_again.
  - now apply serve_all_session_ok.
  - pose proof (serve_all_session_ok rs w Hs) as H. unfold session_ok in H.
    rewrite H. destruct (browser _); cbn; lia.
  - intros h Hb.
    destruct (serve_all_keeps_handle rs w h Hb) as (H1 & H2 & evs & H3 & H4).
    split; [assumption|]. split.
    + rewrite H2. unfold session_ok in Hs. now rewrite Hb in Hs.
    + now rewrite (events_since_app _ _ _ H3).
Qed.

Lemma session_is_a_singleton_witness :
  session_ok Sample.world
  /\ session_ok (serve_all Sample.world Run.calls)
  /\ (length (engines (serve_all Sample.world Run.calls)) <= 1)%nat.
Proof.
  assert (H : session_ok Sample.world) by reflexivity.
  split; [exact H|].
  pose proof (session_is_a_singleton Sample.good Sample.world Run.calls H) as T.
  exact (conj (proj1 (proj2 (proj2 T))) (proj1 (proj2 (proj2 (proj2 T))))).
Defined.

Example run_sample :
  browser (serve_all Sample.world Run.calls) = Some 0%nat
  /\ engines (serve_all Sample.world Run.calls) = [0%nat]
  /\ pages (serve_all Sample.world Run.calls) = []
  /\ filter (fun e => is_launch e = true)
       (trace (serve_all Sample.world Run.calls)) = [ELaunch].
Proof. vm_compute. repeat split. Qed.

(** ** Calls that overlap *)

Lemma alone_sync {A} (m : M A) w : Overlap.alone (Overlap.sync m) w = m w.
Proof. unfold Overlap.alone, Overlap.sync. now destruct (m w) as [r w']. Qed.

Lemma complete_and_then {A B} (f : A -> Co B) (a : Async A) : forall w,
  match Overlap.and_then a f w with (b, w1) => Overlap.complete b w1 end
  = match Overlap.complete a w with
    | (Ok x, w1) => Overlap.alone (f x) w1
    | (Throw e, w1) => (Throw e, w1)
    end.
Proof.
  induction a as [[x|e]|k IH] using Overlap.Async_induction; intros w; cbn.
  - reflexivity.
  - reflexivity.
  - specialize (IH w). destruct (k w) as [a' w2]. apply IH.
Qed.

Lemma alone_bind {A B} (c : Co A) (f : A -> Co B) (m : M A) (g : A -> M B) :
  (forall w, Overlap.alone c w = m w) ->
  (forall x w, Overlap.alone (f x) w = g x w) ->
  forall w, Overlap.alone (Overlap.bind c f) w = bind m g w.
Proof.
  intros Hc Hf w. unfold Overlap.alone at 1, Overlap.bind, bind.
  rewrite <- Hc. unfold Overlap.alone.
  destruct (c w) as [a w1]. rewrite complete_and_then.
  destruct (Overlap.complete a w1) as [[x|e] w2]; [apply Hf | reflexivity].
Qed.

Lemma complete_awaited {A} (a : Async A) : forall w,
  Overlap.complete (Overlap.awaited a) w = Overlap.complete a w.
Proof.
  induction a as [r|k IH] using Overlap.Async_induction; intros w; cbn; [reflexivity|].
  specialize (IH w). destruct (k w) as [a' w']. apply IH.
Qed.

Lemma alone_await_call {A} (c : Co A) (m : M A) :
  (forall w, Overlap.alone c w = m w) -> forall w, Overlap.alone (Overlap.await_call c) w = m w.
Proof.
  intros H w. rewrite <- H. unfold Overlap.alone, Overlap.await_call.
  destruct (c w) as [a w']. apply complete_awaited.
Qed.

Lemma alone_await {A} (m : M A) w : Overlap.alone (Overlap.await m) w = m w.
Proof. apply alone_await_call. intros w'. apply alone_sync. Qed.

Lemma complete_settle_as {A} (r : outcome A) (f : Async unit) : forall w,
  Overlap.complete (Overlap.settle_as r f) w
  = match Overlap.complete f w with
    | (Ok _, w1) => (r, w1)
    | (Throw e, w1) => (Throw e, w1)
    end.
Proof.
  induction f as [[u|e]|k IH] using Overlap.Async_induction; intros w; cbn;
    [reflexivity..|].
  specialize (IH w). destruct (k w) as [f' w']. apply IH.
Qed.

Lemma complete_finally {A} (fin : Co unit) (a : Async A) : forall w,
  match Overlap.finally a fin w with (b, w1) => Overlap.complete b w1 end
  = match Overlap.complete a w with
    | (r, w1) =>
        match Overlap.alone fin w1 with
        | (Ok _, w2) => (r, w2)
        | (Throw e, w2) => (Throw e, w2)
        end
    end.
Proof.
  induction a as [r|k IH] using Overlap.Async_induction; intros w; cbn.
  - unfold Overlap.alone. destruct (fin w) as [f w1]. apply complete_settle_as.
  - specialize (IH w). destruct (k w) as [a' w2]. apply IH.
Qed.

Lemma alone_try_finally {A} (body : Co A) (fin : Co unit) (m : M A)
    (n : M unit) :
  (forall w, Overlap.alone body w = m w) ->
  (forall w, Overlap.alone fin w = n w) ->
  forall w, Overlap.alone (Overlap.try_finally body fin) w = try_finally m n w.
Proof.
  intros Hb Hf w. unfold Overlap.alone at 1, Overlap.try_finally, try_finally.
  rewrite <- Hb. unfold Overlap.alone.
  destruct (body w) as [a w1]. rewrite complete_finally.
  destruct (Overlap.complete a w1) as [r w2]. now rewrite Hf.
Qed.

Lemma alone_ret {A} (a : A) w : Overlap.alone (mret a : Co A) w = ret a w.
Proof. reflexivity. Qed.

Lemma alone_initBrowser sc w :
  Overlap.alone (Overlap.initBrowser sc) w = initBrowser sc w.
Proof.
  unfold Overlap.initBrowser, initBrowser.
  apply alone_bind; [intros ?; apply alone_sync|]. intros [h|] w1.
  - apply alone_ret.
  - apply alone_bind; [intros ?; apply alone_await|]. intros h w2.
    apply alone_bind; [intros ?; apply alone_sync|]. intros _ w3.
    apply alone_ret.
Qed.

(** Handled alone, with no other call in between, a preview is the
    [previewFile] of the calls that follow one another. *)
Lemma alone_previewFile base sc filePath width height w :
  Overlap.alone (Overlap.previewFile base sc filePath width height) w
  = previewFile base sc filePath width height w.
Proof.
  unfold Overlap.previewFile, previewFile.
  apply alone_bind; [intros ?; apply alone_sync|]. intros found w1.
  destruct (negb found); [apply alone_sync|].
  apply alone_bind; [intros ?; apply alone_await_call; intros ?;
                     apply alone_initBrowser|].
  intros _ w2.
  repeat first [ apply alone_sync | apply alone_await | apply alone_ret
                 | apply alone_bind; [intros ? | intros ? ?]
                 | apply alone_try_finally; intros ? ].
  match goal with |- context [negb ?b] => destruct (negb b) end;
    repeat first [ apply alone_sync | apply alone_await | apply alone_ret
                 | apply alone_bind; [intros ? | intros ? ?]
                 | apply alone_try_finally; intros ? ].
Qed.

Lemma alone_callTool sc name args w :
  Overlap.alone (Overlap.callTool sc name args) w
  = Server.callTool sc name args w.
Proof.
  unfold Overlap.callTool, Server.callTool.
  destruct (jseqb name (js "preview_file")).
  { apply alone_await_call. intros w1.
    unfold Overlap.handlePreviewFile, Server.handlePreviewFile.
    apply alone_bind; [intros ?; apply alone_sync|]. intros a w2.
    apply alone_bind; [intros ?; apply alone_previewFile|]. intros r w3.
    apply alone_ret. }
  destruct (jseqb name (js "analyze_content")).
  { apply alone_await_call. intros w1. apply alone_sync. }
  apply alone_sync.
Qed.

(** A call under way that is resumed, again and again, settles. *)
Lemma resumed_to_the_end (a : Async tool_result) :
  forall (before after : list (Async tool_result)) (w : World),
  exists n,
    Overlap.run (before ++ a :: after, w)
      (repeat (Overlap.Resumes (length before)) n)
    = (before ++ Settled (fst (Overlap.complete a w)) :: after,
       snd (Overlap.complete a w)).
Proof.
  induction a as [r|k IH] using Overlap.Async_induction; intros before after w.
  - exists 0%nat. reflexivity.
  - specialize (IH w before after (snd (k w))).
    destruct IH as (n & Hn). exists (S n). cbn.
    rewrite list_lookup_middle by reflexivity.
    destruct (k w) as [a' w'] eqn:E. cbn in Hn |- *.
    replace (<[length before:=a']> (before ++ Pending k :: after))
      with (before ++ a' :: after).
    + exact Hn.
    + rewrite <- (Nat.add_0_r (length before)) at 1.
      now rewrite insert_app_r.
Qed.

Lemma arrivals_resumes i n :
  Overlap.arrivals (repeat (Overlap.Resumes i) n) = [].
Proof. induction n as [|n IH]; [reflexivity | exact IH]. Qed.

Lemma run_app s ts1 ts2 :
  Overlap.run s (ts1 ++ ts2) = Overlap.run (Overlap.run s ts1) ts2.
Proof. apply fold_left_app. Qed.

(** Calls that are handled one after the other are among the runs of the
    server: each request arrives when the calls before it have settled,
    and the world is the one of [serve_all]. *)
Lemma calls_in_turn (rs : list request) :
  forall (calls : list (Async tool_result)) (w : World),
  exists ts,
    Overlap.arrivals ts = rs
    /\ snd (Overlap.run (calls, w) ts) = serve_all w rs.
Proof.
  induction rs as [|r rs IH]; intros calls w.
  - exists []. split; reflexivity.
  - pose proof (alone_callTool (req_script r) (req_name r) (req_args r) w) as Ha.
    unfold Overlap.alone in Ha.
    destruct (Overlap.callTool (req_script r) (req_name r) (req_args r) w)
      as [a w1] eqn:E.
    destruct (resumed_to_the_end a calls [] w1) as (n & Hn).
    destruct (IH (calls ++ [Settled (fst (Overlap.complete a w1))])
                 (snd (Overlap.complete a w1))) as (ts & Hts & Hw).
    exists (Overlap.Arrives r :: repeat (Overlap.Resumes (length calls)) n ++ ts).
    split.
    + cbn. unfold Overlap.arrivals in *. rewrite omap_app.
      fold (Overlap.arrivals (repeat (Overlap.Resumes (length calls)) n)).
      rewrite arrivals_resumes. cbn. now rewrite Hts.
    + change (Overlap.run (calls, w) (Overlap.Arrives r :: ?x))
        with (Overlap.run (Overlap.step (calls, w) (Overlap.Arrives r)) x).
      cbn [Overlap.step fst snd]. rewrite E.
      rewrite run_app, Hn, Hw. cbn. unfold serve. now rewrite <- Ha.
Qed.

(** C7. Two requests for a preview that arrive before the engine is there
    both launch one: each call finds [this.browser] empty, and each is
    suspended at [await puppeteer.launch()] before it assigns the field.
    Two engines are alive from then on and the field holds the one
    launched last; both calls answer with a screenshot, and both engines
    are still alive when the two calls have settled, the one launched
    first held by nothing.  The same two requests one after the other
    launch one engine. *)
Theorem overlapping_calls_launch_two_engines :
  let s := Overlap.run ([], Sample.world)
             [ Overlap.Arrives Overlap.about; Overlap.Arrives Overlap.about;
               Overlap.Resumes 0; Overlap.Resumes 1 ] in
  let s' := Overlap.run s (repeat (Overlap.Resumes 0) 14
                           ++ repeat (Overlap.Resumes 1) 14) in
  session_ok Sample.world
  /\ filter (fun e => is_launch e = true) (trace (snd s)) = [ELaunch; ELaunch]
  /\ engines (snd s) = [1; 0]%nat
  /\ browser (snd s) = Some 1%nat
  /\ ~ session_ok (snd s)
  /\ (exists t1 t2,
        map Overlap.answer (fst s') = [Some (Ok (Text t1)); Some (Ok (Text t2))])
  /\ engines (snd s') = [1; 0]%nat
  /\ browser (snd s') = Some 1%nat
  /\ pages (snd s') = []
  /\ engines (serve_all Sample.world [Overlap.about; Overlap.about]) = [0%nat].
Proof.
  cbv zeta.
  split; [reflexivity|].
  split; [vm_compute; reflexivity|].
  split; [vm_compute; reflexivity|].
  split; [vm_compute; reflexivity|].
  split; [vm_compute; discriminate|].
  split; [do 2 eexists; vm_compute; reflexivity|].
  repeat split; vm_compute; reflexivity.
Qed.

(** ** What the patterns match *)

Lemma exec_star_cons a r c s :
  exec_here (Star a :: r) (c :: s)
  = if atom_ok a c then
      match exec_here (Star a :: r) s with
      | Some t => Some t
      | None => exec_here r (c :: s)
      end
    else exec_here r (c :: s).
Proof. reflexivity. Qed.

Lemma exec_lazy_unfold a r s :
  exec_here (StarLazy a :: r) s
  = match exec_here r s with
    | Some t => Some t
    | None =>
        match s with
        | c :: s' => if atom_ok a c then exec_here (StarLazy a :: r) s' else None
        | [] => None
        end
    end.
Proof. destruct s; reflexivity. Qed.

Lemma exec_ones l r s t :
  exec_here (map One l ++ r) s = Some t
  <-> exists o s', s = o ++ s' /\ accepts l o /\ exec_here r s' = Some t.
Proof.
  revert s. induction l as [|a l IH]; intros s; cbn.
  - split.
    + intros H. exists [], s. repeat split; [constructor | assumption].
    + intros (o & s' & -> & Ho & H). inversion Ho; subst. assumption.
  - destruct s as [|c s].
    + split; [discriminate|].
      intros (o & s' & Hs & Ho & _). inversion Ho; subst. discriminate.
    + destruct (atom_ok a c) eqn:Hc.
      * rewrite IH. split.
        -- intros (o & s' & -> & Ho & H). exists (c :: o), s'.
           repeat split; [constructor; assumption | assumption].
        -- intros (o & s' & Hs & Ho & H). inversion Ho; subst.
           injection Hs as -> ->. eauto.
      * split; [discriminate|].
        intros (o & s' & Hs & Ho & _). inversion Ho; subst.
        injection Hs as -> ->. congruence.
Qed.

Lemma exec_ones_end l s t :
  exec_here (map One l) s = Some t <-> exists o, s = o ++ t /\ accepts l o.
Proof.
  rewrite <- (app_nil_r (map One l)), exec_ones. cbn. split.
  - intros (o & s' & -> & Ho & [= ->]). eauto.
  - intros (o & -> & Ho). eauto.
Qed.

Lemma exec_ones_none l s :
  exec_here (map One l) s = None <-> ~ begins l s.
Proof.
  split.
  - intros H (o & t & Hs & Ho).
    assert (exec_here (map One l) s = Some t) by (apply exec_ones_end; eauto).
    congruence.
  - intros H. destruct (exec_here (map One l) s) as [t|] eqn:E; [|reflexivity].
    apply exec_ones_end in E as (o & -> & Ho). destruct H. now exists o, t.
Qed.

(** The greedy run of [[^g]*] before a [g] ends at the first [g]. *)
Lemma exec_until g r s t :
  exec_here (Star (NotLit g) :: One (Lit g) :: r) s = Some t
  <-> exists attrs s', s = attrs ++ g :: s'
                       /\ Forall (fun x => x <> g) attrs
                       /\ exec_here r s' = Some t.
Proof.
  revert t. induction s as [|c s IH]; intros t.
  - cbn. split; [discriminate|].
    intros (attrs & s' & Hs & _). now destruct attrs.
  - rewrite exec_star_cons. cbn [atom_ok].
    destruct (N.eqb_spec c g) as [->|Hne]; cbn [negb].
    + cbn. rewrite N.eqb_refl. split.
      * intros H. exists [], s. repeat split; [constructor | assumption].
      * intros (attrs & s' & Hs & Ha & H). destruct attrs as [|x attrs].
        -- now injection Hs as ->.
        -- injection Hs as <- _. inversion Ha; subst. congruence.
    + assert (Hfall : exec_here (One (Lit g) :: r) (c :: s) = None).
      { cbn. now destruct (N.eqb_spec c g). }
      rewrite Hfall.
      case_eq (exec_here (Star (NotLit g) :: One (Lit g) :: r) s);
        [intros t' E | intros E].
      * split.
        -- intros [= ->]. apply IH in E as (attrs & s' & -> & Ha & H).
           exists (c :: attrs), s'. repeat split; [constructor|]; assumption.
        -- intros (attrs & s' & Hs & Ha & H). destruct attrs as [|x attrs].
           ++ injection Hs as -> _. congruence.
           ++ injection Hs as <- ->. inversion Ha; subst.
              assert (Some t' = Some t) as [= ->]
                by (rewrite <- E; apply IH; eauto).
              reflexivity.
      * split; [discriminate|].
        intros (attrs & s' & Hs & Ha & H). destruct attrs as [|x attrs].
        -- injection Hs as -> _. congruence.
        -- injection Hs as <- ->. inversion Ha; subst.
           assert (None = Some t) by (rewrite <- E; apply IH; eauto).
           discriminate.
Qed.

(** The lazy run of [.*?] is the shortest after which the rest of the
    pattern matches. *)
Lemma exec_shortest r s t :
  exec_here (StarLazy Dot :: r) s = Some t
  <-> exists body s', s = body ++ s'
        /\ Forall (fun x => line_terminator x = false) body
        /\ exec_here r s' = Some t
        /\ forall i, (i < length body)%nat -> exec_here r (drop i s) = None.
Proof.
  revert t. induction s as [|c s IH]; intros t; rewrite exec_lazy_unfold.
  - destruct (exec_here r []) as [t'|] eqn:E.
    + split.
      * intros [= ->]. exists [], []. repeat split; [constructor | assumption|].
        cbn. lia.
      * intros (body & s' & Hs & _ & H & _).
        apply eq_sym, app_eq_nil in Hs as [-> ->]. congruence.
    + split; [discriminate|].
      intros (body & s' & Hs & _ & H & _).
      apply eq_sym, app_eq_nil in Hs as [-> ->]. congruence.
  - destruct (exec_here r (c :: s)) as [t'|] eqn:E.
    + split.
      * intros [= ->]. exists [], (c :: s).
        repeat split; [constructor | assumption|]. cbn. lia.
      * intros (body & s' & Hs & _ & H & Hmin). destruct body as [|x body].
        -- cbn in Hs. subst s'. congruence.
        -- specialize (Hmin 0%nat). cbn in Hmin. rewrite Hmin in E by lia.
           discriminate.
    + cbn [atom_ok]. destruct (line_terminator c) eqn:Hc; cbn [negb].
      * split; [discriminate|].
        intros (body & s' & Hs & Hb & H & _). destruct body as [|x body].
        -- cbn in Hs. subst s'. congruence.
        -- injection Hs as <- _. inversion Hb; subst. congruence.
      * rewrite IH. split.
        -- intros (body & s' & -> & Hb & H & Hmin).
           exists (c :: body), s'. repeat split; [constructor| |]; try assumption.
           intros [|i] Hi; cbn; [assumption|]. apply Hmin. cbn in Hi. lia.
        -- intros (body & s' & Hs & Hb & H & Hmin). destruct body as [|x body].
           ++ cbn in Hs. subst s'. congruence.
           ++ injection Hs as <- ->. inversion Hb; subst.
              exists body, s'. repeat split; try assumption.
              intros i Hi. apply (Hmin (S i)). cbn. lia.
Qed.

Lemma exec_element open close s rest :
  exec_here (element_re open close) s = Some rest
  <-> element_match open close s rest.
Proof.
  unfold element_re, element_match. rewrite exec_ones. split.
  - intros (o & s1 & -> & Ho & H).
    apply exec_until in H as (attrs & s2 & -> & Ha & H).
    apply exec_shortest in H as (body & s3 & -> & Hb & H & Hmin).
    apply exec_ones_end in H as (c & -> & Hc).
    exists o, attrs, body, c. repeat split; try assumption.
    intros i Hi. apply exec_ones_none. now apply Hmin.
  - intros (o & attrs & body & c & -> & Ho & Ha & Hb & Hc & Hmin).
    exists o, (attrs ++ gt :: body ++ c ++ rest). repeat split; [assumption|].
    apply exec_until. exists attrs, (body ++ c ++ rest).
    repeat split; [assumption|].
    apply exec_shortest. exists body, (c ++ rest). repeat split; [assumption| |].
    + apply exec_ones_end. eauto.
    + intros i Hi. apply exec_ones_none. now apply Hmin.
Qed.

Lemma exec_image s rest :
  exec_here re_image s = Some rest
  <-> exists attrs, s = js "<img" ++ attrs ++ gt :: rest
                    /\ Forall (fun x => x <> gt) attrs.
Proof.
  change re_image with (map One image_open ++ [Star (NotLit gt); One (Lit gt)]).
  rewrite exec_ones. split.
  - intros (o & s1 & -> & Ho & H).
    apply exec_until in H as (attrs & s2 & -> & Ha & [= ->]).
    exists attrs. split; [|assumption]. f_equal.
    unfold accepts, image_open in Ho.
    repeat match goal with
           | H : Forall2 _ _ _ |- _ => inversion H; clear H; subst
           end.
    cbn in *.
    repeat match goal with
           | H : (_ =? _) = true |- _ => apply N.eqb_eq in H; subst
           end.
    reflexivity.
  - intros (attrs & -> & Ha).
    exists (js "<img"), (attrs ++ gt :: rest). repeat split.
    + repeat constructor.
    + apply exec_until. exists attrs, rest. now repeat split.
Qed.

(** A match is a prefix of the input. *)
Lemma exec_suffix r : forall s t,
  exec_here r s = Some t -> exists x, s = x ++ t.
Proof.
  induction r as [|[a|a|a] r IH]; intros s t.
  - intros [= ->]. now exists [].
  - destruct s as [|c s]; cbn; [discriminate|].
    destruct (atom_ok a c); [|discriminate].
    intros H. apply IH in H as [x ->]. now exists (c :: x).
  - revert t. induction s as [|c s IHs]; intros t.
    + cbn. apply IH.
    + rewrite exec_star_cons. destruct (atom_ok a c); [|apply IH].
      case_eq (exec_here (Star a :: r) s); [intros t' E [= ->] | intros _; apply IH].
      apply IHs in E as [x ->]. now exists (c :: x).
  - revert t. induction s as [|c s IHs]; intros t; rewrite exec_lazy_unfold.
    + destruct (exec_here r []) eqn:E; [|discriminate].
      intros [= ->]. now apply IH.
    + destruct (exec_here r (c :: s)) eqn:E.
      * intros [= ->]. now apply IH.
      * destruct (atom_ok a c); [|discriminate].
        intros H. apply IHs in H as [x ->]. now exists (c :: x).
Qed.

(** A pattern that begins with an atom matches no empty string. *)
Lemma exec_nonempty a r s t :
  exec_here (One a :: r) s = Some t -> exists c x, s = c :: x ++ t.
Proof.
  destruct s as [|c s]; cbn; [discriminate|].
  destruct (atom_ok a c); [|discriminate].
  intros H. apply exec_suffix in H as [x ->]. eauto.
Qed.

(** ** The global search *)

Lemma match_g_skip m : forall s k,
  (k <= length s)%nat -> match_g m k s = match_g m 0 (drop k s).
Proof.
  induction s as [|c s IH]; intros [|k] Hk; cbn in *; try reflexivity; try lia.
  apply IH. lia.
Qed.

Lemma match_g_scan m :
  (forall s t, m s = Some t -> exists c x, s = c :: x ++ t) ->
  forall s, scan m s (match_g m 0 s).
Proof.
  intros Hm s.
  remember (length s) as n eqn:Hn. revert s Hn.
  induction n as [n IH] using lt_wf_ind. intros s Hn.
  destruct s as [|c s].
  - cbn. destruct (m []) eqn:E; [|constructor].
    apply Hm in E as (c & x & E). discriminate.
  - cbn [match_g]. destruct (m (c :: s)) as [rest|] eqn:E.
    + destruct (Hm _ _ E) as (c' & x & Hs). injection Hs as <- ->.
      replace (length (c :: x ++ rest) - length rest)%nat with (S (length x))
        by (cbn; rewrite length_app; lia).
      cbn [take Nat.pred]. rewrite take_app_length.
      rewrite match_g_skip by (rewrite length_app; lia).
      rewrite drop_app_length.
      apply scan_hit; [assumption|].
      apply (IH (length rest)); [|reflexivity].
      subst n. cbn. rewrite length_app. lia.
    + apply scan_skip; [assumption|].
      apply (IH (length s)); [|reflexivity]. subst n. cbn. lia.
Qed.

Lemma scan_functional m s ms1 ms2 :
  scan m s ms1 -> scan m s ms2 -> ms1 = ms2.
Proof.
  intros H1. revert ms2. induction H1 as [|c s ms Hn _ IH|c x rest ms Hy _ IH];
    intros ms2 H2.
  - now inversion H2.
  - inversion H2; subst; [now apply IH | congruence].
  - inversion H2; subst; [congruence|].
    match goal with
    | Heq : ?x' ++ ?rest' = x ++ rest, Hy' : m (c :: ?x' ++ ?rest') = Some ?rest'
      |- _ =>
        rewrite Heq in Hy'; rewrite Hy' in Hy; injection Hy as ->;
        apply app_inv_tail in Heq as ->
    end.
    f_equal. now apply IH.
Qed.

Lemma count_scan a r content :
  exists ms, scan (exec_here (One a :: r)) content ms
             /\ count (One a :: r) content = length ms.
Proof.
  exists (match_g (exec_here (One a :: r)) 0 content). split; [|reflexivity].
  apply match_g_scan. intros s t. apply exec_nonempty.
Qed.

(** C1, the claim refuted: the pattern of a heading accepts a close tag of
    another level than the open tag. *)
Lemma heading_levels_need_not_agree :
  headings (analyze (js "<h1>a</h2>")) <> claimed_headings (js "<h1>a</h2>").
Proof. vm_compute. discriminate. Qed.

(** C1, amended. The four numbers of [analyzeContent] are the numbers of
    matches that a scan from the left finds, one after the other without
    overlap, for the four patterns.  A heading match is an open tag whose
    name begins with [h1] to [h6], up to its first [>], then the shortest
    run of characters other than line terminators that a close tag [</h1>]
    to [</h6>] follows, of whatever level; a paragraph and an anchor match
    are the same with [<p], [</p>] and [<a], [</a>]; an image match is
    [<img], characters other than [>], and [>].  On the sample document,
    with three [h1], two [p], one [img] and four [a] elements, the numbers
    are 3, 2, 1 and 4. *)
Theorem analysis_counts_lexical_matches (content s rest : jsstring) :
  (exists hs ps imgs ls,
      scan (exec_here re_heading) content hs
      /\ scan (exec_here re_paragraph) content ps
      /\ scan (exec_here re_image) content imgs
      /\ scan (exec_here re_link) content ls
      /\ analyze content
         = Analysis (length hs) (length ps) (length imgs) (length ls))
  /\ (exec_here re_heading s = Some rest
      <-> element_match heading_open heading_close s rest)
  /\ (exec_here re_paragraph s = Some rest
      <-> element_match paragraph_open paragraph_close s rest)
  /\ (exec_here re_link s = Some rest
      <-> element_match link_open link_close s rest)
  /\ (exec_here re_image s = Some rest
      <-> exists attrs, s = js "<img" ++ attrs ++ gt :: rest
                        /\ Forall (fun x => x <> gt) attrs)
  /\ analyze Sample.html = Analysis 3 2 1 4.
Proof.
  split; [|split; [|split; [|split; [|split]]]].
  - destruct (count_scan (Lit 60) (tl re_heading) content) as (hs & Hh & Eh).
    destruct (count_scan (Lit 60) (tl re_paragraph) content) as (ps & Hp & Ep).
    destruct (count_scan (Lit 60) (tl re_image) content) as (imgs & Hi & Ei).
    destruct (count_scan (Lit 60) (tl re_link) content) as (ls & Hl & El).
    exists hs, ps, imgs, ls. repeat split; try assumption.
    unfold analyze. f_equal; assumption.
  - exact (exec_element heading_open heading_close s rest).
  - exact (exec_element paragraph_open paragraph_close s rest).
  - exact (exec_element link_open link_close s rest).
  - apply exec_image.
  - vm_compute. reflexivity.
Qed.

(** ** Paths *)

Lemma components_nonempty p : Path.components p <> [].
Proof.
  destruct p as [|c p]; cbn; [discriminate|].
  destruct (c =? Path.slash); [discriminate|].
  destruct (Path.components p); discriminate.
Qed.

Lemma components_app_slash a b :
  Path.components (a ++ Path.slash :: b)
  = Path.components a ++ Path.components b.
Proof.
  induction a as [|c a IH]; cbn.
  - reflexivity.
  - destruct (c =? Path.slash); [now rewrite IH|].
    rewrite IH. destruct (Path.components a) eqn:E; [|reflexivity].
    now destruct (components_nonempty a).
Qed.

Lemma components_no_slash n : Path.slash ∉ n -> Path.components n = [n].
Proof.
  induction n as [|c n IH]; intros H; cbn; [reflexivity|].
  destruct (N.eqb_spec c Path.slash) as [->|Hne].
  - destruct H. left.
  - rewrite IH; [reflexivity|]. intros Hin. apply H. now right.
Qed.

Lemma components_have_no_slash p :
  Forall (fun c => Path.slash ∉ c) (Path.components p).
Proof.
  induction p as [|c p IH]; cbn.
  - repeat constructor. apply not_elem_of_nil.
  - destruct (N.eqb_spec c Path.slash) as [->|Hne].
    + constructor; [apply not_elem_of_nil | assumption].
    + destruct (Path.components p) as [|x xs]; inversion IH; subst.
      * repeat constructor. intros H. apply list_elem_of_singleton in H. auto.
      * constructor; [|assumption].
        intros H. apply elem_of_cons in H as [H|H]; auto.
Qed.

Lemma ends_in_components s n :
  Path.slash ∉ n -> ends_in s n ->
  exists cs, Path.components s = cs ++ [n].
Proof.
  intros Hn [->|[a ->]].
  - exists []. now apply components_no_slash.
  - exists (Path.components a).
    now rewrite components_app_slash, (components_no_slash n).
Qed.

Lemma jseqb_false a b : a <> b -> jseqb a b = false.
Proof. intros H. unfold jseqb. now apply bool_decide_eq_false. Qed.

Lemma jseqb_true a b : a = b -> jseqb a b = true.
Proof. intros H. unfold jseqb. now apply bool_decide_eq_true. Qed.

Lemma norm_step_proper b stack c :
  proper_name c -> Path.norm_step b stack c = c :: stack.
Proof.
  intros (H1 & _ & H3 & H4). unfold Path.norm_step.
  now rewrite !jseqb_false.
Qed.

Lemma norm_segments_snoc b cs c :
  proper_name c ->
  Path.norm_segments b (cs ++ [c]) = Path.norm_segments b cs ++ [c].
Proof.
  intros H. unfold Path.norm_segments.
  rewrite fold_left_app. cbn. now rewrite norm_step_proper.
Qed.

Lemma render_snoc ys c : ends_in (Path.render (ys ++ [c])) c.
Proof.
  induction ys as [|y ys IH]; [now left|].
  right. cbn. destruct (ys ++ [c]) as [|z zs] eqn:E.
  - now destruct ys.
  - destruct IH as [->|[a ->]].
    + now exists y.
    + exists (y ++ Path.slash :: a). now rewrite <- app_assoc.
Qed.

Lemma ends_in_nonempty s c : c <> [] -> ends_in s c -> s <> [].
Proof. intros Hc [->|[a ->]]; [assumption | now destruct a]. Qed.

Lemma ends_in_last s c x : last c = Some x -> ends_in s c -> last s = Some x.
Proof.
  intros Hc [->|[a ->]]; [assumption|].
  rewrite last_app, last_cons, Hc. reflexivity.
Qed.

Lemma proper_last c : proper_name c -> exists x, last c = Some x /\ x <> Path.slash.
Proof.
  intros (H1 & H2 & _). destruct (last c) as [x|] eqn:E.
  - exists x. split; [reflexivity|]. intros ->.
    apply last_Some in E as [l ->]. apply H2, elem_of_app. right. left.
  - now apply last_None in E.
Qed.

Lemma ends_in_no_trailing_slash s c :
  proper_name c -> ends_in s c -> Path.trailing_slash s = false.
Proof.
  intros Hc Hs. destruct (proper_last c Hc) as (x & Hx & Hne).
  unfold Path.trailing_slash. rewrite (ends_in_last s c x Hx Hs).
  now apply N.eqb_neq.
Qed.

Lemma normalize_ends_in p c :
  proper_name c -> ends_in p c -> ends_in (Path.normalize p) c.
Proof.
  intros Hc Hp.
  pose proof (ends_in_nonempty p c (proj1 Hc) Hp) as Hne.
  destruct (ends_in_components p c (proj1 (proj2 Hc)) Hp) as [cs Hcs].
  unfold Path.normalize. destruct p as [|x p]; [contradiction|].
  rewrite Hcs, norm_segments_snoc by assumption.
  rewrite (ends_in_no_trailing_slash _ c Hc Hp).
  pose proof (render_snoc (Path.norm_segments (negb (Path.is_absolute (x :: p))) cs) c)
    as Hr.
  destruct (Path.render _) as [|y body] eqn:E.
  - now destruct (ends_in_nonempty _ c (proj1 Hc) Hr).
  - destruct (Path.is_absolute (x :: p)); [|assumption].
    right. destruct Hr as [->|[a ->]]; [now exists [] | now exists (Path.slash :: a)].
Qed.

Lemma join_ends_in segs c :
  proper_name c -> ends_in (Path.join (segs ++ [c])) c.
Proof.
  intros Hc. unfold Path.join. rewrite filter_app.
  replace (filter _ [c]) with [c]
    by (destruct c; [now destruct (proj1 Hc) | reflexivity]).
  pose proof (render_snoc (filter (fun c => Path.nonempty c = true) segs) c) as Hr.
  destruct (_ ++ [c]) eqn:E; [now destruct (filter _ segs)|].
  now apply normalize_ends_in.
Qed.

(** ** Names *)

Lemma basename_last p cs c :
  Path.components p = cs ++ [c] -> c <> [] -> Path.basename p = c.
Proof.
  intros E Hc. unfold Path.basename. rewrite E, filter_app.
  replace (filter _ [c]) with [c] by (destruct c; [contradiction | reflexivity]).
  now rewrite last_snoc.
Qed.

Lemma basename_no_slash p : Path.slash ∉ Path.basename p.
Proof.
  unfold Path.basename.
  destruct (last _) as [c|] eqn:E; cbn; [|apply not_elem_of_nil].
  apply last_Some in E as [l E].
  assert (Hin : c ∈ filter (fun c => Path.nonempty c = true) (Path.components p))
    by (rewrite E; apply elem_of_app; right; left).
  apply list_elem_of_filter in Hin as [_ Hin].
  pose proof (components_have_no_slash p) as H.
  rewrite Forall_forall in H. now apply H.
Qed.

(** [basename_ext] removes the suffix or nothing, unless the path ends
    with a separator and its last portion is shorter than the suffix. *)
Lemma basename_ext_cases p ext :
  ext <> [] -> (Path.slash ∉ ext) ->
  suffix_removed p ext
  \/ (Path.trailing_slash p = true
      /\ (length (Path.basename p) < length ext)%nat).
Proof.
  intros Hne Hsl. unfold suffix_removed, Path.basename_ext.
  destruct (Path.nonempty ext && _); [|now left; left].
  destruct (jseqb p ext) eqn:E.
  - apply bool_decide_eq_true in E as ->. left. right. cbn.
    apply (basename_last ext []); [|assumption].
    now apply components_no_slash.
  - destruct (Path.ends_with (Path.basename p) ext) eqn:E2.
    + left. destruct (jseqb (Path.basename p) ext); [now left|].
      right. unfold Path.ends_with in E2. apply andb_true_iff in E2 as [E2 _].
      apply bool_decide_eq_true in E2.
      rewrite <- E2 at 2. now rewrite take_drop.
    + destruct (Path.ends_with ext (Path.basename p)) eqn:E3; [|now left; left].
      destruct (Path.trailing_slash p) eqn:Et.
      * right. split; [reflexivity|].
        unfold Path.ends_with in E2, E3.
        apply andb_true_iff in E3 as [E3 E4].
        apply bool_decide_eq_true in E3. apply Nat.leb_le in E4.
        destruct (decide (length (Path.basename p) = length ext)) as [El|El];
          [|lia].
        rewrite El, Nat.sub_diag in E3. cbn in E3.
        rewrite <- E3, Nat.sub_diag, Nat.leb_refl, andb_true_r in E2.
        now apply bool_decide_eq_false in E2.
      * left. left. unfold Path.trailing_slashes, Path.trailing_slash in Et |- *.
        destruct p as [|c l _] using rev_ind; [apply app_nil_r|].
        rewrite last_snoc in Et. rewrite rev_unit. cbn.
        rewrite Et. apply app_nil_r.
Qed.

Lemma replace_length pat rep s :
  (length rep <= length pat)%nat ->
  (length (Path.replace pat rep s) <= length s)%nat.
Proof.
  intros H. induction s as [|c s IH]; cbn [Path.replace].
  - destruct (jseqb _ pat) eqn:E; [|cbn; lia].
    apply bool_decide_eq_true in E. rewrite length_app, length_drop.
    destruct pat; [cbn in *; lia | discriminate].
  - destruct (jseqb _ pat) eqn:E; [|cbn; lia].
    apply bool_decide_eq_true in E.
    rewrite length_app, length_drop.
    assert (length pat <= length (c :: s))%nat.
    { rewrite <- E, length_take. lia. }
    lia.
Qed.

(** Replacing [.html] by [.css] in a proper name gives a proper name. *)
Lemma replace_proper s :
  proper_name s -> proper_name (Path.replace (js ".html") (js ".css") s).
Proof.
  intros (H1 & H2 & H3 & H4).
  assert (Hgen : forall s, (Path.slash ∉ s) ->
            Path.replace (js ".html") (js ".css") s = s
            \/ exists a b, Path.replace (js ".html") (js ".css") s
                           = a ++ js ".css" ++ b
                           /\ (Path.slash ∉ a) /\ (Path.slash ∉ b)).
  { clear. induction s as [|c s IH]; intros Hs; cbn [Path.replace].
    - left. reflexivity.
    - destruct (jseqb _ _) eqn:E.
      + right. exists [], (drop (length (js ".html")) (c :: s)).
        split; [reflexivity|]. split; [apply not_elem_of_nil|].
        intros Hin. apply Hs.
        rewrite <- (take_drop (length (js ".html")) (c :: s)).
        apply elem_of_app. now right.
      + apply not_elem_of_cons in Hs as [Hc Hs].
        destruct (IH Hs) as [->|(a & b & -> & Ha & Hb)]; [now left|].
        right. exists (c :: a), b. split; [reflexivity|].
        split; [|assumption]. now apply not_elem_of_cons. }
  destruct (Hgen s H2) as [->|(a & b & -> & Ha & Hb)]; [now repeat split|].
  split; [|split; [|split]].
  - now destruct a.
  - intros Hin. apply elem_of_app in Hin as [Hin|Hin]; [auto|].
    apply elem_of_app in Hin as [Hin|Hin]; [|auto].
    vm_compute in Hin. repeat (apply elem_of_cons in Hin as [Hin|Hin];
      [discriminate|]). now apply elem_of_nil in Hin.
  - destruct a as [|x [|y a]]; cbn; discriminate.
  - destruct a as [|x [|y [|z a]]]; cbn; discriminate.
Qed.

Lemma digits_go_spec fuel : forall n acc,
  exists ds, digits_go fuel n acc = ds ++ acc
             /\ Forall (fun c => 48 <= c <= 57) ds
             /\ (fuel <> 0%nat -> ds <> []).
Proof.
  induction fuel as [|fuel IH]; intros n acc; cbn.
  - exists []. repeat split; [constructor | congruence].
  - assert (Hd : 48 <= 48 + n mod 10 <= 57).
    { assert (Hm : n mod 10 < 10) by (apply N.mod_upper_bound; discriminate).
      revert Hm. generalize (n mod 10). intros m Hm. lia. }
    destruct (n <? 10).
    + exists [48 + n mod 10]. repeat split; [now repeat constructor | discriminate].
    + destruct (IH (n / 10) ((48 + n mod 10) :: acc)) as (ds & -> & Hds & _).
      exists (ds ++ [48 + n mod 10]). repeat split.
      * now rewrite <- app_assoc.
      * apply Forall_app. split; [assumption | now repeat constructor].
      * intros _. now destruct ds.
Qed.

Lemma dec_digits n : dec n <> [] /\ Forall (fun c => 48 <= c <= 57) (dec n).
Proof.
  unfold dec.
  destruct (digits_go_spec (S (N.size_nat n)) n []) as (ds & -> & Hds & Hne).
  rewrite app_nil_r. split; [now apply Hne | assumption].
Qed.

Lemma dec_no_slash n : Path.slash ∉ dec n.
Proof.
  destruct (dec_digits n) as [_ H]. rewrite Forall_forall in H.
  intros Hin. apply H in Hin. unfold Path.slash in Hin. lia.
Qed.

Lemma screenshotName_last p t : last (screenshotName p t) = Some 103.
Proof.
  unfold screenshotName.
  rewrite !app_assoc. change (js ".png") with (js ".pn" ++ [103]).
  now rewrite app_assoc, last_snoc.
Qed.

(** The name of the screenshot: the base name without [.html], [_], the
    digits of the time, [.png]. *)
Lemma screenshotName_proper p t :
  suffix_removed p (js ".html") -> proper_name (screenshotName p t).
Proof.
  intros Hp. unfold screenshotName.
  assert (Hb : Path.slash ∉ Path.basename_ext p (js ".html")).
  { destruct Hp as [->|E]; [apply basename_no_slash|].
    intros Hin. apply (basename_no_slash p). rewrite E.
    apply elem_of_app. now left. }
  split; [|split; [|split]]; [| |fold (screenshotName p t)..].
  - now destruct (Path.basename_ext p (js ".html")).
  - intros Hin. apply elem_of_app in Hin as [Hin|Hin]; [auto|].
    apply elem_of_app in Hin as [Hin|Hin].
    { vm_compute in Hin. apply elem_of_cons in Hin as [Hin|Hin];
        [discriminate | now apply elem_of_nil in Hin]. }
    apply elem_of_app in Hin as [Hin|Hin]; [now apply (dec_no_slash t)|].
    vm_compute in Hin. repeat (apply elem_of_cons in Hin as [Hin|Hin];
      [discriminate|]). now apply elem_of_nil in Hin.
  - intros E. apply (f_equal last) in E.
    rewrite screenshotName_last in E. discriminate.
  - intros E. apply (f_equal last) in E.
    rewrite screenshotName_last in E. discriminate.
Qed.

Lemma html_suffix_no_slash : Path.slash ∉ js ".html".
Proof.
  vm_compute. intros H.
  repeat (apply elem_of_cons in H as [H|H]; [discriminate|]).
  now apply elem_of_nil in H.
Qed.

Lemma screenshotName_length p t :
  suffix_removed p (js ".html") ->
  (length (Path.basename p) < length (screenshotName p t))%nat.
Proof.
  intros Hp. unfold screenshotName. rewrite !length_app.
  assert (1 <= length (dec t))%nat.
  { destruct (dec t) eqn:E; [now destruct (dec_digits t) | cbn; lia]. }
  change (length (js "_")) with 1%nat. change (length (js ".png")) with 4%nat.
  destruct Hp as [E | E]; [rewrite E; lia | rewrite E].
  rewrite length_app. change (length (js ".html")) with 5%nat. lia.
Qed.

Lemma screenshotName_not_basename p t :
  suffix_removed p (js ".html") -> screenshotName p t <> Path.basename p.
Proof.
  intros Hp E. pose proof (screenshotName_length p t Hp) as H.
  rewrite E in H. lia.
Qed.

Lemma screenshotName_not_page p t :
  suffix_removed p (js ".html") ->
  screenshotName p t <> Path.replace (js ".html") (js ".css") (Path.basename p).
Proof.
  intros Hp E. pose proof (screenshotName_length p t Hp) as H.
  assert (H2 : (length (Path.replace (js ".html") (js ".css") (Path.basename p))
                <= length (Path.basename p))%nat)
    by (apply replace_length; vm_compute; lia).
  rewrite E in H. lia.
Qed.

Lemma screenshotName_not_style p t : screenshotName p t <> js "style.css".
Proof.
  intros E. apply (f_equal last) in E.
  rewrite screenshotName_last in E. vm_compute in E. discriminate.
Qed.

(** ** Resolution *)

Lemma next_proper cur c : proper_name c -> Fs.next cur c = cur ++ [c].
Proof.
  intros (H1 & _ & H3 & H4). unfold Fs.next. now rewrite !jseqb_false.
Qed.

Lemma walk_app f : forall cs ds cur,
  Fs.walk f cur (cs ++ ds)
  = match Fs.walk f cur cs with
    | inr k => Fs.walk f k ds
    | inl e => inl e
    end.
Proof.
  induction cs as [|c cs IH]; intros ds cur; cbn; [reflexivity|].
  destruct (f !! cur) as [[d|]|]; try reflexivity. apply IH.
Qed.

Lemma walk_snoc f cur cs c k :
  Fs.walk f cur (cs ++ [c]) = inr k ->
  exists k0, Fs.walk f cur cs = inr k0 /\ f !! k0 = Some Dir /\ k = Fs.next k0 c.
Proof.
  rewrite walk_app. destruct (Fs.walk f cur cs) as [e|k0]; [discriminate|].
  cbn. destruct (f !! k0) as [[d|]|] eqn:E; try discriminate.
  intros [= <-]. now exists k0.
Qed.

(** A path that ends with a proper name resolves to a key that ends with
    it. *)
Lemma resolve_ends_in f wd s n k :
  proper_name n -> ends_in s n -> Fs.resolve f wd s = inr k ->
  last k = Some n.
Proof.
  intros Hn Hs. destruct (ends_in_components s n (proj1 (proj2 Hn)) Hs) as [cs E].
  unfold Fs.resolve. destruct s; [discriminate|]. rewrite E.
  intros H. apply walk_snoc in H as (k0 & _ & _ & ->).
  rewrite next_proper by assumption. apply last_snoc.
Qed.

(** A path whose last portion is a proper name, and that resolves to a
    file, ends with that name. *)
Lemma resolve_file f wd p k d :
  proper_name (Path.basename p) ->
  Fs.resolve f wd p = inr k -> f !! k = Some (File d) ->
  last k = Some (Path.basename p).
Proof.
  intros Hb. unfold Fs.resolve. destruct p as [|x p]; [discriminate|].
  destruct (Path.components (x :: p)) as [|c0 cs0] eqn:E using rev_ind;
    [now destruct (components_nonempty (x :: p))|].
  clear IHcs0. rename c0 into c, cs0 into cs.
  intros H Hk. apply walk_snoc in H as (k0 & _ & Hd & ->).
  destruct (decide (c = [])) as [->|Hne].
  { unfold Fs.next in Hk. rewrite jseqb_true in Hk by reflexivity.
    cbn in Hk. congruence. }
  rewrite (basename_last _ _ _ E Hne) in Hb |- *.
  rewrite next_proper by assumption. apply last_snoc.
Qed.

Lemma mkdir_p_cons f cur c cs :
  Fs.mkdir_p f cur (c :: cs)
  = match f !! Fs.next cur c with
    | Some Dir => Fs.mkdir_p f (Fs.next cur c) cs
    | Some (File _) => inl (match cs with [] => EEXIST | _ => ENOTDIR end)
    | None => Fs.mkdir_p (<[Fs.next cur c := Dir]> f) (Fs.next cur c) cs
    end.
Proof. reflexivity. Qed.

Lemma mkdir_p_keeps cs : forall f cur f' k e,
  Fs.mkdir_p f cur cs = inr f' -> f !! k = Some e -> f' !! k = Some e.
Proof.
  induction cs as [|c cs IH]; intros f cur f' k e.
  - now intros [= ->].
  - rewrite mkdir_p_cons.
    destruct (f !! Fs.next cur c) as [[d|]|] eqn:E; [intros; discriminate| |].
    + apply IH.
    + intros H Hk. eapply IH; [exact H|].
      rewrite lookup_insert_ne; [assumption|]. congruence.
Qed.

Lemma walk_mono f f' :
  (forall k, f !! k = Some Dir -> f' !! k = Some Dir) ->
  forall cs cur k, Fs.walk f cur cs = inr k -> Fs.walk f' cur cs = inr k.
Proof.
  intros Hd. induction cs as [|c cs IH]; intros cur k; cbn; [trivial|].
  destruct (f !! cur) as [[d|]|] eqn:E; try discriminate.
  rewrite (Hd _ E). apply IH.
Qed.

Lemma stat_frame f f' wd q k e :
  (forall k, f !! k = Some Dir -> f' !! k = Some Dir) ->
  Fs.resolve f wd q = inr k -> f !! k = Some e -> f' !! k = Some e ->
  Fs.stat f' wd q = inr e.
Proof.
  intros Hd Hr Hk Hk'. unfold Fs.stat.
  assert (Hr' : Fs.resolve f' wd q = inr k).
  { unfold Fs.resolve in *. destruct q; [discriminate|].
    eapply walk_mono; eassumption. }
  now rewrite Hr', Hk'.
Qed.

Lemma stat_inv f wd q e :
  Fs.stat f wd q = inr e ->
  exists k, Fs.resolve f wd q = inr k /\ f !! k = Some e.
Proof.
  unfold Fs.stat. destruct (Fs.resolve f wd q) as [|k]; [discriminate|].
  destruct (f !! k) eqn:E; [|discriminate]. intros [= ->]. eauto.
Qed.

Lemma write_inv f wd s image f' :
  Fs.write f wd s image = inr f' ->
  exists k, Fs.resolve f wd s = inr k /\ f !! k <> Some Dir
            /\ f' = <[k := File image]> f.
Proof.
  unfold Fs.write. destruct (Fs.resolve f wd s) as [|k]; [discriminate|].
  destruct (f !! k) as [[d|]|] eqn:E; try discriminate;
    intros [= <-]; exists k; repeat split; congruence.
Qed.

(** ** Normalisation and resolution *)

Lemma walk_empties f k n k' :
  Fs.walk f k (replicate n []) = inr k' -> k' = k.
Proof.
  revert k. induction n as [|n IH]; intros k; cbn; [now intros [= ->]|].
  destruct (f !! k) as [[d|]|]; try discriminate.
  unfold Fs.next. rewrite jseqb_true by reflexivity. cbn. apply IH.
Qed.

Lemma walk_cons_dir f k c cs k' :
  Fs.walk f k (c :: cs) = inr k' -> f !! k = Some Dir.
Proof. cbn. destruct (f !! k) as [[d|]|]; congruence. Qed.

Lemma next_skip k c : c = [] \/ c = Path.dot -> Fs.next k c = k.
Proof.
  intros [->| ->]; unfold Fs.next.
  - now rewrite (jseqb_true [] []).
  - rewrite (jseqb_true Path.dot Path.dot) by reflexivity.
    now rewrite orb_true_r.
Qed.

Lemma next_dotdot k : Fs.next k Path.dotdot = removelast k.
Proof. reflexivity. Qed.

(** Walking the segments kept so far leads where the walk of the
    components read so far has led. *)
Lemma walk_norm f b start :
  (b = false -> start = []) ->
  forall cs stack kcur k,
    Forall (fun c => Path.slash ∉ c) cs ->
    Forall (kept b) stack ->
    Fs.walk f start (rev stack) = inr kcur ->
    Fs.walk f kcur cs = inr k ->
    Fs.walk f start (rev (fold_left (Path.norm_step b) cs stack)) = inr k
    /\ Forall (kept b) (fold_left (Path.norm_step b) cs stack).
Proof.
  intros Hb. induction cs as [|c cs IH]; intros stack kcur k Hsl Hst Hw Hc.
  - cbn in *. injection Hc as <-. now split.
  - inversion Hsl as [|? ? Hc0 Hsl']; subst.
    pose proof (walk_cons_dir _ _ _ _ _ Hc) as Hdir.
    cbn in Hc. rewrite Hdir in Hc. cbn [fold_left].
    unfold Path.norm_step at 2 4.
    destruct (jseqb c [] || jseqb c Path.dot) eqn:E1.
    { (* an empty component or [.] *)
      rewrite next_skip in Hc; [now apply (IH stack kcur)|].
      apply orb_true_iff in E1 as [E1|E1]; apply bool_decide_eq_true in E1; auto. }
    apply orb_false_iff in E1 as [E1 E2].
    apply bool_decide_eq_false in E1, E2.
    destruct (jseqb c Path.dotdot) eqn:E3.
    + apply bool_decide_eq_true in E3 as ->. rewrite next_dotdot in Hc.
      assert (Hpush : b = true ->
                Fs.walk f start (rev (Path.dotdot :: stack))
                = inr (removelast kcur)).
      { intros _. cbn [rev]. rewrite walk_app, Hw. cbn. now rewrite Hdir. }
      destruct stack as [|top stack'].
      * destruct b.
        -- apply (IH [Path.dotdot] (removelast kcur)); auto.
           constructor; [now right | constructor].
        -- cbn in Hw. injection Hw as <-. rewrite (Hb eq_refl) in Hc.
           apply (IH [] start); auto. now rewrite (Hb eq_refl).
      * destruct (jseqb top Path.dotdot) eqn:E4.
        -- apply bool_decide_eq_true in E4 as ->.
           inversion Hst as [|? ? Htop Hst']; subst.
           destruct Htop as [Htop|[-> _]]; [now destruct Htop as (_ & _ & _ & H)|].
           apply (IH (Path.dotdot :: Path.dotdot :: stack') (removelast kcur));
             auto.
           constructor; [now right | assumption].
        -- apply bool_decide_eq_false in E4.
           inversion Hst as [|? ? Htop Hst']; subst.
           destruct Htop as [Htop|[_ ->]]; [|contradiction].
           cbn [rev] in Hw. apply walk_snoc in Hw as (k1 & Hw1 & _ & ->).
           rewrite next_proper in Hc by assumption.
           rewrite removelast_last in Hc.
           now apply (IH stack' k1).
    + apply bool_decide_eq_false in E3.
      assert (Hp : proper_name c) by now repeat split.
      apply (IH (c :: stack) (Fs.next kcur c)); auto.
      * constructor; [now left | assumption].
      * cbn [rev]. rewrite walk_app, Hw. cbn. now rewrite Hdir.
Qed.

Lemma kept_no_slash b c : kept b c -> c <> [] /\ Path.slash ∉ c.
Proof.
  intros [(H1 & H2 & _)|[_ ->]]; [now split|]. split; [discriminate|].
  unfold Path.dotdot, Path.slash. intros H.
  repeat (apply elem_of_cons in H as [H|H]; [discriminate|]).
  now apply elem_of_nil in H.
Qed.

Lemma components_render b segs :
  segs <> [] -> Forall (kept b) segs ->
  Path.components (Path.render segs) = segs.
Proof.
  induction segs as [|x segs IH]; intros Hne Hk; [contradiction|].
  inversion Hk as [|? ? Hx Hk']; subst.
  destruct (kept_no_slash _ _ Hx) as [_ Hsl].
  destruct segs as [|y segs]; cbn [Path.render].
  - now apply components_no_slash.
  - rewrite components_app_slash, (components_no_slash x Hsl).
    cbn [app]. f_equal. now apply IH.
Qed.

Lemma render_not_absolute b segs :
  Forall (kept b) segs -> Path.is_absolute (Path.render segs) = false.
Proof.
  intros Hk. destruct segs as [|x segs]; [reflexivity|].
  inversion Hk as [|? ? Hx _]; subst.
  destruct (kept_no_slash _ _ Hx) as [Hne Hsl].
  destruct x as [|c x]; [contradiction|].
  assert (Hc : (c =? Path.slash) = false).
  { apply N.eqb_neq. intros ->. apply Hsl. left. }
  destruct segs; cbn; assumption.
Qed.

Lemma trailing_slash_components s :
  Path.trailing_slash s = true ->
  exists cs, Path.components s = cs ++ [[]].
Proof.
  unfold Path.trailing_slash. destruct (last s) as [c|] eqn:E; [|discriminate].
  intros Hc. apply N.eqb_eq in Hc as ->.
  apply last_Some in E as [s0 ->].
  exists (Path.components s0). apply components_app_slash.
Qed.

Lemma resolve_walk f wd q k :
  q <> [] ->
  Fs.walk f (if Path.is_absolute q then [] else wd) (Path.components q) = inr k ->
  Fs.resolve f wd q = inr k.
Proof. intros Hq H. unfold Fs.resolve, Fs.start. now destruct q. Qed.

(** A path that resolves resolves to the same entry once normalised. *)
Lemma resolve_normalize f wd s k :
  Fs.resolve f wd s = inr k -> Fs.resolve f wd (Path.normalize s) = inr k.
Proof.
  intros Hr.
  assert (Hs : s <> []) by (intros ->; discriminate).
  assert (Hw : Fs.walk f (Fs.start wd s) (Path.components s) = inr k)
    by (destruct s; [contradiction | exact Hr]).
  clear Hr.
  assert (Hdir : f !! Fs.start wd s = Some Dir).
  { destruct (Path.components s) eqn:E;
      [now destruct (components_nonempty s)|].
    eapply walk_cons_dir. eassumption. }
  assert (Hb : negb (Path.is_absolute s) = false -> Fs.start wd s = []).
  { unfold Fs.start. now destruct (Path.is_absolute s). }
  destruct (walk_norm f _ _ Hb (Path.components s) [] (Fs.start wd s) k
              (components_have_no_slash s) (Forall_nil_2 _) eq_refl Hw)
    as [Hn Hk].
  apply List.Forall_rev in Hk.
  fold (Path.norm_segments (negb (Path.is_absolute s)) (Path.components s))
    in Hn, Hk.
  assert (Hend : Path.trailing_slash s = true -> f !! k = Some Dir).
  { intros Ht. apply trailing_slash_components in Ht as [cs E].
    rewrite E in Hw. apply walk_snoc in Hw as (k0 & _ & Hd & ->).
    now rewrite next_skip by now left. }
  assert (Hnorm : Path.normalize s
    = match Path.render (Path.norm_segments (negb (Path.is_absolute s))
                           (Path.components s)) with
      | [] => if Path.is_absolute s then [Path.slash]
              else if Path.trailing_slash s then Path.dot ++ [Path.slash]
              else Path.dot
      | body =>
          if Path.is_absolute s
          then Path.slash :: (if Path.trailing_slash s
                              then body ++ [Path.slash] else body)
          else (if Path.trailing_slash s then body ++ [Path.slash] else body)
      end).
  { destruct s; [contradiction|]. unfold Path.normalize. cbv zeta.
    now destruct (Path.render _). }
  rewrite Hnorm. clear Hnorm.
  remember (Path.norm_segments (negb (Path.is_absolute s)) (Path.components s))
    as segs eqn:Esegs. clear Esegs.
  unfold Fs.start in *.
  destruct (decide (segs = [])) as [->|Hne].
  - (* nothing is kept *)
    cbn in Hn. injection Hn as <-. cbn [Path.render].
    destruct (Path.is_absolute s).
    + cbn. rewrite Hdir, (next_skip [] []), Hdir by now left.
      now rewrite next_skip by now left.
    + destruct (Path.trailing_slash s); cbn;
        rewrite Hdir, (next_skip wd [46]) by (right; reflexivity);
        [rewrite Hdir; now rewrite next_skip by now left | reflexivity].
  - pose proof (components_render _ _ Hne Hk) as Hc.
    pose proof (render_not_absolute _ _ Hk) as Ha.
    assert (Hrne : Path.render segs <> []).
    { intros Er. rewrite Er in Hc. cbn in Hc. subst segs.
      inversion Hk as [|? ? Hy _]; subst.
      now destruct (kept_no_slash _ _ Hy). }
    set (body' := if Path.trailing_slash s
                  then Path.render segs ++ [Path.slash]
                  else Path.render segs).
    assert (Hbody : Fs.walk f (if Path.is_absolute s then [] else wd)
                      (Path.components body') = inr k).
    { subst body'. destruct (Path.trailing_slash s) eqn:Et.
      - rewrite components_app_slash, Hc, walk_app, Hn. cbn.
        rewrite (Hend eq_refl). now rewrite next_skip by now left.
      - now rewrite Hc. }
    assert (Hbne : body' <> []).
    { subst body'. destruct (Path.trailing_slash s); [|assumption].
      now destruct (Path.render segs). }
    assert (Hba : Path.is_absolute body' = false).
    { subst body'. destruct (Path.trailing_slash s); [|assumption].
      destruct (Path.render segs); [contradiction | exact Ha]. }
    replace (match Path.render segs with
             | [] => _
             | _ :: _ => _
             end)
      with (if Path.is_absolute s then Path.slash :: body' else body')
      by (now destruct (Path.render segs)).
    destruct (Path.is_absolute s).
    + apply resolve_walk; [discriminate|].
      cbn [Path.is_absolute Path.components]. rewrite N.eqb_refl.
      cbn [Fs.walk]. rewrite Hdir. rewrite next_skip by now left. exact Hbody.
    + apply resolve_walk; [assumption|]. now rewrite Hba.
Qed.

(** ** The directory and the last portion of a path *)

Lemma dirname_scan_false l :
  match Path.dirname_scan l false with
  | Some pre => exists name, l = name ++ Path.slash :: pre /\ (Path.slash ∉ name)
  | None => Path.slash ∉ l
  end.
Proof.
  induction l as [|c l IH]; cbn; [apply not_elem_of_nil|].
  destruct (N.eqb_spec c Path.slash) as [->|Hne].
  - exists []. split; [reflexivity | apply not_elem_of_nil].
  - destruct (Path.dirname_scan l false) as [pre|].
    + destruct IH as (name & -> & Hn). exists (c :: name).
      split; [reflexivity|]. now apply not_elem_of_cons.
    + now apply not_elem_of_cons.
Qed.

Lemma dirname_scan_true l :
  match Path.dirname_scan l true with
  | Some pre =>
      exists tail name, l = tail ++ name ++ Path.slash :: pre
        /\ Forall (eq Path.slash) tail /\ name <> [] /\ (Path.slash ∉ name)
  | None =>
      exists tail name, l = tail ++ name
        /\ Forall (eq Path.slash) tail /\ (Path.slash ∉ name)
  end.
Proof.
  induction l as [|c l IH]; cbn.
  - exists [], []. repeat split; [constructor | apply not_elem_of_nil].
  - destruct (N.eqb_spec c Path.slash) as [->|Hne].
    + destruct (Path.dirname_scan l true) as [pre|].
      * destruct IH as (tail & name & -> & Ht & Hn).
        exists (Path.slash :: tail), name. repeat split; try tauto.
        now constructor.
      * destruct IH as (tail & name & -> & Ht & Hn).
        exists (Path.slash :: tail), name. repeat split; try tauto.
        now constructor.
    + pose proof (dirname_scan_false l) as H.
      destruct (Path.dirname_scan l false) as [pre|].
      * destruct H as (name & -> & Hn). exists [], (c :: name).
        repeat split; [constructor | discriminate |].
        now apply not_elem_of_cons.
      * exists [], (c :: l). repeat split; [constructor|].
        now apply not_elem_of_cons.
Qed.

Lemma no_slash_rev n : Path.slash ∉ n -> Path.slash ∉ rev n.
Proof. intros H Hin. apply H. now apply list_elem_of_In, in_rev, list_elem_of_In. Qed.

Lemma slashes_rev t : Forall (eq Path.slash) t -> Forall (eq Path.slash) (rev t).
Proof. apply List.Forall_rev. Qed.

Lemma path_shape p : p <> [] -> shape p.
Proof.
  destruct p as [|c0 rest]; [contradiction|]. intros _.
  pose proof (dirname_scan_true (rev rest)) as H.
  unfold Path.dirname.
  destruct (Path.dirname_scan (rev rest) true) as [pre|] eqn:E.
  - destruct H as (tail & name & Hl & Ht & Hne & Hn).
    apply (f_equal (@rev N)) in Hl. rewrite rev_involutive in Hl.
    rewrite !rev_app_distr in Hl. cbn in Hl. rewrite <- !app_assoc in Hl.
    cbn in Hl.
    apply (shape_dir _ (c0 :: rev pre) (rev name) (rev tail)).
    + now rewrite Hl.
    + discriminate.
    + intros Hr. apply Hne. apply (f_equal (@rev N)) in Hr.
      now rewrite rev_involutive in Hr.
    + now apply no_slash_rev.
    + now apply slashes_rev.
    + unfold Path.dirname. rewrite E.
      destruct (c0 =? Path.slash) eqn:Ec, pre as [|x pre]; cbn; auto.
      right. apply N.eqb_eq in Ec as ->. now split.
  - destruct H as (tail & name & Hl & Ht & Hn).
    apply (f_equal (@rev N)) in Hl. rewrite rev_involutive in Hl.
    rewrite rev_app_distr in Hl.
    destruct (N.eqb_spec c0 Path.slash) as [->|Hc].
    + apply (shape_root _ (rev name) (rev tail)).
      * now rewrite Hl.
      * now apply no_slash_rev.
      * now apply slashes_rev.
      * unfold Path.dirname. now rewrite E.
    + apply (shape_name _ (c0 :: rev name) (rev tail)).
      * now rewrite Hl.
      * discriminate.
      * apply not_elem_of_cons. split; [congruence | now apply no_slash_rev].
      * now apply slashes_rev.
      * unfold Path.dirname. rewrite E.
        now destruct (N.eqb_spec c0 Path.slash).
Qed.

Lemma components_slashes t :
  Forall (eq Path.slash) t -> Path.components t = replicate (S (length t)) [].
Proof.
  induction t as [|c t IH]; intros H; [reflexivity|].
  inversion H as [|? ? <- Ht]; subst. cbn [Path.components].
  rewrite N.eqb_refl, IH by assumption. reflexivity.
Qed.

Lemma components_name_tail name tail :
  Path.slash ∉ name -> Forall (eq Path.slash) tail ->
  Path.components (name ++ tail) = name :: replicate (length tail) [].
Proof.
  intros Hn Ht. destruct tail as [|c tail].
  - rewrite app_nil_r. now apply components_no_slash.
  - inversion Ht as [|? ? <- Ht']; subst.
    rewrite components_app_slash, (components_no_slash name Hn),
      components_slashes by assumption.
    reflexivity.
Qed.

Lemma filter_empties n :
  filter (fun c => Path.nonempty c = true) (replicate n ([] : jsstring)) = [].
Proof. induction n; [reflexivity | assumption]. Qed.

Lemma basename_of_components p cs name n :
  Path.components p = cs ++ name :: replicate n [] ->
  name <> [] \/ Forall (eq []) cs ->
  Path.basename p = name.
Proof.
  intros E H. unfold Path.basename. rewrite E, filter_app. cbn [filter].
  rewrite filter_cons, filter_empties.
  destruct H as [Hne|Hcs].
  - destruct (decide (Path.nonempty name = true)) as [_|Hd];
      [now rewrite last_snoc | now destruct name].
  - assert (Hf : filter (fun c => Path.nonempty c = true) cs = []).
    { clear E. induction cs as [|c cs IH]; [reflexivity|].
      inversion Hcs as [|? ? <- Hcs']; subst. rewrite filter_cons.
      cbn. now apply IH. }
    rewrite Hf. destruct name; reflexivity.
Qed.

Lemma walk_drop_empties f cur cs n k :
  Fs.walk f cur (cs ++ replicate n []) = inr k -> Fs.walk f cur cs = inr k.
Proof.
  rewrite walk_app. destruct (Fs.walk f cur cs) as [e|k0]; [discriminate|].
  intros H. apply walk_empties in H. now subst.
Qed.

Lemma resolve_unfold f wd q :
  q <> [] ->
  Fs.resolve f wd q
  = Fs.walk f (if Path.is_absolute q then [] else wd) (Path.components q).
Proof. now destruct q. Qed.

Lemma is_absolute_app d x :
  d <> [] -> Path.is_absolute (d ++ x) = Path.is_absolute d.
Proof. now destruct d. Qed.

Lemma walk_root_again f cs k :
  Fs.walk f [] ([] :: cs) = inr k -> Fs.walk f [] ([] :: [] :: cs) = inr k.
Proof.
  intros H. pose proof (walk_cons_dir _ _ _ _ _ H) as Hd.
  cbn [Fs.walk] in *. rewrite Hd in *.
  rewrite (next_skip [] []) in * by now left. now rewrite Hd.
Qed.

Lemma resolve_joined f wd p k :
  Fs.resolve f wd p = inr k ->
  Fs.resolve f wd (joined p) = inr k
  /\ exists cs, Path.components (joined p) = cs ++ [Path.basename p].
Proof.
  intros Hr.
  assert (Hp : p <> []) by (intros ->; discriminate).
  rewrite resolve_unfold in Hr by assumption.
  unfold joined.
  destruct (path_shape p Hp) as
    [d name tail E Hd Hne Hn Ht HD | name tail E Hn Ht HD | name tail E Hne Hn Ht HD].
  - (* a directory part and a name *)
    assert (Hc : Path.components p
                 = (Path.components d ++ [name]) ++ replicate (length tail) []).
    { rewrite E, components_app_slash, components_name_tail by assumption.
      now rewrite <- app_assoc. }
    assert (Hb : Path.basename p = name).
    { apply (basename_of_components _ (Path.components d) name (length tail));
        [now rewrite Hc, <- app_assoc | now left]. }
    rewrite Hc in Hr. apply walk_drop_empties in Hr.
    assert (Ha : Path.is_absolute p = Path.is_absolute d)
      by (rewrite E; now apply is_absolute_app).
    rewrite Ha in Hr. rewrite Hb.
    assert (HDne : Path.dirname p <> []).
    { destruct HD as [->|[_ ->]]; [assumption | discriminate]. }
    assert (Hf : filter (fun c => Path.nonempty c = true) [Path.dirname p; name]
                 = [Path.dirname p; name]).
    { destruct (Path.dirname p); [contradiction|].
      destruct name; [contradiction | reflexivity]. }
    rewrite Hf. cbn [Path.render].
    destruct HD as [HD|[-> HD]]; rewrite HD.
    + split.
      * rewrite resolve_unfold by now destruct d.
        rewrite is_absolute_app, components_app_slash,
          (components_no_slash name) by assumption.
        exact Hr.
      * exists (Path.components d).
        now rewrite components_app_slash, (components_no_slash name).
    + split.
      * rewrite resolve_unfold by discriminate.
        rewrite components_app_slash, (components_no_slash name) by assumption.
        apply (walk_root_again f ([] :: [name])). exact Hr.
      * exists (Path.components [Path.slash; Path.slash]).
        now rewrite components_app_slash, (components_no_slash name).
  - (* the root and a name *)
    assert (Hc : Path.components p = [[]; name] ++ replicate (length tail) []).
    { rewrite E. change (Path.slash :: name ++ tail)
        with ([] ++ Path.slash :: name ++ tail).
      now rewrite components_app_slash, components_name_tail. }
    assert (Hb : Path.basename p = name).
    { apply (basename_of_components _ [[]] name (length tail));
        [exact Hc | right; now repeat constructor]. }
    rewrite Hc in Hr. apply walk_drop_empties in Hr.
    rewrite E in Hr. cbn [Path.is_absolute] in Hr. rewrite N.eqb_refl in Hr.
    rewrite Hb, HD.
    destruct name as [|c name].
    + replace (filter _ [[Path.slash]; []]) with [[Path.slash]] by reflexivity.
      cbn [Path.render]. split; [|now exists [[]]].
      pose proof (walk_cons_dir _ _ _ _ _ Hr) as Hdir.
      rewrite resolve_unfold by discriminate.
      cbn [Path.is_absolute Path.components]. rewrite N.eqb_refl.
      exact Hr.
    + replace (filter _ [[Path.slash]; c :: name])
        with [[Path.slash]; c :: name] by reflexivity.
      cbn [Path.render]. split.
      * rewrite resolve_unfold by discriminate.
        rewrite components_app_slash, (components_no_slash (c :: name))
          by assumption.
        apply (walk_root_again f [c :: name]). exact Hr.
      * exists (Path.components [Path.slash]).
        now rewrite components_app_slash, (components_no_slash (c :: name)).
  - (* a name alone *)
    assert (Hc : Path.components p = [name] ++ replicate (length tail) []).
    { rewrite E. now apply components_name_tail. }
    assert (Hb : Path.basename p = name).
    { apply (basename_of_components _ [] name (length tail));
        [exact Hc | now left]. }
    rewrite Hc in Hr. apply walk_drop_empties in Hr.
    assert (Ha : Path.is_absolute p = false).
    { rewrite E. destruct name as [|c name]; [contradiction|]. cbn.
      apply N.eqb_neq. intros ->. apply Hn. left. }
    rewrite Ha in Hr. rewrite Hb, HD.
    assert (Hf : filter (fun c => Path.nonempty c = true) [Path.dot; name]
                 = [Path.dot; name])
      by (destruct name; [contradiction | reflexivity]).
    rewrite Hf. cbn [Path.render]. split.
    + rewrite resolve_unfold by discriminate.
      rewrite components_app_slash, (components_no_slash name) by assumption.
      pose proof (walk_cons_dir _ _ _ _ _ Hr) as Hdir.
      change (Path.is_absolute (Path.dot ++ Path.slash :: name)) with false.
      change (Path.components Path.dot) with [Path.dot].
      cbn [app Fs.walk] in *. rewrite Hdir in *.
      rewrite (next_skip wd Path.dot) by now right.
      now rewrite Hdir.
    + exists (Path.components Path.dot).
      now rewrite components_app_slash, (components_no_slash name).
Qed.

Lemma dirname_nonempty p : Path.dirname p <> [].
Proof.
  unfold Path.dirname. destruct p as [|c0 rest]; [discriminate|].
  destruct (Path.dirname_scan (rev rest) true) as [pre|].
  - destruct (_ && _); discriminate.
  - destruct (c0 =? Path.slash); discriminate.
Qed.

Lemma improper_cases c :
  Path.slash ∉ c -> ~ proper_name c ->
  c = [] \/ c = Path.dot \/ c = Path.dotdot.
Proof.
  intros Hs Hn.
  destruct (decide (c = [])); [tauto|].
  destruct (decide (c = Path.dot)); [tauto|].
  destruct (decide (c = Path.dotdot)); [tauto|].
  destruct Hn. now repeat split.
Qed.

(** In a tree, a path that ends with an empty portion, [.] or [..]
    resolves to a directory. *)
Lemma improper_is_dir f cur cs c k :
  Fs.tree f -> Fs.walk f cur (cs ++ [c]) = inr k ->
  c = [] \/ c = Path.dot \/ c = Path.dotdot ->
  f !! k = Some Dir.
Proof.
  intros Ht Hw Hc. apply walk_snoc in Hw as (k0 & _ & Hd & ->).
  destruct Hc as [->|[->| ->]].
  - now rewrite next_skip by now left.
  - now rewrite next_skip by now right.
  - rewrite next_dotdot. destruct k0 as [|x k0 _] using rev_ind; [exact Hd|].
    rewrite removelast_last. now apply Ht in Hd.
Qed.

(** Where the replacement leaves the last portion of the input path as it
    is, the per-page stylesheet path is the directory of the input joined
    with that portion. *)
Lemma page_of_unchanged_name p :
  Path.replace (js ".html") (js ".css") (Path.basename p) = Path.basename p ->
  pageCssPath p = Path.normalize (joined p).
Proof.
  intros HL. unfold pageCssPath, Path.join, joined. rewrite HL.
  destruct (filter _ _) eqn:E; [|reflexivity].
  pose proof (dirname_nonempty p) as Hd.
  rewrite filter_cons in E. destruct (Path.dirname p); [contradiction|].
  discriminate.
Qed.

(** For an input path that does not end with a proper name, the per-page
    stylesheet path references a directory. *)
Lemma page_of_improper_input f wd p k :
  Fs.tree f -> Fs.resolve f wd p = inr k ->
  ~ proper_name (Path.basename p) ->
  Fs.stat f wd (pageCssPath p) = inr Dir.
Proof.
  intros Ht Hr Hn.
  pose proof (improper_cases _ (basename_no_slash p) Hn) as Hc.
  assert (HL : Path.replace (js ".html") (js ".css") (Path.basename p)
               = Path.basename p).
  { destruct Hc as [->|[->| ->]]; reflexivity. }
  destruct (resolve_joined _ _ _ _ Hr) as [Hrj [cs Hcs]].
  assert (Hd : f !! k = Some Dir).
  { assert (Hne : joined p <> []) by (intros E; rewrite E in Hrj; discriminate).
    rewrite resolve_unfold, Hcs in Hrj by assumption.
    eapply improper_is_dir; eassumption. }
  rewrite (page_of_unchanged_name p HL). unfold Fs.stat.
  now rewrite (resolve_normalize _ _ _ _ Hrj), Hd.
Qed.

(** A path that ends with a separator resolves to a directory. *)
Lemma trailing_slash_is_dir f wd p k :
  Fs.resolve f wd p = inr k -> Path.trailing_slash p = true ->
  f !! k = Some Dir.
Proof.
  intros Hr Ht. assert (Hp : p <> []) by (intros ->; discriminate).
  rewrite resolve_unfold in Hr by assumption.
  apply trailing_slash_components in Ht as [cs E].
  rewrite E in Hr. apply walk_snoc in Hr as (k0 & _ & Hd & ->).
  now rewrite next_skip by now left.
Qed.

(** A string shorter than the pattern is left as it is. *)
Lemma replace_short pat rep s :
  (length s < length pat)%nat -> Path.replace pat rep s = s.
Proof.
  induction s as [|c s IH]; intros H; cbn [Path.replace].
  - rewrite jseqb_false; [reflexivity|].
    intros E. rewrite take_nil in E. subst pat. cbn in H. lia.
  - rewrite jseqb_false.
    + rewrite IH; [reflexivity | cbn in H; lia].
    + intros E. apply (f_equal length) in E. rewrite length_take in E. lia.
Qed.

(** For an input path that ends with a separator and whose last portion
    is shorter than [.html], the per-page stylesheet path references the
    directory of the input. *)
Lemma page_of_short_input f wd p k :
  Fs.resolve f wd p = inr k -> Path.trailing_slash p = true ->
  (length (Path.basename p) < length (js ".html"))%nat ->
  Fs.stat f wd (pageCssPath p) = inr Dir.
Proof.
  intros Hr Ht Hl.
  destruct (resolve_joined _ _ _ _ Hr) as [Hrj _].
  rewrite (page_of_unchanged_name p (replace_short _ _ _ Hl)). unfold Fs.stat.
  now rewrite (resolve_normalize _ _ _ _ Hrj),
    (trailing_slash_is_dir _ _ _ _ Hr Ht).
Qed.

(** A call that reads the per-page stylesheet as a file has named the
    screenshot after the last portion of the input path, less its suffix. *)
Lemma page_file_removes_suffix f wd p e d :
  Fs.stat f wd p = inr e -> Fs.stat f wd (pageCssPath p) = inr (File d) ->
  suffix_removed p (js ".html").
Proof.
  intros Hi Hpage.
  destruct (basename_ext_cases p (js ".html")) as [H|[Ht Hl]];
    [discriminate | apply html_suffix_no_slash | exact H |].
  apply stat_inv in Hi as (k & Hr & _).
  rewrite (page_of_short_input _ _ _ _ Hr Ht Hl) in Hpage. discriminate.
Qed.

Lemma tree_check (f : gmap fskey entry) :
  map_Forall (fun k _ => k = [] \/ f !! removelast k = Some Dir) f ->
  Fs.tree f.
Proof.
  intros H k c e Hk. destruct (H _ _ Hk) as [E|E].
  - now destruct k.
  - now rewrite removelast_last in E.
Qed.

Example sample_is_a_tree : Fs.tree Sample.files.
Proof.
  apply tree_check.
  refine (bool_decide_unpack (map_Forall _ Sample.files) _).
  vm_compute. exact I.
Qed.

(** ** The writes of a successful preview *)

(** What a successful call has done: both stylesheets were read as files,
    the directory of the screenshots was found or created, and the image
    was written at the path of the screenshot. *)
Lemma previewFile_ok base sc p width height w r w' :
  previewFile base sc (VStr p) width height w = (Ok r, w') ->
  exists mainCss pageCss image html f1 evs page,
    is_Some (Fs.lookup (fs w) (cwd w) p)
    /\ Fs.stat (fs w) (cwd w) (mainCssPath p) = inr (File mainCss)
    /\ Fs.stat (fs w) (cwd w) (pageCssPath p) = inr (File pageCss)
    /\ capture sc = Some image
    /\ r = (screenshotPath base p (now sc), html)
    /\ Fs.write f1 (cwd w) (screenshotPath base p (now sc)) image = inr (fs w')
    /\ (f1 = fs w
        \/ exists cur,
             Fs.mkdir_p (fs w) cur (Path.components (screenshotsDir base))
             = inr f1)
    /\ cwd w' = cwd w
    /\ trace w' = trace w ++ evs
    /\ (filter (fun e => writes e = true) evs
        = [EScreenshot page (screenshotPath base p (now sc))]
        \/ filter (fun e => writes e = true) evs
           = [EMkdirSync (screenshotsDir base);
              EScreenshot page (screenshotPath base p (now sc))]).
Proof.
  unfold previewFile. prims. run. cbn.
  repeat step; intros H; try discriminate H.
  all: injection H as <- <-; cbn.
  all: do 7 eexists.
  all: split; [eauto|].
  all: split; [reflexivity|]; split; [reflexivity|]; split; [reflexivity|].
  all: split; [reflexivity|].
  all: split; [eassumption|].
  all: split; [first [left; reflexivity | right; eexists; eassumption]|].
  all: split; [reflexivity|].
  all: split; [rewrite <- ?app_assoc; reflexivity|].
  all: first [left; reflexivity | right; reflexivity].
Qed.

Lemma style_css_proper : proper_name (js "style.css").
Proof.
  split; [discriminate|]. split; [|split; discriminate].
  vm_compute. intros H.
  repeat (apply elem_of_cons in H as [H|H]; [discriminate|]).
  now apply elem_of_nil in H.
Qed.

Lemma lookup_stat f wd q e :
  Fs.lookup f wd q = Some e <-> Fs.stat f wd q = inr e.
Proof.
  unfold Fs.lookup. destruct (Fs.stat f wd q); split; congruence.
Qed.

(** The frame of a successful call on a path whose last portion is a
    proper name. *)
Lemma preview_frame (base : jsstring) (sc : Script)
    (p : jsstring) (width height : jsval) (w w' : World)
    (r : jsstring * jsstring) :
  proper_name (Path.basename p) ->
  previewFile base sc (VStr p) width height w = (Ok r, w') ->
  fst r = screenshotPath base p (now sc)
  /\ (exists page,
        filter (fun e => writes e = true) (events_since w w')
        = [EScreenshot page (fst r)]
        \/ filter (fun e => writes e = true) (events_since w w')
           = [EMkdirSync (screenshotsDir base); EScreenshot page (fst r)])
  /\ (exists k image,
        last k = Some (screenshotName p (now sc))
        /\ fs w' !! k = Some (File image)
        /\ forall k' e, k' <> k -> fs w !! k' = Some e -> fs w' !! k' = Some e)
  /\ is_Some (entry_at w p)
  /\ is_file (entry_at w (mainCssPath p)) = true
  /\ is_file (entry_at w (pageCssPath p)) = true
  /\ entry_at w' p = entry_at w p
  /\ entry_at w' (mainCssPath p) = entry_at w (mainCssPath p)
  /\ entry_at w' (pageCssPath p) = entry_at w (pageCssPath p).
Proof.
  intros Hb Hok.
  destruct (previewFile_ok _ _ _ _ _ _ _ _ Hok)
    as (mainCss & pageCss & image & html & f1 & evs & page
        & [e He] & Hmain & Hpage & Hcap & -> & Hwrite & Hf1 & Hcwd & Htr & Hev).
  apply write_inv in Hwrite as (kS & HrS & HkS & Hfs).
  assert (Hkeep : forall k e, fs w !! k = Some e -> f1 !! k = Some e).
  { destruct Hf1 as [->|[cur Hmk]]; [trivial|].
    intros k e0. now apply (mkdir_p_keeps _ _ _ _ _ _ Hmk). }
  assert (Hs : suffix_removed p (js ".html")).
  { apply lookup_stat in He. eapply page_file_removes_suffix; eassumption. }
  assert (HlastS : last kS = Some (screenshotName p (now sc))).
  { eapply resolve_ends_in; [now apply screenshotName_proper| |exact HrS].
    now apply (join_ends_in [screenshotsDir base]), screenshotName_proper. }
  assert (Hother : forall k e, k <> kS -> fs w !! k = Some e ->
                               fs w' !! k = Some e).
  { intros k e0 Hne Hk. rewrite Hfs, lookup_insert_ne by congruence.
    now apply Hkeep. }
  assert (Hdirs : forall k, fs w !! k = Some Dir -> fs w' !! k = Some Dir).
  { intros k Hk. apply Hother; [|assumption].
    intros ->. apply HkS. now apply Hkeep. }
  assert (Hframe : forall q k e0,
             Fs.resolve (fs w) (cwd w) q = inr k -> fs w !! k = Some e0 ->
             k <> kS -> entry_at w' q = entry_at w q).
  { intros q k e0 Hr Hk Hne. unfold entry_at.
    assert (H1 : Fs.lookup (fs w) (cwd w) q = Some e0).
    { apply lookup_stat. unfold Fs.stat. now rewrite Hr, Hk. }
    rewrite H1, Hcwd. apply lookup_stat.
    eapply stat_frame; eauto. }
  apply stat_inv in Hmain as Hm. destruct Hm as (km & Hrm & Hkm).
  apply stat_inv in Hpage as Hp. destruct Hp as (kp & Hrp & Hkp).
  apply lookup_stat in He as Hi. apply stat_inv in Hi as (ki & Hri & Hki).
  split; [reflexivity|].
  split.
  { exists page. rewrite (events_since_app _ _ _ Htr). exact Hev. }
  split.
  { exists kS, image. split; [assumption|]. split; [|assumption].
    rewrite Hfs. apply lookup_insert_eq. }
  split; [unfold entry_at; eauto|].
  split; [unfold entry_at; apply lookup_stat in Hmain; now rewrite Hmain|].
  split; [unfold entry_at; apply lookup_stat in Hpage; now rewrite Hpage|].
  split; [|split].
  - apply (Hframe p ki e Hri Hki). intros ->.
    destruct e as [d|]; [|now apply HkS, Hkeep].
    rewrite (resolve_file _ _ _ _ _ Hb Hri Hki) in HlastS.
    injection HlastS as E. now apply (screenshotName_not_basename p (now sc)).
  - apply (Hframe _ km _ Hrm Hkm). intros ->.
    pose proof (resolve_ends_in _ _ _ _ _ style_css_proper
                  (join_ends_in [Path.dirname p; js ".."] _ style_css_proper)
                  Hrm) as Hl.
    rewrite Hl in HlastS. injection HlastS as E.
    now apply (screenshotName_not_style p (now sc)).
  - apply (Hframe _ kp _ Hrp Hkp). intros ->.
    pose proof (replace_proper _ Hb) as HL.
    pose proof (resolve_ends_in _ _ _ _ _ HL
                  (join_ends_in [Path.dirname p] _ HL) Hrp) as Hl.
    rewrite Hl in HlastS. injection HlastS as E.
    now apply (screenshotName_not_page p (now sc)).
Qed.

(** In a tree, a path that references a file ends with a proper name. *)
Lemma file_path_has_proper_name f wd p d :
  Fs.tree f -> Fs.stat f wd p = inr (File d) ->
  proper_name (Path.basename p).
Proof.
  intros Ht Hs. apply stat_inv in Hs as (k & Hr & Hk).
  unfold Fs.resolve in Hr. destruct p as [|x p]; [discriminate|].
  pose proof (components_have_no_slash (x :: p)) as Hsl.
  destruct (Path.components (x :: p)) as [|c0 cs0] eqn:E using rev_ind;
    [now destruct (components_nonempty (x :: p))|].
  clear IHcs0. rename c0 into c, cs0 into cs.
  apply walk_snoc in Hr as (k0 & _ & Hd & ->).
  apply Forall_app in Hsl as [_ Hsl]. inversion Hsl as [|? ? Hc _]; subst.
  unfold Fs.next in Hk.
  destruct (decide (c = [])) as [->|H1];
    [rewrite jseqb_true in Hk by reflexivity; cbn in Hk; congruence|].
  destruct (decide (c = Path.dot)) as [->|H2];
    [rewrite (jseqb_true Path.dot Path.dot), orb_true_r in Hk by reflexivity;
     congruence|].
  rewrite !jseqb_false in Hk by assumption. cbn in Hk.
  destruct (decide (c = Path.dotdot)) as [->|H3].
  - rewrite jseqb_true in Hk by reflexivity.
    destruct k0 as [|y k0] using rev_ind; [cbn in Hk; congruence|].
    rewrite removelast_last in Hk. apply Ht in Hd. congruence.
  - rewrite (basename_last _ _ _ E H1). now repeat split.
Qed.

(** C10. In a file system that is a tree, a successful [previewFile] makes
    two calls that write at most: [mkdirSync] on the directory of the
    screenshots, when it was absent, and [page.screenshot] on the path of
    the screenshot.  The file system after the call is the one before, with
    those directories added and the image put at one key, whose name is the
    name of the screenshot; every other entry is as it was.  The input path
    and the two stylesheet paths, which held files that were read,
    reference the same entries after the call as before. *)
Theorem preview_writes_only_the_screenshot (base : jsstring) (sc : Script)
    (p : jsstring) (width height : jsval) (w w' : World)
    (r : jsstring * jsstring) :
  Fs.tree (fs w) ->
  previewFile base sc (VStr p) width height w = (Ok r, w') ->
  fst r = screenshotPath base p (now sc)
  /\ (exists page,
        filter (fun e => writes e = true) (events_since w w')
        = [EScreenshot page (fst r)]
        \/ filter (fun e => writes e = true) (events_since w w')
           = [EMkdirSync (screenshotsDir base); EScreenshot page (fst r)])
  /\ (exists k image,
        last k = Some (screenshotName p (now sc))
        /\ fs w' !! k = Some (File image)
        /\ forall k' e, k' <> k -> fs w !! k' = Some e -> fs w' !! k' = Some e)
  /\ is_Some (entry_at w p)
  /\ is_file (entry_at w (mainCssPath p)) = true
  /\ is_file (entry_at w (pageCssPath p)) = true
  /\ entry_at w' p = entry_at w p
  /\ entry_at w' (mainCssPath p) = entry_at w (mainCssPath p)
  /\ entry_at w' (pageCssPath p) = entry_at w (pageCssPath p).
Proof.
  intros Ht Hok.
  destruct (decide (proper_name (Path.basename p))) as [Hb|Hb];
    [exact (preview_frame base sc p width height w w' r Hb Hok)|].
  exfalso.
  destruct (previewFile_ok _ _ _ _ _ _ _ _ Hok)
    as (mainCss & pageCss & image & html & f1 & evs & page
        & [e He] & _ & Hpage & _).
  apply lookup_stat, stat_inv in He as (k & Hr & _).
  rewrite (page_of_improper_input _ _ _ _ Ht Hr Hb) in Hpage.
  discriminate.
Qed.

Lemma preview_writes_only_the_screenshot_witness :
  let p := js "/site/pages/about.html" in
  let run := previewFile Server.base Sample.good (VStr p) (VNum 1024)
               (VNum 768) Sample.world in
  let r := (screenshotPath Server.base p 1700000000000, js "<html></html>") in
  (Fs.tree (fs Sample.world) /\ run = (Ok r, snd run))
  /\ entry_at (snd run) p = entry_at Sample.world p.
Proof.
  intros p run r.
  assert (H1 : Fs.tree (fs Sample.world)).
  { apply tree_check.
    refine (bool_decide_unpack (map_Forall _ Sample.files) _).
    vm_compute. exact I. }
  assert (Hf : fst run = Ok r) by (vm_compute; reflexivity).
  assert (H2 : run = (Ok r, snd run))
    by (rewrite <- Hf; apply surjective_pairing).
  split; [split; assumption|].
  exact (proj1 (proj2 (proj2 (proj2 (proj2 (proj2 (proj2
    (preview_writes_only_the_screenshot Server.base Sample.good p (VNum 1024)
       (VNum 768) Sample.world (snd run) r H1 H2)))))))).
Defined.

Example preview_sample_files :
  let w' := snd (previewFile Server.base Sample.good
                   (VStr (js "/site/pages/about.html")) (VNum 1024) (VNum 768)
                   Sample.world) in
  filter (fun e => writes e = true) (trace w')
  = [EMkdirSync (js "/Users/seanivore/Documents/Cline/MCP/mcp-file-preview/screenshots");
     EScreenshot 1 (js "/Users/seanivore/Documents/Cline/MCP/mcp-file-preview/screenshots/about_1700000000000.png")]
  /\ entry_at w' (js "/Users/seanivore/Documents/Cline/MCP/mcp-file-preview/screenshots/about_1700000000000.png")
     = Some (File (js "PNG"))
  /\ entry_at w' (js "/site/pages/about.html") = Some (File Sample.html)
  /\ pages w' = [].
Proof. vm_compute. repeat split. Qed.

(** ** The per-page stylesheet *)

(** C6. [replace('.html', '.css')] replaces the first occurrence of
    [.html] in the base name, not the extension: for
    [/site/pages/a.html.html] the per-page stylesheet is read at
    [/site/pages/a.css.html], and the call fails there although
    [/site/pages/a.html.css] is present; for a name without [.html] the
    derived path is the input file itself.  The shared stylesheet is at
    [style.css] one directory above. *)
Theorem page_stylesheet_replaces_first_occurrence :
  pageCssPath Backup.path = js "/site/pages/a.css.html"
  /\ mainCssPath Backup.path = js "/site/style.css"
  /\ entry_at Backup.world (js "/site/pages/a.html.css")
     = Some (File (js "p{color:red}"))
  /\ fst (previewFile Server.base Sample.good (VStr Backup.path) (VNum 1024)
            (VNum 768) Backup.world)
     = Throw (FsError ENOENT (js "/site/pages/a.css.html"))
  /\ pageCssPath (js "/site/pages/notes.txt") = js "/site/pages/notes.txt".
Proof. vm_compute. repeat split. Qed.

(** Where the base name is [stem.html] and [stem] holds no [.], the
    per-page stylesheet is [stem.css] in the directory of the file. *)
Lemma replace_extension stem :
  46 ∉ stem ->
  Path.replace (js ".html") (js ".css") (stem ++ js ".html")
  = stem ++ js ".css".
Proof.
  induction stem as [|c stem IH]; intros H; [reflexivity|].
  apply not_elem_of_cons in H as [Hc H].
  cbn [Path.replace app].
  rewrite jseqb_false; [now rewrite IH|].
  change (js ".html") with [46; 104; 116; 109; 108].
  cbn. intros [= E _]. congruence.
Qed.

(** * Further properties *)

(** ** The tools announced and the tools served *)

Lemma previewFile_not_MethodNotFound base sc v width height w msg :
  fst (previewFile base sc v width height w)
  <> Throw (McpError MethodNotFound msg).
Proof.
  unfold previewFile, file_not_found. prims. run. cbn.
  repeat step; cbn; discriminate.
Qed.

Lemma analyzeContent_not_MethodNotFound v w msg :
  fst (analyzeContent v w) <> Throw (McpError MethodNotFound msg).
Proof.
  unfold analyzeContent, file_not_found. prims. run. cbn.
  repeat step; cbn; discriminate.
Qed.

(** X1. The names that [ListTools] announces are the names that the
    handler of tool calls of [src/index.ts] serves: a call of a name that
    is listed never fails as an unknown tool, and a call of any other name
    throws [MethodNotFound] with the message [Unknown tool: name], whatever
    its arguments, and leaves the world as it was. *)
Theorem listed_tools_are_the_tools_served (sc : Script) (name : jsstring)
    (args : option arguments) (w : World) :
  (name ∈ map tool_name listTools ->
   forall msg, fst (Server.callTool sc name args w)
               <> Throw (McpError MethodNotFound msg))
  /\ (name ∉ map tool_name listTools ->
      Server.callTool sc name args w
      = (Throw (McpError MethodNotFound (js "Unknown tool: " ++ name)), w)).
Proof.
  split.
  - intros Hin msg. cbn in Hin.
    apply elem_of_cons in Hin as [->|Hin];
      [|apply list_elem_of_singleton in Hin as ->].
    + unfold Server.callTool. rewrite jseqb_true by reflexivity.
      unfold Server.handlePreviewFile, Server.destructure. run.
      destruct args as [a|]; [|discriminate].
      pose proof (previewFile_not_MethodNotFound Server.base sc
                    (prop a "filePath") (prop_default a "width" (VNum 1024))
                    (prop_default a "height" (VNum 768)) w msg) as H.
      destruct (previewFile _ _ _ _ _ w) as [[r|e] w']; [discriminate|].
      cbn in H |- *. intros [= ->]. now apply H.
    + unfold Server.callTool. rewrite jseqb_false by (vm_compute; discriminate).
      rewrite jseqb_true by reflexivity.
      unfold Server.handleAnalyzeContent, Server.destructure. run.
      destruct args as [a|]; [|discriminate].
      pose proof (analyzeContent_not_MethodNotFound (prop a "filePath") w msg) as H.
      destruct (analyzeContent _ w) as [[r|e] w']; [discriminate|].
      cbn in H |- *. intros [= ->]. now apply H.
  - intros Hn. unfold Server.callTool.
    rewrite !jseqb_false; [reflexivity| |]; intros ->; apply Hn; cbn.
    + right. left.
    + left.
Qed.

Lemma prop_insert_eq (a : arguments) (k : string) (v : jsval) :
  prop (<[js k := v]> a) k = v.
Proof. unfold prop. now rewrite lookup_insert_eq. Qed.

Lemma prop_insert_ne (a : arguments) (k k' : string) (v : jsval) :
  js k <> js k' -> prop (<[js k := v]> a) k' = prop a k'.
Proof. intros H. unfold prop. now rewrite lookup_insert_ne. Qed.

(** X2. The defaults that the input schemas declare are the defaults that
    the handlers use: a call that leaves out (or gives as [undefined]) an
    argument for which the schema of the tool declares a default does what
    the same call with the declared default does, in both
    implementations. *)
Theorem declared_defaults_are_the_defaults_used (sc : Script) (a : arguments)
    (t : tool) (p : schema_property) (d : jsval) (w : World) :
  t ∈ listTools -> p ∈ tool_properties t -> sp_default p = Some d ->
  prop a (sp_name p) = VUndefined ->
  Server.callTool sc (tool_name t) (Some a) w
  = Server.callTool sc (tool_name t) (Some (<[js (sp_name p) := d]> a)) w
  /\ Wrapper.callTool sc (tool_name t) (Some a) w
     = Wrapper.callTool sc (tool_name t) (Some (<[js (sp_name p) := d]> a)) w.
Proof.
  intros Ht Hp Hd Ha.
  assert (Hcase : tool_name t = js "preview_file"
                  /\ ((sp_name p = "width"%string /\ d = VNum 1024)
                      \/ (sp_name p = "height"%string /\ d = VNum 768))).
  { unfold listTools in Ht.
    repeat (apply elem_of_cons in Ht as [->|Ht]); cbn in Hp;
      [| |now apply elem_of_nil in Ht];
      repeat (apply elem_of_cons in Hp as [->|Hp]); cbn in Hd;
      try discriminate; try (now apply elem_of_nil in Hp);
      injection Hd as <-; split; auto. }
  destruct Hcase as [-> Hk].
  unfold Server.callTool, Wrapper.callTool.
  rewrite jseqb_true by reflexivity.
  unfold Server.handlePreviewFile, Server.destructure, Wrapper.previewFile. run.
  destruct Hk as [[Hk ->]|[Hk ->]]; rewrite Hk in Ha |- *;
    unfold prop_default;
    rewrite prop_insert_eq, !prop_insert_ne, Ha
      by (vm_compute; discriminate);
    split; reflexivity.
Qed.

Lemma declared_defaults_are_the_defaults_used_witness :
  let a : arguments := {[ js "filePath" := VStr (js "/site/pages/about.html") ]} in
  let t := Tool (js "preview_file") "Preview local HTML file and capture screenshot"
      [ SchemaProperty "filePath" TString "Path to local HTML file" None;
        SchemaProperty "width" TNumber "Viewport width" (Some (VNum 1024));
        SchemaProperty "height" TNumber "Viewport height" (Some (VNum 768)) ]
      ["filePath"%string] in
  let p := SchemaProperty "width" TNumber "Viewport width" (Some (VNum 1024)) in
  (t ∈ listTools /\ p ∈ tool_properties t /\ sp_default p = Some (VNum 1024)
   /\ prop a (sp_name p) = VUndefined)
  /\ Server.callTool Sample.good (js "preview_file") (Some a) Sample.world
     = Server.callTool Sample.good (js "preview_file")
         (Some (<[js "width" := VNum 1024]> a)) Sample.world.
Proof.
  intros a t p.
  assert (H1 : t ∈ listTools) by (left).
  assert (H2 : p ∈ tool_properties t) by (right; left).
  assert (H3 : sp_default p = Some (VNum 1024)) by reflexivity.
  assert (H4 : prop a (sp_name p) = VUndefined) by (vm_compute; reflexivity).
  split; [repeat split; assumption|].
  exact (proj1 (declared_defaults_are_the_defaults_used Sample.good a t p
                  (VNum 1024) Sample.world H1 H2 H3 H4)).
Defined.

(** ** Arguments of the wrong type *)

(** *** Numbers as text *)

Example toString_ex1 : to_string (VNum 42) = js "42".
Proof. vm_compute. reflexivity. Qed.

Example toString_ex2 : to_string (VNum (-7)) = js "-7".
Proof. vm_compute. reflexivity. Qed.

Example toString_ex3 : to_string (VNum (2 ^ 53 + 1)) = js "9007199254740992".
Proof. vm_compute. reflexivity. Qed.

Example toString_ex4 : to_string (VNum (2 ^ 64)) = js "18446744073709552000".
Proof. vm_compute. reflexivity. Qed.

Example toString_ex5 : to_string (VNum (10 ^ 21)) = js "1e+21".
Proof. vm_compute. reflexivity. Qed.

Example toString_ex6 : to_string (VNum (2 ^ 70)) = js "1.1805916207174113e+21".
Proof. vm_compute. reflexivity. Qed.

Example toString_ex7 : to_string (VNum (- 10 ^ 23)) = js "-1e+23".
Proof. vm_compute. reflexivity. Qed.

Example toString_ex8 : to_string (VNum (2 ^ 1024)) = js "Infinity".
Proof. vm_compute. reflexivity. Qed.

Lemma size_safe m : m < 2 ^ 53 -> N.size m <= 53.
Proof.
  intros H. destruct (N.le_gt_cases (N.size m) 53) as [Hle|Hgt]; [assumption|].
  exfalso. pose proof (N.size_le m) as Hs.
  assert (Hp : 2 ^ 54 <= 2 ^ N.size m) by (apply N.pow_le_mono_r; lia).
  rewrite N.succ_double_spec in Hs.
  change (2 ^ 54) with 18014398509481984 in Hp.
  change (2 ^ 53) with 9007199254740992 in H. lia.
Qed.

Lemma round_safe m : m < 2 ^ 53 -> Number.round m = Some m.
Proof.
  intros H. unfold Number.round.
  apply size_safe in H. apply N.leb_le in H. now rewrite H.
Qed.

(** Beyond 53 bits the Number value is at least [2^53]. *)
Lemma round_large m v :
  53 < N.size m -> Number.round m = Some v -> 2 ^ 53 <= v.
Proof.
  intros Hs. unfold Number.round.
  destruct (N.leb_spec (N.size m) 53) as [Hle|_]; [lia|].
  cbv zeta.
  set (sh := N.size m - 53).
  set (q := N.shiftr m sh).
  match goal with
  | |- context [if ?b then q + 1 else q] => set (q' := if b then q + 1 else q)
  end.
  destruct (N.shiftl 1 1024 <=? N.shiftl q' sh); [discriminate|].
  intros [= <-].
  assert (Hq : 2 ^ 52 <= q).
  { subst q. rewrite N.shiftr_div_pow2.
    assert (Hm : 2 ^ (52 + sh) <= m).
    { pose proof (N.size_le m) as H. rewrite N.succ_double_spec in H.
      replace (N.size m) with (N.succ (52 + sh)) in H by (subst sh; lia).
      rewrite N.pow_succ_r' in H. lia. }
    rewrite N.pow_add_r in Hm.
    apply N.div_le_lower_bound; [apply N.pow_nonzero; discriminate|].
    now rewrite N.mul_comm. }
  assert (Hq' : 2 ^ 52 <= q').
  { subst q'. match goal with |- context [if ?b then _ else _] => destruct b end; lia. }
  rewrite N.shiftl_mul_pow2.
  assert (Hsh : 2 ^ 1 <= 2 ^ sh) by (apply N.pow_le_mono_r; subst sh; lia).
  change (2 ^ 53) with (2 ^ 52 * 2 ^ 1).
  now apply N.mul_le_mono.
Qed.

Lemma rounds_to_safe x d :
  x < 2 ^ 53 -> Number.rounds_to x d = true -> d = x.
Proof.
  intros Hx. unfold Number.rounds_to. intros H.
  apply andb_true_iff in H as [_ H].
  destruct (Number.round d) as [y|] eqn:E; [|discriminate].
  apply N.eqb_eq in H. subst y.
  destruct (N.le_gt_cases (N.size d) 53) as [Hle|Hgt].
  - unfold Number.round in E. apply N.leb_le in Hle. rewrite Hle in E.
    congruence.
  - pose proof (round_large d x Hgt E). lia.
Qed.

Lemma candidate_safe x e d :
  x < 2 ^ 53 -> Number.candidate x e = Some d -> d = x.
Proof.
  intros Hx. unfold Number.candidate.
  set (p := 10 ^ N.of_nat e). set (lo := x / p * p). set (hi := lo + p).
  destruct (Number.rounds_to x lo) eqn:E1, (Number.rounds_to x hi) eqn:E2;
    intros [= <-]; try discriminate.
  - apply (rounds_to_safe x lo Hx) in E1. apply (rounds_to_safe x hi Hx) in E2.
    repeat destruct (_ <? _); try destruct (N.even _); congruence.
  - now apply rounds_to_safe.
  - now apply rounds_to_safe.
Qed.

Lemma shortest_safe x e : x < 2 ^ 53 -> Number.shortest x e = x.
Proof.
  intros Hx. induction e as [|e IH]; cbn [Number.shortest].
  - destruct (Number.candidate x 0) as [d|] eqn:E; [|reflexivity].
    now apply (candidate_safe x 0%nat d Hx).
  - destruct (Number.candidate x (S e)) as [d|] eqn:E; [|exact IH].
    now apply (candidate_safe x (S e) d Hx).
Qed.

Lemma digits_go_length fuel : forall n acc k,
  n < 10 ^ N.of_nat (S k) ->
  (length (digits_go fuel n acc) <= S k + length acc)%nat.
Proof.
  induction fuel as [|fuel IH]; intros n acc k Hn; cbn [digits_go]; [lia|].
  destruct (N.ltb_spec n 10) as [Hlt|Hge]; [cbn; lia|].
  destruct k as [|k]; [cbn in Hn; lia|].
  assert (Hd : n / 10 < 10 ^ N.of_nat (S k)).
  { apply N.Div0.div_lt_upper_bound.
    rewrite (Nat2N.inj_succ (S k)), N.pow_succ_r' in Hn. exact Hn. }
  specialize (IH (n / 10) ((48 + n mod 10) :: acc) k Hd). cbn in IH |- *. lia.
Qed.

Lemma dec_length n k : n < 10 ^ N.of_nat (S k) -> (length (dec n) <= S k)%nat.
Proof.
  intros H. unfold dec.
  pose proof (digits_go_length (S (N.size_nat n)) n [] k H) as L.
  cbn [length] in L. lia.
Qed.

(** The integers that are safe, below [2^53] in size, print as their
    decimal digits. *)
Lemma toString_safe (z : Z) :
  (Z.abs z < 2 ^ 53)%Z ->
  to_string (VNum z)
  = (if (z <? 0)%Z then [45] else []) ++ dec (Z.abs_N z).
Proof.
  intros Hz. unfold to_string, Number.toString.
  assert (Hm : Z.abs_N z < 2 ^ 53).
  { apply N2Z.inj_lt. rewrite N2Z.inj_abs_N. exact Hz. }
  rewrite (round_safe _ Hm).
  destruct (N.eqb_spec (Z.abs_N z) 0) as [E|E].
  - destruct z; try discriminate E. reflexivity.
  - rewrite (shortest_safe _ _ Hm).
    assert (L : (length (dec (Z.abs_N z)) <= 16)%nat).
    { apply dec_length. change (10 ^ N.of_nat 16) with 10000000000000000.
      change (2 ^ 53) with 9007199254740992 in Hm. lia. }
    destruct (Nat.leb_spec (length (dec (Z.abs_N z))) 21) as [_|H]; [reflexivity|lia].
Qed.

(** X3. A [filePath] that is not a string (an integer, a boolean, [null],
    or none) is not rejected as such: both handlers of [src/index.ts] pass
    it to [fs.existsSync], which answers [false], and throw
    [File not found:] followed by the value as the template literal prints
    it, after that check only.  The handler of the README answers the same error as a text
    block when the value is truthy, and [Missing required argument] with
    the world untouched when it is falsy. *)
Theorem path_of_wrong_type_is_not_found (sc : Script) (a : arguments)
    (w : World) :
  (forall p, prop a "filePath" <> VStr p) ->
  let v := prop a "filePath" in
  let e := McpError InvalidRequest (js "File not found: " ++ to_string v) in
  Server.callTool sc (js "preview_file") (Some a) w
  = (Throw e, logged (EExistsSync v) w)
  /\ Server.callTool sc (js "analyze_content") (Some a) w
     = (Throw e, logged (EExistsSync v) w)
  /\ (falsy v = false ->
      Wrapper.callTool sc (js "preview_file") (Some a) w
      = (Ok (ErrorText e), logged (EExistsSync v) w)
      /\ Wrapper.callTool sc (js "analyze_content") (Some a) w
         = (Ok (ErrorText e), logged (EExistsSync v) w))
  /\ (falsy v = true ->
      Wrapper.callTool sc (js "preview_file") (Some a) w
      = (Ok (ErrorText Wrapper.missing_argument), w)
      /\ Wrapper.callTool sc (js "analyze_content") (Some a) w
         = (Ok (ErrorText Wrapper.missing_argument), w)).
Proof.
  intros Hv v e. subst v e.
  unfold Server.callTool, Wrapper.callTool.
  rewrite (jseqb_true (js "preview_file")) by reflexivity.
  rewrite (jseqb_false (js "analyze_content") (js "preview_file"))
    by (vm_compute; discriminate).
  rewrite (jseqb_true (js "analyze_content")) by reflexivity.
  unfold Server.handlePreviewFile, Server.handleAnalyzeContent,
    Server.destructure, Wrapper.previewFile. run.
  split; [now rewrite previewFile_not_a_path|].
  split; [now rewrite analyzeContent_not_a_path|].
  split; intros ->; split;
    rewrite ?previewFile_not_a_path, ?analyzeContent_not_a_path by assumption;
    reflexivity.
Qed.

Lemma path_of_wrong_type_is_not_found_witness :
  let a : arguments := {[ js "filePath" := VNum 42 ]} in
  (forall p, prop a "filePath" <> VStr p)
  /\ Server.callTool Sample.good (js "preview_file") (Some a) Sample.world
     = (Throw (McpError InvalidRequest (js "File not found: 42")),
        logged (EExistsSync (VNum 42)) Sample.world).
Proof.
  intros a.
  assert (H : forall p, prop a "filePath" <> VStr p)
    by (intros p; vm_compute; discriminate).
  split; [exact H|].
  exact (proj1 (path_of_wrong_type_is_not_found Sample.good a Sample.world H)).
Defined.

Example large_number_as_path :
  fst (Server.callTool Sample.good (js "preview_file")
         (Some {[ js "filePath" := VNum (10 ^ 21) ]}) Sample.world)
  = Throw (McpError InvalidRequest (js "File not found: 1e+21")).
Proof. vm_compute. reflexivity. Qed.

(** ** The handler of the README catches *)

(** X4. The handler of tool calls of the README never throws: whatever
    the name, the arguments, the files and the engine do, it returns a
    text block.  A call without arguments is answered
    [No arguments provided] and a call of an unknown tool is answered with
    the [MethodNotFound] error as a text block, the world untouched in
    both cases; the handler of [src/index.ts] throws a [TypeError] for a
    listed tool called without arguments. *)
Theorem readme_handler_answers_every_call (sc : Script) (name : jsstring)
    (args : option arguments) (w : World) :
  (exists t, fst (Wrapper.callTool sc name args w) = Ok t)
  /\ Wrapper.callTool sc name None w
     = (Ok (ErrorText (JsError (js "No arguments provided"))), w)
  /\ (forall a, name ∉ map tool_name listTools ->
      Wrapper.callTool sc name (Some a) w
      = (Ok (ErrorText (McpError MethodNotFound (js "Unknown tool: " ++ name))),
         w))
  /\ (name ∈ map tool_name listTools ->
      Server.callTool sc name None w = (Throw TypeError, w)).
Proof.
  split; [|split; [reflexivity | split]].
  - unfold Wrapper.callTool, try_catch.
    match goal with
    | |- exists t, fst (match ?x with _ => _ end) = _ =>
        destruct x as [[t|e] w']
    end; cbn; eauto.
  - intros a Hn. unfold Wrapper.callTool. run.
    rewrite !jseqb_false; [reflexivity| |]; intros ->; apply Hn; cbn.
    + right. left.
    + left.
  - intros Hin. cbn in Hin.
    apply elem_of_cons in Hin as [->|Hin];
      [|apply list_elem_of_singleton in Hin as ->]; reflexivity.
Qed.

(** X5. On every call other than [preview_file], with a truthy
    [filePath] where the call is [analyze_content], the two
    implementations agree: the handler of the README leaves the world that
    the handler of [src/index.ts] leaves, and answers what that one
    answers, or the error that that one throws as a text block. *)
Theorem implementations_agree_on_analysis (sc : Script) (name : jsstring)
    (a : arguments) (w : World) :
  name <> js "preview_file" ->
  (name = js "analyze_content" -> falsy (prop a "filePath") = false) ->
  Wrapper.callTool sc name (Some a) w
  = caught (Server.callTool sc name (Some a) w).
Proof.
  intros Hn Hf. unfold Wrapper.callTool, Server.callTool, caught.
  rewrite jseqb_false by assumption.
  destruct (jseqb name (js "analyze_content")) eqn:E; [|reflexivity].
  apply bool_decide_eq_true in E. rewrite (Hf E).
  unfold Server.handleAnalyzeContent, Server.destructure. run.
  now destruct (analyzeContent _ w) as [[r|e] w'].
Qed.

Lemma implementations_agree_on_analysis_witness :
  let name := js "analyze_content" in
  let a : arguments := {[ js "filePath" := VStr (js "/site/pages/about.html") ]} in
  (name <> js "preview_file"
   /\ (name = js "analyze_content" -> falsy (prop a "filePath") = false))
  /\ Wrapper.callTool Sample.good name (Some a) Sample.world
     = caught (Server.callTool Sample.good name (Some a) Sample.world).
Proof.
  intros name a.
  assert (H1 : name <> js "preview_file") by (vm_compute; discriminate).
  assert (H2 : name = js "analyze_content" -> falsy (prop a "filePath") = false)
    by (intros _; vm_compute; reflexivity).
  split; [split; assumption|].
  exact (implementations_agree_on_analysis Sample.good name a Sample.world H1 H2).
Defined.

(** ** Failures of the engine *)

(** X6. A launch of the engine that fails is not remembered: the call
    throws the error of the launch after the existence check and the
    launch only, [this.browser] stays empty, and the next acquisition
    launches again. *)
Theorem failed_launch_is_tried_again (base : jsstring) (sc sc' : Script)
    (p : jsstring) (width height : jsval) (w : World) (e : entry) :
  entry_at w p = Some e ->
  browser w = None ->
  launch_ok sc = false ->
  let r := previewFile base sc (VStr p) width height w in
  r = (Throw (EngineError CLaunch),
       logged ELaunch (logged (EExistsSync (VStr p)) w))
  /\ (launch_ok sc' = true ->
      fst (initBrowser sc' (snd r)) = Ok (fresh w)
      /\ browser (snd (initBrowser sc' (snd r))) = Some (fresh w)
      /\ engines (snd (initBrowser sc' (snd r))) = fresh w :: engines w).
Proof.
  unfold entry_at. intros H Hb Hl.
  assert (Hr : previewFile base sc (VStr p) width height w
               = (Throw (EngineError CLaunch),
                  logged ELaunch (logged (EExistsSync (VStr p)) w))).
  { unfold previewFile. prims. run. cbn.
    rewrite H. cbn. rewrite Hb. cbn. rewrite Hl. reflexivity. }
  cbv zeta. rewrite Hr. split; [reflexivity|].
  intros Hl'. rewrite initBrowser_first by assumption. cbn. auto.
Qed.

Lemma failed_launch_is_tried_again_witness :
  let p := js "/site/pages/about.html" in
  let sc := Failing.no_engine in
  (entry_at Sample.world p = Some (File Sample.html)
   /\ browser Sample.world = None
   /\ launch_ok sc = false)
  /\ previewFile Server.base sc (VStr p) (VNum 1024) (VNum 768) Sample.world
     = (Throw (EngineError CLaunch),
        logged ELaunch (logged (EExistsSync (VStr p)) Sample.world)).
Proof.
  intros p sc.
  assert (H1 : entry_at Sample.world p = Some (File Sample.html))
    by (vm_compute; reflexivity).
  assert (H2 : browser Sample.world = None) by reflexivity.
  assert (H3 : launch_ok sc = false) by reflexivity.
  split; [repeat split; assumption|].
  exact (proj1 (failed_launch_is_tried_again Server.base sc Sample.good p
                  (VNum 1024) (VNum 768) Sample.world _ H1 H2 H3)).
Defined.

(** X7. When the navigation exceeds its 30000 ms, the call throws the
    timeout error; the calls made are the existence check, the creation of
    the page, the viewport, the two settings, the navigation to
    [file://] followed by the path as given, and the closing of the page:
    no stylesheet is read and the file system is unchanged. *)
Theorem navigation_timeout (base : jsstring) (sc : Script)
    (p : jsstring) (width height : jsval) (w : World) (e : entry) (h : nat) :
  entry_at w p = Some e ->
  browser w = Some h ->
  newPage_ok sc = true -> setViewport_ok sc = true ->
  setBypassCSP_ok sc = true -> setExtraHTTPHeaders_ok sc = true ->
  goto_result sc = TimedOut ->
  close_ok sc = true ->
  let r := previewFile base sc (VStr p) width height w in
  fst r = Throw TimeoutError
  /\ events_since w (snd r)
     = [EExistsSync (VStr p); ENewPage;
        ESetViewport (fresh w) width height;
        ESetBypassCSP (fresh w); ESetExtraHTTPHeaders (fresh w);
        EGoto (fresh w) (js "file://" ++ p); EClose (fresh w)]
  /\ fs (snd r) = fs w
  /\ pages (snd r) = filter (fun q => q <> fresh w) (pages w ++ [fresh w]).
Proof.
  unfold entry_at. intros H Hb Hn Hv Hc Hh Hg Hclose.
  unfold previewFile. prims. run. cbn.
  rewrite H. cbn. rewrite Hb. cbn. rewrite Hn. cbn. rewrite Hv. cbn.
  rewrite Hc. cbn. rewrite Hh. cbn. rewrite Hg. cbn. rewrite Hclose. cbn.
  split; [reflexivity|]. split; [|split; reflexivity].
  apply events_since_app. cbn. now rewrite <- !app_assoc.
Qed.

Lemma navigation_timeout_witness :
  let p := js "/site/pages/about.html" in
  (entry_at Running.world p = Some (File Sample.html)
   /\ browser Running.world = Some 0%nat
   /\ newPage_ok Run.timeout = true /\ setViewport_ok Run.timeout = true
   /\ setBypassCSP_ok Run.timeout = true
   /\ setExtraHTTPHeaders_ok Run.timeout = true
   /\ goto_result Run.timeout = TimedOut
   /\ close_ok Run.timeout = true)
  /\ fst (previewFile Server.base Run.timeout (VStr p) (VNum 1024) (VNum 768)
            Running.world)
     = Throw TimeoutError.
Proof.
  intros p.
  assert (H1 : entry_at Running.world p = Some (File Sample.html))
    by (vm_compute; reflexivity).
  split; [repeat split; try reflexivity; exact H1|].
  exact (proj1 (navigation_timeout Server.base Run.timeout p (VNum 1024)
                  (VNum 768) Running.world _ 0%nat H1 eq_refl eq_refl eq_refl
                  eq_refl eq_refl eq_refl eq_refl)).
Defined.

(** X8. An error of [page.close()] in the [finally] clause replaces the
    outcome of the body: once the viewport is set, a call whose
    [page.close()] fails throws the error of the close whatever the body
    has done, also when the screenshot has been written, and the page
    stays open. *)
Theorem failing_close_replaces_the_outcome (base : jsstring) (sc : Script)
    (p : jsstring) (width height : jsval) (w : World) (e : entry) (h : nat) :
  entry_at w p = Some e ->
  browser w = Some h ->
  newPage_ok sc = true -> setViewport_ok sc = true ->
  close_ok sc = false ->
  let r := previewFile base sc (VStr p) width height w in
  fst r = Throw (EngineError CClose)
  /\ pages (snd r) = pages w ++ [fresh w]
  /\ last (trace (snd r)) = Some (EClose (fresh w)).
Proof.
  unfold entry_at. intros H Hb Hn Hv Hclose.
  unfold previewFile. prims. run. cbn.
  rewrite H. cbn. rewrite Hb. cbn. rewrite Hn. cbn. rewrite Hv. cbn.
  repeat step.
  all: split; [reflexivity|]; split; [reflexivity|]; apply last_snoc.
Qed.

Lemma failing_close_replaces_the_outcome_witness :
  let p := js "/site/pages/about.html" in
  let r := previewFile Server.base Failing.bad_close (VStr p) (VNum 1024)
             (VNum 768) Running.world in
  (entry_at Running.world p = Some (File Sample.html)
   /\ browser Running.world = Some 0%nat
   /\ newPage_ok Failing.bad_close = true
   /\ setViewport_ok Failing.bad_close = true
   /\ close_ok Failing.bad_close = false)
  /\ fst r = Throw (EngineError CClose)
  /\ entry_at (snd r)
       (js "/Users/seanivore/Documents/Cline/MCP/mcp-file-preview/screenshots/about_1700000000000.png")
     = Some (File (js "PNG")).
Proof.
  intros p r.
  assert (H1 : entry_at Running.world p = Some (File Sample.html))
    by (vm_compute; reflexivity).
  split; [repeat split; try reflexivity; exact H1|].
  split; [|vm_compute; reflexivity].
  exact (proj1 (failing_close_replaces_the_outcome Server.base Failing.bad_close
                  p (VNum 1024) (VNum 768) Running.world _ 0%nat H1 eq_refl
                  eq_refl eq_refl eq_refl)).
Defined.

(** ** The pages over a run of calls *)

Lemma filter_fresh (l : list nat) (n : nat) :
  Forall (fun q => (q < n)%nat) l ->
  filter (fun q => q <> n) (l ++ [n]) = l.
Proof.
  intros H. rewrite filter_app.
  replace (filter (fun q => q <> n) [n]) with (@nil nat).
  - rewrite app_nil_r. induction H as [|q l Hq H IH]; [reflexivity|].
    rewrite filter_cons. destruct (decide (q <> n)) as [_|Hn].
    + now rewrite IH.
    + destruct Hn. lia.
  - rewrite filter_cons. destruct (decide (n <> n)); [congruence | reflexivity].
Qed.

Lemma handles_later (l : list nat) (n m : nat) :
  (n <= m)%nat -> Forall (fun q => (q < n)%nat) l ->
  Forall (fun q => (q < m)%nat) l.
Proof. intros Hn H. eapply Forall_impl; [exact H|]. intros q Hq. cbn in *. lia. Qed.

Lemma previewFile_pages base sc v width height w :
  handles_ok w -> setViewport_ok sc = true -> close_ok sc = true ->
  pages (snd (previewFile base sc v width height w)) = pages w
  /\ handles_ok (snd (previewFile base sc v width height w)).
Proof.
  unfold handles_ok. intros H Hv Hc.
  unfold previewFile. prims. run. cbn.
  repeat step.
  all: cbn; rewrite ?Hv, ?Hc; cbn.
  all: rewrite ?filter_fresh
         by (assumption || (apply (handles_later _ (fresh w)); [lia | assumption])).
  all: split; [reflexivity | apply (handles_later _ (fresh w)); [lia | assumption]].
Qed.

Lemma analyzeContent_pages v w :
  pages (snd (analyzeContent v w)) = pages w
  /\ fresh (snd (analyzeContent v w)) = fresh w.
Proof.
  unfold analyzeContent. prims. run. cbn.
  repeat step; split; reflexivity.
Qed.

Lemma serve_pages w r :
  handles_ok w -> page_is_released r ->
  pages (serve w r) = pages w /\ handles_ok (serve w r).
Proof.
  intros H [Hv Hc]. unfold serve. rewrite callTool_snd.
  destruct (jseqb _ _).
  { destruct (req_args r); [now apply previewFile_pages | now split]. }
  destruct (jseqb _ _); [|now split].
  destruct (req_args r) as [a|]; [|now split].
  destruct (analyzeContent_pages (prop a "filePath") w) as [Hp Hf].
  split; [assumption|]. unfold handles_ok. now rewrite Hp, Hf.
Qed.

(** X9. No page outlives its call: over any run of tool calls in which
    the engine accepts every viewport and closes every page, the pages
    open after the run are the pages open before it, whatever else fails
    in the calls. *)
Theorem no_page_outlives_its_call (rs : list request) (w : World) :
  handles_ok w -> Forall page_is_released rs ->
  pages (serve_all w rs) = pages w /\ handles_ok (serve_all w rs).
Proof.
  unfold serve_all. revert w.
  induction rs as [|r rs IH]; intros w H Hrs; cbn; [now split|].
  inversion Hrs as [|? ? Hr Hrs']; subst.
  destruct (serve_pages w r H Hr) as [Hp Hh].
  destruct (IH (serve w r) Hh Hrs') as [Hp' Hh'].
  split; [congruence | assumption].
Qed.

Lemma no_page_outlives_its_call_witness :
  (handles_ok Sample.world /\ Forall page_is_released Run.calls)
  /\ pages (serve_all Sample.world Run.calls) = pages Sample.world.
Proof.
  assert (H1 : handles_ok Sample.world) by constructor.
  assert (H2 : Forall page_is_released Run.calls)
    by (repeat constructor).
  split; [split; assumption|].
  exact (proj1 (no_page_outlives_its_call Run.calls Sample.world H1 H2)).
Defined.

(** ** The calls of a successful preview *)

Lemma previewFile_trace base sc p width height w r w' :
  previewFile base sc (VStr p) width height w = (Ok r, w') ->
  exists page mainCss pageCss,
    Fs.stat (fs w) (cwd w) (mainCssPath p) = inr (File mainCss)
    /\ Fs.stat (fs w) (cwd w) (pageCssPath p) = inr (File pageCss)
    /\ r = (screenshotPath base p (now sc), default [] (content_result sc))
    /\ is_Some (content_result sc)
    /\ trace w'
       = trace w
         ++ preview_calls base p width height page mainCss pageCss (now sc)
              (bool_decide (browser w = None))
              (bool_decide (Fs.lookup (fs w) (cwd w) (screenshotsDir base) = None)).
Proof.
  unfold previewFile. prims. run. cbn.
  repeat step; intros H; try discriminate H.
  all: injection H as <- <-; cbn.
  all: do 3 eexists.
  all: split; [reflexivity|]; split; [reflexivity|].
  all: split; [reflexivity|]; split; [eauto|].
  all: rewrite <- ?app_assoc; reflexivity.
Qed.

(** X10. The calls of a successful [previewFile] are, in this order: the
    existence check; the launch, when no engine is held; the creation of
    the page, the viewport as given, the two settings, the navigation to
    [file://] followed by the path; the reads of the shared and of the
    per-page stylesheet and their injection, the shared one first, with
    the data of the two files; the wait for the images and the delay of
    1000 ms; the check of the directory of the screenshots and its
    creation when it is absent; the clock, the screenshot, the reading of
    the content, which is the second part of the result; and the closing
    of the page. *)
Theorem calls_of_a_successful_preview (base : jsstring) (sc : Script)
    (p : jsstring) (width height : jsval) (w w' : World)
    (r : jsstring * jsstring) :
  previewFile base sc (VStr p) width height w = (Ok r, w') ->
  exists page mainCss pageCss,
    entry_at w (mainCssPath p) = Some (File mainCss)
    /\ entry_at w (pageCssPath p) = Some (File pageCss)
    /\ content_result sc = Some (snd r)
    /\ events_since w w'
       = preview_calls base p width height page mainCss pageCss (now sc)
           (bool_decide (browser w = None))
           (bool_decide (entry_at w (screenshotsDir base) = None)).
Proof.
  intros H.
  destruct (previewFile_trace _ _ _ _ _ _ _ _ H)
    as (page & mainCss & pageCss & Hm & Hp & -> & [html Hc] & Ht).
  exists page, mainCss, pageCss. unfold entry_at.
  rewrite (events_since_app _ _ _ Ht), Hc.
  apply lookup_stat in Hm, Hp. tauto.
Qed.

Lemma calls_of_a_successful_preview_witness :
  let p := js "/site/pages/about.html" in
  let run := previewFile Server.base Sample.good (VStr p) (VNum 1024)
               (VNum 768) Sample.world in
  let r := (screenshotPath Server.base p 1700000000000, js "<html></html>") in
  run = (Ok r, snd run)
  /\ exists page mainCss pageCss,
       entry_at Sample.world (mainCssPath p) = Some (File mainCss)
       /\ entry_at Sample.world (pageCssPath p) = Some (File pageCss)
       /\ content_result Sample.good = Some (snd r)
       /\ events_since Sample.world (snd run)
          = preview_calls Server.base p (VNum 1024) (VNum 768) page mainCss
              pageCss (now Sample.good)
              (bool_decide (browser Sample.world = None))
              (bool_decide (entry_at Sample.world (screenshotsDir Server.base)
                            = None)).
Proof.
  intros p run r.
  assert (Hf : fst run = Ok r) by (vm_compute; reflexivity).
  assert (H : run = (Ok r, snd run))
    by (rewrite <- Hf; apply surjective_pairing).
  split; [exact H|].
  exact (calls_of_a_successful_preview Server.base Sample.good p (VNum 1024)
           (VNum 768) Sample.world (snd run) r H).
Defined.

(** ** Where the screenshot is written *)

Lemma components_name_rooted ns : forall n,
  (Path.slash ∉ n) -> Forall (fun c => Path.slash ∉ c) ns ->
  Path.components (n ++ rooted ns) = n :: ns.
Proof.
  induction ns as [|m ms IH]; intros n Hn Hns.
  - cbn. rewrite app_nil_r. now apply components_no_slash.
  - inversion Hns as [|? ? Hm Hms]; subst.
    change (rooted (m :: ms)) with (Path.slash :: m ++ rooted ms).
    rewrite components_app_slash, (components_no_slash n), IH by assumption.
    reflexivity.
Qed.

Lemma components_rooted ns :
  Forall (fun c => Path.slash ∉ c) ns -> ns <> [] ->
  Path.components (rooted ns) = [] :: ns.
Proof.
  destruct ns as [|n ns]; [contradiction|]. intros H _.
  inversion H as [|? ? Hn Hns]; subst.
  change (rooted (n :: ns)) with ([] ++ Path.slash :: n ++ rooted ns).
  rewrite components_app_slash, components_name_rooted by assumption.
  reflexivity.
Qed.

Lemma norm_segments_proper b ns :
  Forall proper_name ns -> Path.norm_segments b ([] :: ns) = ns.
Proof.
  induction ns as [|c ns IH] using rev_ind; intros H; [reflexivity|].
  apply Forall_app in H as [Hns Hc]. inversion Hc; subst.
  change ([] :: ns ++ [c]) with (([] :: ns) ++ [c]).
  rewrite norm_segments_snoc by assumption. now rewrite IH.
Qed.

Lemma render_rooted ns :
  ns <> [] -> Path.slash :: Path.render ns = rooted ns.
Proof.
  induction ns as [|x [|y l] IH]; intros H; [contradiction| |].
  - cbn. now rewrite app_nil_r.
  - change (Path.render (x :: y :: l))
      with (x ++ Path.slash :: Path.render (y :: l)).
    rewrite IH by discriminate. reflexivity.
Qed.

Lemma rooted_snoc ns n : rooted (ns ++ [n]) = rooted ns ++ Path.slash :: n.
Proof.
  unfold rooted. rewrite map_app, concat_app. cbn. now rewrite app_nil_r.
Qed.

Lemma proper_no_slash ns :
  Forall proper_name ns -> Forall (fun c => Path.slash ∉ c) ns.
Proof. intros H. eapply Forall_impl; [exact H|]. now intros c (_ & Hc & _). Qed.

Lemma normalize_rooted ns :
  Forall proper_name ns -> ns <> [] ->
  Path.normalize (rooted ns) = rooted ns.
Proof.
  intros Hp Hne.
  assert (Ht : Path.trailing_slash (rooted ns) = false).
  { destruct ns as [|c l _] using rev_ind; [contradiction|].
    apply Forall_app in Hp as [_ Hc]. inversion Hc; subst.
    apply (ends_in_no_trailing_slash _ c); [assumption|].
    right. exists (rooted l). apply rooted_snoc. }
  assert (Ha : Path.is_absolute (rooted ns) = true).
  { destruct ns; [contradiction | reflexivity]. }
  unfold Path.normalize.
  destruct (rooted ns) as [|c0 rest] eqn:E; [now destruct ns|].
  rewrite <- E in *. rewrite Ha, Ht. cbn [negb].
  rewrite components_rooted, norm_segments_proper
    by (assumption || now apply proper_no_slash).
  pose proof (render_rooted ns Hne) as Hr.
  destruct (Path.render ns) eqn:Er; [|assumption].
  destruct ns as [|x [|y l]]; [contradiction| |].
  - cbn in Er. subst x. inversion Hp as [|? ? Hx _]; subst.
    now destruct Hx as [Hx _].
  - cbn in Er. now destruct x.
Qed.

Lemma join_rooted ns n :
  Forall proper_name ns -> ns <> [] -> proper_name n ->
  Path.join [rooted ns; n] = rooted ns ++ Path.slash :: n.
Proof.
  intros Hp Hne Hn. unfold Path.join.
  assert (Hf : filter (fun c => Path.nonempty c = true) [rooted ns; n]
               = [rooted ns; n]).
  { destruct ns as [|x l]; [contradiction|].
    destruct n; [now destruct Hn|]. reflexivity. }
  rewrite Hf. cbn [Path.render]. rewrite <- rooted_snoc.
  apply normalize_rooted; [|now destruct ns].
  apply Forall_app. split; [assumption | now constructor].
Qed.

Lemma bases_are_rooted base :
  base = Server.base \/ base = Wrapper.base ->
  exists ns, base = rooted ns /\ Forall proper_name ns /\ ns <> [].
Proof.
  intros [-> | ->].
  - exists [js "Users"; js "seanivore"; js "Documents"; js "Cline"; js "MCP";
            js "mcp-file-preview"].
    split; [reflexivity|]. split; [|discriminate].
    refine (bool_decide_unpack (Forall proper_name _) _). vm_compute. exact I.
  - exists [js "Users"; js "seanivore"; js "Projects"; js "mcp-file-preview"].
    split; [reflexivity|]. split; [|discriminate].
    refine (bool_decide_unpack (Forall proper_name _) _). vm_compute. exact I.
Qed.


Lemma screenshots_proper : proper_name (js "screenshots").
Proof.
  refine (bool_decide_unpack (proper_name _) _). vm_compute. exact I.
Qed.

Lemma screenshotPath_rooted ns p t :
  Forall proper_name ns -> ns <> [] -> suffix_removed p (js ".html") ->
  screenshotsDir (rooted ns) = rooted (ns ++ [js "screenshots"])
  /\ screenshotPath (rooted ns) p t
     = rooted (ns ++ [js "screenshots"]) ++ Path.slash :: screenshotName p t.
Proof.
  intros Hp Hne Hs.
  assert (Hd : screenshotsDir (rooted ns) = rooted (ns ++ [js "screenshots"])).
  { unfold screenshotsDir.
    rewrite join_rooted by (assumption || apply screenshots_proper).
    now rewrite rooted_snoc. }
  split; [assumption|].
  unfold screenshotPath. rewrite Hd. apply join_rooted.
  - apply Forall_app. split; [assumption|].
    constructor; [apply screenshots_proper | constructor].
  - now destruct ns.
  - now apply screenshotName_proper.
Qed.




Lemma components_length p :
  Forall (fun c => (length c <= length p)%nat) (Path.components p).
Proof.
  induction p as [|c p IH]; cbn.
  - constructor; [cbn; lia | constructor].
  - assert (IH' : Forall (fun x => (length x <= S (length p))%nat)
                    (Path.components p)).
    { eapply Forall_impl; [exact IH|]. cbn. intros; lia. }
    destruct (c =? Path.slash).
    + constructor; [cbn; lia | assumption].
    + destruct (Path.components p) as [|x xs]; inversion IH; subst.
      * constructor; [cbn; lia | constructor].
      * inversion IH'; subst. constructor; [cbn; lia | assumption].
Qed.

Lemma basename_length p : (length (Path.basename p) <= length p)%nat.
Proof.
  unfold Path.basename.
  destruct (last _) as [c|] eqn:E; cbn; [|lia].
  apply last_Some in E as [l E].
  assert (Hin : c ∈ filter (fun c => Path.nonempty c = true) (Path.components p))
    by (rewrite E; apply elem_of_app; right; left).
  apply list_elem_of_filter in Hin as [_ Hin].
  pose proof (components_length p) as H.
  rewrite Forall_forall in H. now apply H.
Qed.

Lemma trailing_slashes_none p :
  Path.trailing_slash p = false -> Path.trailing_slashes p = [].
Proof.
  unfold Path.trailing_slashes, Path.trailing_slash.
  destruct p as [|c l _] using rev_ind; [reflexivity|].
  rewrite last_snoc, rev_unit. cbn. now intros ->.
Qed.

(** For a path that does not end with a separator, the name without the
    suffix is computed from the last portion. *)
Lemma basename_ext_plain p ext :
  Path.trailing_slash p = false -> p <> ext ->
  Path.basename_ext p ext
  = let b := Path.basename p in
    if Path.ends_with b ext
    then (if jseqb b ext then b else take (length b - length ext) b)
    else b.
Proof.
  intros Ht Hne. cbv zeta. unfold Path.basename_ext.
  rewrite (jseqb_false p ext) by assumption.
  rewrite (trailing_slashes_none p Ht), app_nil_r.
  destruct (Path.nonempty ext && (length ext <=? length p)%nat) eqn:E.
  - now destruct (Path.ends_with (Path.basename p) ext),
      (Path.ends_with ext (Path.basename p)).
  - destruct (Path.ends_with (Path.basename p) ext) eqn:E2; [|reflexivity].
    unfold Path.ends_with in E2. apply andb_true_iff in E2 as [E2 E3].
    apply bool_decide_eq_true in E2. apply Nat.leb_le in E3.
    apply andb_false_iff in E as [E|E].
    + destruct ext; [|discriminate]. rewrite Nat.sub_0_r, drop_all in E2.
      cbn. rewrite Nat.sub_0_r, firstn_all.
      now destruct (jseqb _ _).
    + apply Nat.leb_gt in E. pose proof (basename_length p). lia.
Qed.

(** X12. The name of the screenshot is made of the last portion of the
    input path and of the clock only: two input paths with the same last
    portion (neither ends with a separator, neither is [.html] itself)
    give, at the same clock value, the same screenshot path, in whatever
    directories the two files are. *)
Theorem same_name_same_screenshot (base p q : jsstring) (t : N) :
  Path.trailing_slash p = false -> Path.trailing_slash q = false ->
  p <> js ".html" -> q <> js ".html" ->
  Path.basename p = Path.basename q ->
  screenshotName p t = screenshotName q t
  /\ screenshotPath base p t = screenshotPath base q t.
Proof.
  intros Hp Hq Hpn Hqn Hb.
  assert (H : screenshotName p t = screenshotName q t).
  { unfold screenshotName.
    rewrite !basename_ext_plain by assumption. cbv zeta. now rewrite Hb. }
  split; [assumption|]. unfold screenshotPath. now rewrite H.
Qed.

Lemma same_name_same_screenshot_witness :
  let p := js "/site/pages/about.html" in
  let q := js "/blog/about.html" in
  (Path.trailing_slash p = false /\ Path.trailing_slash q = false
   /\ p <> js ".html" /\ q <> js ".html"
   /\ Path.basename p = Path.basename q)
  /\ screenshotPath Server.base p 1700000000000
     = screenshotPath Server.base q 1700000000000.
Proof.
  intros p q.
  assert (H1 : Path.trailing_slash p = false) by reflexivity.
  assert (H2 : Path.trailing_slash q = false) by reflexivity.
  assert (H3 : p <> js ".html") by (vm_compute; discriminate).
  assert (H4 : q <> js ".html") by (vm_compute; discriminate).
  assert (H5 : Path.basename p = Path.basename q) by (vm_compute; reflexivity).
  split; [repeat split; assumption|].
  exact (proj2 (same_name_same_screenshot Server.base p q 1700000000000
                  H1 H2 H3 H4 H5)).
Defined.


(** ** The file system over a run of calls *)

Lemma grows_refl f : grows f f.
Proof. split; eauto. Qed.

Lemma grows_trans f1 f2 f3 : grows f1 f2 -> grows f2 f3 -> grows f1 f3.
Proof.
  intros [H1 H2] [H3 H4]. split; [auto|].
  intros k d Hk. destruct (H2 _ _ Hk) as [d' Hk']. eauto.
Qed.

Lemma grows_mkdir cs : forall f cur f',
  Fs.mkdir_p f cur cs = inr f' -> grows f f'.
Proof.
  intros f cur f' H. split.
  - intros k. now apply (mkdir_p_keeps _ _ _ _ _ _ H).
  - intros k d Hk. exists d. now apply (mkdir_p_keeps _ _ _ _ _ _ H).
Qed.

Lemma grows_write f wd p data f' :
  Fs.write f wd p data = inr f' -> grows f f'.
Proof.
  intros H. apply write_inv in H as (k & _ & Hk & ->). split.
  - intros k' Hk'. rewrite lookup_insert_ne; [assumption | congruence].
  - intros k' d Hk'. destruct (decide (k = k')) as [->|Hne].
    + exists data. apply lookup_insert_eq.
    + exists d. now rewrite lookup_insert_ne.
Qed.

Lemma previewFile_grows base sc v width height w :
  grows (fs w) (fs (snd (previewFile base sc v width height w)))
  /\ cwd (snd (previewFile base sc v width height w)) = cwd w.
Proof.
  unfold previewFile. prims. run. cbn.
  repeat step.
  all: cbn; split; [|reflexivity].
  all: first
    [ apply grows_refl
    | eapply grows_mkdir; eassumption
    | eapply grows_write; eassumption
    | eapply grows_trans;
        [eapply grows_mkdir; eassumption | eapply grows_write; eassumption] ].
Qed.

Lemma serve_grows w r :
  grows (fs w) (fs (serve w r)) /\ cwd (serve w r) = cwd w.
Proof.
  unfold serve. rewrite callTool_snd.
  destruct (jseqb _ _).
  { destruct (req_args r); [apply previewFile_grows | split; [apply grows_refl | reflexivity]]. }
  destruct (jseqb _ _); [|split; [apply grows_refl | reflexivity]].
  destruct (req_args r) as [a|]; [|split; [apply grows_refl | reflexivity]].
  destruct (analyzeContent_run (prop a "filePath") w) as (Hf & Hc & _).
  rewrite Hf, Hc. split; [apply grows_refl | reflexivity].
Qed.

(** X13. Nothing is ever deleted: over any run of tool calls, whether
    they fail or not, every directory of the file system is still a
    directory and every file still a file afterwards, and the working
    directory is the same. *)
Theorem nothing_is_ever_deleted (rs : list request) (w : World) :
  grows (fs w) (fs (serve_all w rs)) /\ cwd (serve_all w rs) = cwd w.
Proof.
  unfold serve_all. revert w.
  induction rs as [|r rs IH]; intros w; cbn;
    [split; [apply grows_refl | reflexivity]|].
  destruct (serve_grows w r) as [Hg Hc].
  destruct (IH (serve w r)) as [Hg' Hc'].
  split; [eapply grows_trans; eassumption | congruence].
Qed.

Lemma grows_lookup f f' wd q :
  grows f f' -> is_Some (Fs.lookup f wd q) -> is_Some (Fs.lookup f' wd q).
Proof.
  intros [Hd Hf] [e He]. apply lookup_stat, stat_inv in He as (k & Hr & Hk).
  assert (Hr' : Fs.resolve f' wd q = inr k).
  { unfold Fs.resolve in *. destruct q; [discriminate|].
    eapply walk_mono; eassumption. }
  unfold Fs.lookup, Fs.stat. rewrite Hr'.
  destruct e as [d|].
  - destruct (Hf _ _ Hk) as [d' ->]. eauto.
  - rewrite (Hd _ Hk). eauto.
Qed.

Lemma previewFile_no_mkdir base sc v width height w :
  is_Some (entry_at w (screenshotsDir base)) ->
  exists evs, trace (snd (previewFile base sc v width height w)) = trace w ++ evs
              /\ Forall (fun e => is_mkdir e = false) evs.
Proof.
  unfold entry_at. intros [e He].
  unfold previewFile. prims. run. cbn.
  repeat step.
  all: try trace_tail.
  all: congruence.
Qed.

Lemma serve_no_mkdir w r :
  is_Some (entry_at w (screenshotsDir Server.base)) ->
  is_Some (entry_at (serve w r) (screenshotsDir Server.base))
  /\ exists evs, trace (serve w r) = trace w ++ evs
                 /\ Forall (fun e => is_mkdir e = false) evs.
Proof.
  intros H. split.
  - destruct (serve_grows w r) as [Hg Hc]. unfold entry_at in *.
    rewrite Hc. eapply grows_lookup; eassumption.
  - unfold serve. rewrite callTool_snd.
    assert (Hnil : exists evs, trace w = trace w ++ evs
                               /\ Forall (fun e => is_mkdir e = false) evs)
      by (exists []; split; [now rewrite app_nil_r | constructor]).
    destruct (jseqb _ _).
    { destruct (req_args r); [now apply previewFile_no_mkdir | assumption]. }
    destruct (jseqb _ _); [|assumption].
    destruct (req_args r) as [a|]; [|assumption].
    destruct (analyzeContent_run (prop a "filePath") w)
      as (_ & _ & _ & _ & _ & _ & evs & Ht & Hf).
    exists evs. split; [assumption|].
    eapply Forall_impl; [exact Hf|]. intros []; cbn; congruence.
Qed.

(** X14. Once the path of the directory of the screenshots references an
    entry, as it does after a first successful preview, no later call of
    the run calls [mkdirSync], and the path goes on referencing an
    entry. *)
Theorem directory_is_not_created_again (rs : list request) (w : World) :
  is_Some (entry_at w (screenshotsDir Server.base)) ->
  Forall (fun e => is_mkdir e = false) (events_since w (serve_all w rs))
  /\ is_Some (entry_at (serve_all w rs) (screenshotsDir Server.base)).
Proof.
  intros H.
  assert (Hgen : is_Some (entry_at (serve_all w rs) (screenshotsDir Server.base))
                 /\ exists evs, trace (serve_all w rs) = trace w ++ evs
                      /\ Forall (fun e => is_mkdir e = false) evs).
  { unfold serve_all. revert w H.
    induction rs as [|r rs IH]; intros w H; cbn.
    - split; [assumption|]. exists []. split; [now rewrite app_nil_r | constructor].
    - destruct (serve_no_mkdir w r H) as (H1 & evs1 & Ht1 & Hf1).
      destruct (IH (serve w r) H1) as (H2 & evs2 & Ht2 & Hf2).
      split; [assumption|]. exists (evs1 ++ evs2). split.
      + now rewrite Ht2, Ht1, app_assoc.
      + now apply Forall_app. }
  destruct Hgen as (H1 & evs & Ht & Hf).
  split; [|assumption]. now rewrite (events_since_app _ _ _ Ht).
Qed.

Lemma directory_is_not_created_again_witness :
  is_Some (entry_at Later.world (screenshotsDir Server.base))
  /\ Forall (fun e => is_mkdir e = false)
       (events_since Later.world (serve_all Later.world Run.calls)).
Proof.
  assert (H : is_Some (entry_at Later.world (screenshotsDir Server.base)))
    by (exists Dir; vm_compute; reflexivity).
  split; [exact H|].
  exact (proj1 (directory_is_not_created_again Run.calls Later.world H)).
Defined.

(** ** The numbers of the analysis and the tag openers *)

Lemma accepts_literal p o : accepts (map Lit p) o <-> o = p.
Proof.
  unfold accepts. revert o. induction p as [|c p IH]; intros o; cbn.
  - split; [now inversion 1 | intros ->; constructor].
  - split.
    + inversion 1 as [|? x ? o' Hx Ho]; subst. cbn in Hx.
      apply N.eqb_eq in Hx as ->. f_equal. now apply IH.
    + intros ->. constructor; [cbn; apply N.eqb_refl | now apply IH].
Qed.

Lemma match_g_bound m pre :
  pre <> [] ->
  (forall s t, m s = Some t -> take (length pre) s = pre) ->
  forall s skip, (length (match_g m skip s) <= occurrences pre s)%nat.
Proof.
  intros Hpre Hm. induction s as [|c s IH]; intros skip.
  - destruct skip; [|cbn; lia]. cbn.
    destruct (m []) eqn:E; [|cbn; lia].
    apply Hm in E. rewrite take_nil in E. congruence.
  - cbn [match_g occurrences]. destruct skip as [|k].
    + destruct (m (c :: s)) as [rest|] eqn:E.
      * rewrite (jseqb_true _ _ (Hm _ _ E)). cbv zeta. cbn [length].
        match goal with
        | |- context [match_g m ?k s] => specialize (IH k)
        end. lia.
      * specialize (IH 0%nat). lia.
    + specialize (IH k). lia.
Qed.

Lemma exec_opener pre r s t :
  exec_here (map (fun c => One (Lit c)) pre ++ r) s = Some t ->
  take (length pre) s = pre.
Proof.
  rewrite <- (map_map Lit One). intros H.
  apply exec_ones in H as (o & s' & -> & Ho & _).
  apply accepts_literal in Ho as ->. apply take_app_length.
Qed.

Lemma count_bound pre r content :
  pre <> [] ->
  (count (map (fun c => One (Lit c)) pre ++ r) content
   <= occurrences pre content)%nat.
Proof.
  intros Hpre. unfold count. apply match_g_bound; [assumption|].
  intros s t. apply exec_opener.
Qed.

Lemma occurrences_none c pre s :
  c ∉ s -> occurrences (c :: pre) s = 0%nat.
Proof.
  induction s as [|x s IH]; intros H; [reflexivity|].
  apply not_elem_of_cons in H as [Hx H]. cbn [occurrences].
  rewrite IH by assumption. rewrite jseqb_false; [reflexivity|].
  cbn. congruence.
Qed.

(** X15. Every match that [analyzeContent] counts begins at a place of
    its own where the opener of its pattern stands: the number of headings
    is at most the number of places where [<h] stands in the content, and
    the same for paragraphs and [<p], images and [<img], links and [<a].
    A content without [<], the empty one included, is analysed as four
    zeros. *)
Theorem counts_are_bounded_by_the_openers (content : jsstring) :
  (headings (analyze content) <= occurrences (js "<h") content)%nat
  /\ (paragraphs (analyze content) <= occurrences (js "<p") content)%nat
  /\ (images (analyze content) <= occurrences (js "<img") content)%nat
  /\ (links (analyze content) <= occurrences (js "<a") content)%nat
  /\ (60 ∉ content -> analyze content = Analysis 0 0 0 0).
Proof.
  assert (Hh : (headings (analyze content) <= occurrences (js "<h") content)%nat)
    by (apply (count_bound (js "<h")); discriminate).
  assert (Hp : (paragraphs (analyze content) <= occurrences (js "<p") content)%nat)
    by (apply (count_bound (js "<p")); discriminate).
  assert (Hi : (images (analyze content) <= occurrences (js "<img") content)%nat)
    by (apply (count_bound (js "<img")); discriminate).
  assert (Hl : (links (analyze content) <= occurrences (js "<a") content)%nat)
    by (apply (count_bound (js "<a")); discriminate).
  repeat (split; [assumption|]).
  intros Hn.
  change (js "<h") with (60 :: js "h") in Hh.
  change (js "<p") with (60 :: js "p") in Hp.
  change (js "<img") with (60 :: js "img") in Hi.
  change (js "<a") with (60 :: js "a") in Hl.
  rewrite occurrences_none in Hh, Hp, Hi, Hl by assumption.
  destruct (analyze content) as [a b c d]. cbn in *.
  f_equal; lia.
Qed.

(** ** Resources *)

Example decode_ex1 :
  Resource.decodeURIComponent (js "/site/my%20page.html") = Some (js "/site/my page.html").
Proof. vm_compute. reflexivity. Qed.
Example decode_ex2 :
  Resource.decodeURIComponent (js "%E2%82%AC") = Some [8364].
Proof. vm_compute. reflexivity. Qed.
Example decode_ex3 :
  Resource.decodeURIComponent (js "%F0%9F%98%80") = Some [55357; 56832].
Proof. vm_compute. reflexivity. Qed.
Example decode_ex4 : Resource.decodeURIComponent (js "%C0%80") = None.
Proof. vm_compute. reflexivity. Qed.
Example decode_ex5 : Resource.decodeURIComponent (js "%ED%A0%80") = None.
Proof. vm_compute. reflexivity. Qed.
Example decode_ex6 : Resource.decodeURIComponent (js "100%") = None.
Proof. vm_compute. reflexivity. Qed.
Example decode_ex7 : Resource.decodeURIComponent (js "%2e%2E%2f") = Some (js "../").
Proof. vm_compute. reflexivity. Qed.
Example match_uri_ex1 :
  Resource.match_uri (js "file://preview/html//site/pages/about.html")
  = Some (js "/site/pages/about.html").
Proof. vm_compute. reflexivity. Qed.
Example match_uri_ex2 : Resource.match_uri (js "file://preview/html/") = None.
Proof. vm_compute. reflexivity. Qed.
Example match_uri_ex3 : Resource.match_uri (js "xfile://preview/html/a") = None.
Proof. vm_compute. reflexivity. Qed.

Lemma exec_whole_ones l r s :
  Resource.exec_whole (map One l ++ r) s = true
  <-> exists o s', s = o ++ s' /\ accepts l o /\ Resource.exec_whole r s' = true.
Proof.
  revert s. induction l as [|a l IH]; intros s; cbn.
  - split.
    + intros H. exists [], s. repeat split; [constructor | assumption].
    + intros (o & s' & -> & Ho & H). inversion Ho; subst. assumption.
  - destruct s as [|c s].
    + split; [discriminate|].
      intros (o & s' & Hs & Ho & _). inversion Ho; subst. discriminate.
    + destruct (atom_ok a c) eqn:Hc; cbn.
      * rewrite IH. split.
        -- intros (o & s' & -> & Ho & H). exists (c :: o), s'.
           repeat split; [constructor; assumption | assumption].
        -- intros (o & s' & Hs & Ho & H). inversion Ho; subst.
           injection Hs as -> ->. eauto.
      * split; [discriminate|].
        intros (o & s' & Hs & Ho & _). inversion Ho; subst.
        injection Hs as -> ->. congruence.
Qed.

Lemma exec_whole_dots s :
  Resource.exec_whole [Star Dot] s = true
  <-> Forall (fun c => line_terminator c = false) s.
Proof.
  induction s as [|c s IH].
  - cbn. split; [constructor | reflexivity].
  - change (Resource.exec_whole [Star Dot] (c :: s))
      with ((atom_ok Dot c && Resource.exec_whole [Star Dot] s) || false).
    rewrite orb_false_r, andb_true_iff, IH. cbn. rewrite negb_true_iff.
    split; [intros [H1 H2]; now constructor | now inversion 1].
Qed.

Lemma match_uri_spec uri m :
  Resource.match_uri uri = Some m
  <-> uri = js "file://preview/html/" ++ m /\ m <> []
      /\ Forall (fun c => line_terminator c = false) m.
Proof.
  unfold Resource.match_uri, Resource.uri_re.
  rewrite <- (map_map Lit One).
  destruct (Resource.exec_whole _ uri) eqn:E.
  - apply exec_whole_ones in E as (o & s' & -> & Ho & H).
    apply accepts_literal in Ho as ->.
    rewrite drop_app_length.
    destruct s' as [|c s']; [discriminate|].
    cbn [Resource.exec_whole] in H. apply andb_true_iff in H as [Hc H].
    apply exec_whole_dots in H. cbn in Hc. apply negb_true_iff in Hc.
    split.
    + intros [= <-]. split; [reflexivity|]. split; [discriminate|].
      now constructor.
    + intros (Hu & _ & _). apply app_inv_head in Hu. now subst.
  - split; [discriminate|]. intros (-> & Hm & Hf). exfalso.
    assert (Resource.exec_whole
              (map One (map Lit Resource.prefix) ++ [One Dot; Star Dot])
              (js "file://preview/html/" ++ m) = true); [|congruence].
    apply exec_whole_ones. exists Resource.prefix, m.
    split; [reflexivity|]. split; [now apply accepts_literal|].
    destruct m as [|c m]; [contradiction|]. inversion Hf; subst.
    cbn [Resource.exec_whole]. apply andb_true_iff. split.
    + cbn. now apply negb_true_iff.
    + now apply exec_whole_dots.
Qed.

(** X16. The handler of resource reads accepts the URIs made of
    [file://preview/html/] and at least one more character, none of them a
    line terminator, and takes what follows the prefix as the encoded
    path; for any other URI it throws the error of an invalid URI format
    and touches nothing. *)
Theorem uris_that_are_read (sc : Script) (uri m : jsstring) (w : World) :
  (Resource.match_uri uri = Some m
   <-> uri = js "file://preview/html/" ++ m /\ m <> []
       /\ Forall (fun c => line_terminator c = false) m)
  /\ (Resource.match_uri uri = None ->
      Resource.readResource sc uri w = (inl (Resource.InvalidUri uri), w)).
Proof.
  split; [apply match_uri_spec|].
  intros H. unfold Resource.readResource. now rewrite H.
Qed.

(** X17. No resource that the handler of resource lists announces can be
    read: the handler of resource reads answers the URI of each of them
    with the error of an invalid URI format, and touches nothing. *)
Theorem listed_resources_are_not_readable (sc : Script) (w : World) :
  Forall (fun r => Resource.readResource sc (Resource.res_uri r) w
                   = (inl (Resource.InvalidUri (Resource.res_uri r)), w))
    Resource.listResources.
Proof. repeat constructor. Qed.

Lemma decode_plain s :
  Resource.percent ∉ s -> Resource.decode s [] 0 = Some s.
Proof.
  induction s as [|c s IH]; intros H; [reflexivity|].
  apply not_elem_of_cons in H as [Hc H]. cbn.
  rewrite (proj2 (N.eqb_neq c Resource.percent)) by congruence.
  now rewrite IH.
Qed.

Lemma match_uri_prefix m :
  m <> [] -> Forall (fun c => line_terminator c = false) m ->
  Resource.match_uri (js "file://preview/html/" ++ m) = Some m.
Proof. intros Hm Hf. now apply match_uri_spec. Qed.

(** X18. For a URI whose path part holds no [%], reading the resource is
    previewing that very path with the viewport 1024 by 768 under the base
    directory of the README: the world left is the one that
    [previewFile] leaves, the answer carries the content of the page, and
    an error of the preview is thrown again as an invalid request. *)
Theorem read_previews_the_path (sc : Script) (m : jsstring) (w : World) :
  m <> [] -> Forall (fun c => line_terminator c = false) m ->
  Resource.percent ∉ m ->
  Resource.readResource sc (js "file://preview/html/" ++ m) w
  = match previewFile Wrapper.base sc (VStr m) (VNum 1024) (VNum 768) w with
    | (Ok r, w') =>
        (inr (Resource.Contents (js "file://preview/html/" ++ m) "text/html"
                (snd r)), w')
    | (Throw e, w') => (inl (Resource.PreviewFailed e), w')
    end.
Proof.
  intros Hm Hf Hp. unfold Resource.readResource.
  rewrite (match_uri_prefix m Hm Hf).
  unfold Resource.decodeURIComponent. rewrite (decode_plain m Hp).
  reflexivity.
Qed.

Lemma hex_octet_percent h :
  Resource.hex_octet Resource.percent h = None
  /\ Resource.hex_octet h Resource.percent = None.
Proof.
  split; [reflexivity|]. unfold Resource.hex_octet.
  now destruct (Resource.hex_digit h).
Qed.

(** A [%] that fewer than two characters follow ends the decoding with the
    error, whatever stands before it. *)
Lemma decode_cut_escape t : (length t < 2)%nat ->
  forall n a, length a = n ->
  forall octets need,
    Resource.decode (a ++ Resource.percent :: t) octets need = None.
Proof.
  intros Ht n. induction n as [n IH] using lt_wf_ind. intros a Ha octets need.
  assert (Hend : forall octets need,
            Resource.decode (Resource.percent :: t) octets need = None).
  { intros o k. destruct t as [|x [|y t]]; [reflexivity..|cbn in Ht; lia]. }
  destruct a as [|c a]; [apply Hend|].
  cbn [app Resource.decode].
  destruct (c =? Resource.percent).
  - destruct a as [|h [|l rest]]; cbn [app].
    + destruct t as [|x t]; [reflexivity|].
      now rewrite (proj1 (hex_octet_percent x)).
    + now rewrite (proj2 (hex_octet_percent h)).
    + assert (Hr : forall o k,
                Resource.decode (rest ++ Resource.percent :: t) o k = None).
      { intros o k. apply (IH (length rest)); [subst n; cbn; lia | reflexivity]. }
      destruct (Resource.hex_octet h l) as [b|]; [|reflexivity].
      destruct need as [|[|need]]; rewrite ?Hr.
      * destruct (Resource.leading_ones b) as [|[|[|[|[|k]]]]];
          rewrite ?Hr; reflexivity.
      * now destruct (Resource.utf8_code_point _).
      * reflexivity.
  - destruct need; [|reflexivity].
    rewrite (IH (length a)); [reflexivity | subst n; cbn; lia | reflexivity].
Qed.

(** X19. A URI whose path part holds a [%] that fewer than two characters
    follow is answered with the [URIError] of [decodeURIComponent], which
    is called before the [try] block and so is not turned into an
    [McpError]; nothing is touched. *)
Theorem cut_escape_is_a_URIError (sc : Script) (a t : jsstring) (w : World) :
  Forall (fun c => line_terminator c = false) (a ++ Resource.percent :: t) ->
  (length t < 2)%nat ->
  Resource.readResource sc
    (js "file://preview/html/" ++ a ++ Resource.percent :: t) w
  = (inl Resource.URIError, w).
Proof.
  intros Hf Ht. unfold Resource.readResource.
  rewrite match_uri_prefix by (assumption || now destruct a).
  unfold Resource.decodeURIComponent.
  now rewrite (decode_cut_escape t Ht (length a) a eq_refl).
Qed.

Lemma cut_escape_is_a_URIError_witness :
  (Forall (fun c => line_terminator c = false) (js "/site/100" ++ Resource.percent :: [])
   /\ (length (@nil N) < 2)%nat)
  /\ Resource.readResource Sample.good (js "file://preview/html//site/100%")
       Sample.world
     = (inl Resource.URIError, Sample.world).
Proof.
  assert (H1 : Forall (fun c => line_terminator c = false)
                 (js "/site/100" ++ Resource.percent :: []))
    by (repeat constructor).
  assert (H2 : (length (@nil N) < 2)%nat) by (cbn; lia).
  split; [split; assumption|].
  exact (cut_escape_is_a_URIError Sample.good (js "/site/100") [] Sample.world
           H1 H2).
Defined.

Lemma read_previews_the_path_witness :
  let m := js "/site/pages/about.html" in
  (m <> [] /\ Forall (fun c => line_terminator c = false) m
   /\ Resource.percent ∉ m)
  /\ fst (Resource.readResource Sample.good (js "file://preview/html/" ++ m)
            Sample.world)
     = inr (Resource.Contents (js "file://preview/html/" ++ m) "text/html"
              (js "<html></html>")).
Proof.
  intros m.
  assert (H1 : m <> []) by (vm_compute; discriminate).
  assert (H2 : Forall (fun c => line_terminator c = false) m)
    by (refine (bool_decide_unpack (Forall _ _) _); vm_compute; exact I).
  assert (H3 : Resource.percent ∉ m)
    by (refine (bool_decide_unpack (_ ∉ _) _); vm_compute; exact I).
  split; [repeat split; assumption|].
  rewrite (read_previews_the_path Sample.good m Sample.world H1 H2 H3).
  vm_compute. reflexivity.
Defined.

(** X20. Reading a resource is not a read only: a successful read has
    made all the calls of a successful preview of the decoded path, with
    the viewport 1024 by 768, among them the screenshot written under the
    base directory of the README; the answer carries the URI as given, the
    type [text/html] and the content of the page. *)
Theorem reading_a_resource_is_a_preview (sc : Script) (uri : jsstring)
    (w w' : World) (c : Resource.contents) :
  Resource.readResource sc uri w = (inr c, w') ->
  exists m filePath page mainCss pageCss,
    uri = js "file://preview/html/" ++ m
    /\ Resource.decodeURIComponent m = Some filePath
    /\ c = Resource.Contents uri "text/html" (Resource.c_text c)
    /\ content_result sc = Some (Resource.c_text c)
    /\ events_since w w'
       = preview_calls Wrapper.base filePath (VNum 1024) (VNum 768) page
           mainCss pageCss (now sc)
           (bool_decide (browser w = None))
           (bool_decide (entry_at w (screenshotsDir Wrapper.base) = None))
    /\ EScreenshot page (screenshotPath Wrapper.base filePath (now sc))
       ∈ events_since w w'.
Proof.
  unfold Resource.readResource.
  destruct (Resource.match_uri uri) as [m|] eqn:Em; [|discriminate].
  destruct (Resource.decodeURIComponent m) as [filePath|] eqn:Ed; [|discriminate].
  unfold Wrapper.previewFile, Wrapper.param_default.
  destruct (previewFile _ _ _ _ _ w) as [[r|e] w1] eqn:E; [|discriminate].
  intros [= <- <-].
  apply match_uri_spec in Em as (-> & _ & _).
  destruct (previewFile_trace _ _ _ _ _ _ _ _ E)
    as (page & mainCss & pageCss & _ & _ & -> & [html Hc] & Ht).
  exists m, filePath, page, mainCss, pageCss.
  rewrite (events_since_app _ _ _ Ht), Hc.
  split; [reflexivity|]. split; [assumption|]. split; [reflexivity|].
  split; [reflexivity|]. split; [reflexivity|].
  unfold preview_calls.
  apply elem_of_app; right. apply elem_of_app; right.
  apply elem_of_app; right. apply elem_of_app; right.
  right. left.
Qed.

Lemma reading_a_resource_is_a_preview_witness :
  let uri := js "file://preview/html//site/pages/about.html" in
  let run := Resource.readResource Sample.good uri Sample.world in
  let c := Resource.Contents uri "text/html" (js "<html></html>") in
  run = (inr c, snd run)
  /\ exists m filePath page mainCss pageCss,
       uri = js "file://preview/html/" ++ m
       /\ Resource.decodeURIComponent m = Some filePath
       /\ c = Resource.Contents uri "text/html" (Resource.c_text c)
       /\ content_result Sample.good = Some (Resource.c_text c)
       /\ events_since Sample.world (snd run)
          = preview_calls Wrapper.base filePath (VNum 1024) (VNum 768) page
              mainCss pageCss (now Sample.good)
              (bool_decide (browser Sample.world = None))
              (bool_decide (entry_at Sample.world (screenshotsDir Wrapper.base)
                            = None))
       /\ EScreenshot page (screenshotPath Wrapper.base filePath (now Sample.good))
          ∈ events_since Sample.world (snd run).
Proof.
  intros uri run c.
  assert (Hf : fst run = inr c) by (vm_compute; reflexivity).
  assert (H : run = (inr c, snd run))
    by (rewrite <- Hf; apply surjective_pairing).
  split; [exact H|].
  exact (reading_a_resource_is_a_preview Sample.good uri Sample.world (snd run)
           c H).
Defined.

(** ** The end of the process *)

Lemma closeBrowser_last h w :
  engines w = [h] -> engines (closeBrowser h w) = [].
Proof.
  intros H. unfold closeBrowser. cbn. rewrite H.
  now rewrite filter_cons_False by auto.
Qed.

Lemma wrapper_callTool_session_ok sc name args w :
  session_ok w -> session_ok (snd (Wrapper.callTool sc name args w)).
Proof.
  intros H. unfold Wrapper.callTool, Wrapper.previewFile. run.
  destruct args as [a|]; [|assumption].
  destruct (jseqb name (js "preview_file")).
  { destruct (falsy _); [assumption|].
    pose proof (previewFile_session_ok Wrapper.base sc (prop a "filePath")
                  (Wrapper.param_default (prop a "width") (VNum 1024))
                  (Wrapper.param_default (prop a "height") (VNum 768)) w H) as Hs.
    now destruct (previewFile _ _ _ _ _ w) as [[r|e] w']. }
  destruct (jseqb name (js "analyze_content")); [|assumption].
  destruct (falsy _); [assumption|].
  destruct (analyzeContent_keeps_session (prop a "filePath") w) as (Hb & He & _).
  destruct (analyzeContent _ w) as [[r|e] w']; cbn in *;
    unfold session_ok in *; now rewrite Hb, He.
Qed.

Lemma readResource_session_ok sc uri w :
  session_ok w -> session_ok (snd (Resource.readResource sc uri w)).
Proof.
  intros H. unfold Resource.readResource, Wrapper.previewFile.
  destruct (Resource.match_uri uri) as [m|]; [|assumption].
  destruct (Resource.decodeURIComponent m) as [filePath|]; [|assumption].
  pose proof (previewFile_session_ok Wrapper.base sc (VStr filePath)
                (Wrapper.param_default VUndefined (VNum 1024))
                (Wrapper.param_default VUndefined (VNum 768)) w H) as Hs.
  now destruct (previewFile _ _ _ _ _ w) as [[r|e] w'].
Qed.

Lemma readme_serve_all_session_ok rs : forall w,
  session_ok w -> session_ok (readme_serve_all w rs).
Proof.
  unfold readme_serve_all. induction rs as [|r rs IH]; intros w H; cbn;
    [assumption|].
  apply IH. destruct r; cbn.
  - now apply wrapper_callTool_session_ok.
  - now apply readResource_session_ok.
Qed.

Lemma wrapperSigint_cleanup browser_ok server_ok p :
  engines (world p) = [] ->
  wrapperSigint browser_ok server_ok p
  = match cleanup browser_ok p with
    | (true, p1) => closeServer server_ok p1
    | (false, p1) => p1
    end.
Proof.
  intros H. unfold wrapperSigint, cleanup, signalled. rewrite H.
  destruct (browser (world p)); [|reflexivity].
  now destruct browser_ok.
Qed.





(** ** The stylesheets of a page in the usual layout *)

Lemma dirname_scan_to_slash l pre :
  (Path.slash ∉ l) ->
  Path.dirname_scan (l ++ Path.slash :: pre) false = Some pre.
Proof.
  induction l as [|c l IH]; intros H; cbn.
  - reflexivity.
  - apply not_elem_of_cons in H as [Hc H].
    rewrite (proj2 (N.eqb_neq c Path.slash)) by congruence. now apply IH.
Qed.

Lemma dirname_rooted ds name :
  Forall proper_name ds -> ds <> [] -> name <> [] -> (Path.slash ∉ name) ->
  Path.dirname (rooted ds ++ Path.slash :: name) = rooted ds.
Proof.
  intros Hds Hne Hn Hs.
  destruct ds as [|d ds]; [contradiction|].
  inversion Hds as [|? ? Hd _]; subst.
  change (rooted (d :: ds)) with (Path.slash :: d ++ rooted ds).
  set (d' := d ++ rooted ds).
  assert (Hd' : d' <> []) by (subst d'; destruct d; [now destruct Hd | discriminate]).
  cbn [app]. unfold Path.dirname. rewrite N.eqb_refl.
  rewrite rev_app_distr. cbn [rev]. rewrite <- app_assoc. cbn [app].
  destruct (rev name) as [|c l] eqn:E.
  { apply (f_equal (@rev N)) in E. rewrite rev_involutive in E. now subst name. }
  assert (Hcl : Path.slash ∉ c :: l)
    by (rewrite <- E; now apply no_slash_rev).
  apply not_elem_of_cons in Hcl as [Hc Hl].
  cbn [app Path.dirname_scan].
  rewrite (proj2 (N.eqb_neq c Path.slash)) by congruence.
  rewrite dirname_scan_to_slash by assumption.
  rewrite rev_involutive.
  destruct (rev d') eqn:Er; [|reflexivity].
  apply (f_equal (@rev N)) in Er. rewrite rev_involutive in Er. contradiction.
Qed.

Lemma basename_rooted d name :
  name <> [] -> (Path.slash ∉ name) ->
  Path.basename (d ++ Path.slash :: name) = name.
Proof.
  intros Hn Hs. apply (basename_last _ (Path.components d)); [|assumption].
  now rewrite components_app_slash, (components_no_slash name).
Qed.

Lemma fold_norm_proper b ns :
  Forall proper_name ns ->
  fold_left (Path.norm_step b) ([] :: ns) [] = rev ns.
Proof.
  intros H. pose proof (norm_segments_proper b ns H) as E.
  unfold Path.norm_segments in E.
  apply (f_equal (@rev jsstring)) in E. now rewrite rev_involutive in E.
Qed.

Lemma style_of_rooted ds :
  Forall proper_name ds -> ds <> [] ->
  Path.join [rooted ds; js ".."; js "style.css"]
  = rooted (removelast ds ++ [js "style.css"]).
Proof.
  intros Hds Hne. unfold Path.join.
  assert (Hf : filter (fun c => Path.nonempty c = true)
                 [rooted ds; js ".."; js "style.css"]
               = [rooted ds; js ".."; js "style.css"]).
  { destruct ds as [|x l]; [contradiction | reflexivity]. }
  rewrite Hf. cbn [Path.render].
  set (s := rooted ds ++ Path.slash :: js ".." ++ Path.slash :: js "style.css").
  assert (Hc : Path.components s = ([] :: ds) ++ [js ".."; js "style.css"]).
  { subst s. rewrite !components_app_slash.
    rewrite components_rooted by (assumption || now apply proper_no_slash).
    reflexivity. }
  assert (Ha : Path.is_absolute s = true)
    by (subst s; destruct ds; [contradiction | reflexivity]).
  assert (Ht : Path.trailing_slash s = false).
  { apply (ends_in_no_trailing_slash _ (js "style.css") style_css_proper).
    right. exists (rooted ds ++ Path.slash :: js ".."). subst s.
    now rewrite <- app_assoc. }
  assert (Hseg : Path.norm_segments false (Path.components s)
                 = removelast ds ++ [js "style.css"]).
  { rewrite Hc. unfold Path.norm_segments.
    rewrite fold_left_app, fold_norm_proper by assumption.
    destruct ds as [|x l _] using rev_ind; [contradiction|].
    apply Forall_app in Hds as [_ Hx]. inversion Hx as [|? ? Hx' _]; subst.
    rewrite rev_unit, removelast_last. cbn [fold_left].
    unfold Path.norm_step at 2.
    rewrite (jseqb_false (js "..") []), (jseqb_false (js "..") Path.dot),
      (jseqb_true (js "..") Path.dotdot) by (reflexivity || discriminate).
    cbn [orb]. rewrite (jseqb_false x Path.dotdot) by (now destruct Hx' as (_ & _ & _ & H)).
    rewrite norm_step_proper by apply style_css_proper.
    cbn [rev]. now rewrite rev_involutive. }
  unfold Path.normalize.
  destruct s as [|c0 rest] eqn:Es; [discriminate|]. rewrite <- Es in *.
  rewrite Ha, Ht. cbn [negb]. rewrite Hseg.
  assert (Hne' : removelast ds ++ [js "style.css"] <> [])
    by (now destruct (removelast ds)).
  pose proof (render_rooted _ Hne') as Hr.
  destruct (Path.render _) eqn:Er; [|assumption].
  destruct (removelast ds) as [|y l]; cbn in Er; [discriminate|].
  destruct (l ++ [js "style.css"]) eqn:El; [now destruct l|].
  now destruct y.
Qed.

Lemma css_proper stem :
  stem <> [] -> (Path.slash ∉ stem) -> proper_name (stem ++ js ".css").
Proof.
  intros Hn Hs. split; [now destruct stem|]. split.
  - intros Hin. apply elem_of_app in Hin as [Hin|Hin]; [auto|].
    vm_compute in Hin. repeat (apply elem_of_cons in Hin as [Hin|Hin];
      [discriminate|]). now apply elem_of_nil in Hin.
  - split; intros E; apply (f_equal (@length N)) in E;
      rewrite length_app in E;
      change (length (js ".css")) with 4%nat in E; cbn in E; lia.
Qed.

Lemma html_name stem :
  stem <> [] -> (Path.slash ∉ stem) ->
  stem ++ js ".html" <> [] /\ (Path.slash ∉ stem ++ js ".html").
Proof.
  intros Hn Hs. split; [now destruct stem|].
  intros Hin. apply elem_of_app in Hin as [Hin|Hin]; [auto|].
  now apply html_suffix_no_slash.
Qed.

(** X24. In the usual layout the stylesheets are where the convention puts
    them: for a page [stem.html], with [stem] not empty and without [.]
    and [/], in the directory [/d1/.../dn] of proper names, the per-page
    stylesheet is [/d1/.../dn/stem.css], the shared stylesheet is
    [style.css] in [/d1/.../d(n-1)] (in the root when [n] is 1), and the
    name of the screenshot is [stem], [_], the clock and [.png]. *)
Theorem stylesheets_of_a_page (ds : list jsstring) (stem : jsstring) (t : N) :
  Forall proper_name ds -> ds <> [] ->
  stem <> [] -> (Path.slash ∉ stem) -> 46 ∉ stem ->
  let p := rooted ds ++ js "/" ++ stem ++ js ".html" in
  pageCssPath p = rooted ds ++ js "/" ++ stem ++ js ".css"
  /\ mainCssPath p = rooted (removelast ds) ++ js "/style.css"
  /\ screenshotName p t = stem ++ js "_" ++ dec t ++ js ".png".
Proof.
  intros Hds Hne Hn Hs Hdot p.
  destruct (html_name stem Hn Hs) as [Hn' Hs'].
  assert (Hp : p = rooted ds ++ Path.slash :: (stem ++ js ".html")) by reflexivity.
  assert (Hdir : Path.dirname p = rooted ds)
    by (rewrite Hp; now apply dirname_rooted).
  assert (Hbase : Path.basename p = stem ++ js ".html")
    by (rewrite Hp; now apply basename_rooted).
  split; [|split].
  - unfold pageCssPath. rewrite Hdir, Hbase, replace_extension by assumption.
    rewrite join_rooted by (assumption || now apply css_proper).
    reflexivity.
  - unfold mainCssPath. rewrite Hdir, style_of_rooted by assumption.
    now rewrite rooted_snoc.
  - unfold screenshotName. f_equal.
    assert (Ht : Path.trailing_slash p = false).
    { unfold Path.trailing_slash. rewrite Hp.
      change (js ".html") with (js ".htm" ++ [108]).
      now rewrite !app_comm_cons, !app_assoc, last_snoc. }
    assert (Hpe : p <> js ".html").
    { rewrite Hp. destruct ds as [|d ds']; [contradiction|].
      change (rooted (d :: ds')) with (Path.slash :: d ++ rooted ds').
      change (js ".html") with (46 :: js "html").
      cbn [app]. intros E. discriminate E. }
    rewrite basename_ext_plain by assumption. cbv zeta. rewrite Hbase.
    assert (He : Path.ends_with (stem ++ js ".html") (js ".html") = true).
    { unfold Path.ends_with. rewrite length_app, Nat.add_sub, drop_app_length.
      rewrite bool_decide_eq_true_2 by reflexivity.
      apply Nat.leb_le. lia. }
    rewrite He, jseqb_false.
    + now rewrite length_app, Nat.add_sub, take_app_length.
    + intros E. apply (f_equal (@length N)) in E. rewrite length_app in E.
      destruct stem; [contradiction|]. cbn [length] in E. lia.
Qed.

Lemma stylesheets_of_a_page_witness :
  let ds := [js "site"; js "pages"] in
  let stem := js "about" in
  (Forall proper_name ds /\ ds <> [] /\ stem <> []
   /\ (Path.slash ∉ stem) /\ 46 ∉ stem)
  /\ pageCssPath (js "/site/pages/about.html") = js "/site/pages/about.css"
  /\ mainCssPath (js "/site/pages/about.html") = js "/site/style.css".
Proof.
  intros ds stem.
  assert (H1 : Forall proper_name ds)
    by (refine (bool_decide_unpack (Forall proper_name _) _); vm_compute; exact I).
  assert (H2 : ds <> []) by discriminate.
  assert (H3 : stem <> []) by (vm_compute; discriminate).
  assert (H4 : Path.slash ∉ stem)
    by (refine (bool_decide_unpack (_ ∉ _) _); vm_compute; exact I).
  assert (H5 : 46 ∉ stem)
    by (refine (bool_decide_unpack (_ ∉ _) _); vm_compute; exact I).
  split; [repeat split; assumption|].
  pose proof (stylesheets_of_a_page ds stem 0 H1 H2 H3 H4 H5) as T.
  exact (conj (proj1 T) (proj1 (proj2 T))).
Defined.

(** ** The paths that a call touches *)


(** ** A preview and the analysis *)

Lemma analyzeContent_same_entry p w w' :
  entry_at w' p = entry_at w p ->
  fst (analyzeContent (VStr p) w') = fst (analyzeContent (VStr p) w).
Proof.
  unfold entry_at. intros H.
  unfold analyzeContent. prims. run. cbn. rewrite H.
  destruct (Fs.lookup (fs w) (cwd w) p) as [e|] eqn:E; cbn; [|reflexivity].
  apply lookup_stat in E, H. cbn in *. rewrite E, H. now destruct e.
Qed.

(** X26. A preview leaves the analysis as it is: in a file system that is
    a tree, after a successful [previewFile] of a page,
    [analyzeContent] answers for the page and for its two stylesheets what
    it answered before. *)
Theorem preview_leaves_the_analysis (base : jsstring) (sc : Script)
    (p : jsstring) (width height : jsval) (w w' : World)
    (r : jsstring * jsstring) :
  Fs.tree (fs w) ->
  previewFile base sc (VStr p) width height w = (Ok r, w') ->
  fst (analyzeContent (VStr p) w') = fst (analyzeContent (VStr p) w)
  /\ fst (analyzeContent (VStr (mainCssPath p)) w')
     = fst (analyzeContent (VStr (mainCssPath p)) w)
  /\ fst (analyzeContent (VStr (pageCssPath p)) w')
     = fst (analyzeContent (VStr (pageCssPath p)) w).
Proof.
  intros Ht Hok.
  destruct (decide (proper_name (Path.basename p))) as [Hb|Hb].
  - destruct (preview_frame base sc p width height w w' r Hb Hok)
      as (_ & _ & _ & _ & _ & _ & H1 & H2 & H3).
    repeat split; now apply analyzeContent_same_entry.
  - exfalso.
    destruct (previewFile_ok _ _ _ _ _ _ _ _ Hok)
      as (mainCss & pageCss & image & html & f1 & evs & page
          & [e He] & _ & Hpage & _).
    apply lookup_stat, stat_inv in He as (k & Hr & _).
    rewrite (page_of_improper_input _ _ _ _ Ht Hr Hb) in Hpage.
    discriminate.
Qed.

Lemma preview_leaves_the_analysis_witness :
  let p := js "/site/pages/about.html" in
  let run := previewFile Server.base Sample.good (VStr p) (VNum 1024)
               (VNum 768) Sample.world in
  let r := (screenshotPath Server.base p 1700000000000, js "<html></html>") in
  (Fs.tree (fs Sample.world) /\ run = (Ok r, snd run))
  /\ fst (analyzeContent (VStr p) (snd run))
     = fst (analyzeContent (VStr p) Sample.world).
Proof.
  intros p run r.
  assert (H1 : Fs.tree (fs Sample.world)) by apply sample_is_a_tree.
  assert (Hf : fst run = Ok r) by (vm_compute; reflexivity).
  assert (H2 : run = (Ok r, snd run))
    by (rewrite <- Hf; apply surjective_pairing).
  split; [split; assumption|].
  exact (proj1 (preview_leaves_the_analysis Server.base Sample.good p (VNum 1024)
                  (VNum 768) Sample.world (snd run) r H1 H2)).
Defined.

(** ** The session of the README *)

(** X27. The session of the README is a singleton as well: over any run
    of tool calls and resource reads handled one after the other by the
    handlers of the README, the engines alive are the one that is held, at
    most one; and [cleanup], when its [close] works, leaves no engine
    alive and no handle held. *)
Theorem readme_session_is_a_singleton (rs : list readme_request) (w : World) :
  session_ok w ->
  let w1 := readme_serve_all w rs in
  let p := snd (cleanup true (mkProcess w1 [])) in
  session_ok w1
  /\ (length (engines w1) <= 1)%nat
  /\ engines (world p) = []
  /\ browser (world p) = None.
Proof.
  intros H w1 p. subst p.
  pose proof (readme_serve_all_session_ok rs w H) as Hs. fold w1 in Hs.
  split; [assumption|].
  unfold session_ok in Hs. unfold cleanup, stepped.
  cbn [world steps].
  destruct (browser w1) as [h|] eqn:Hb; cbn; rewrite Hs.
  - rewrite filter_cons_False by auto. cbn. split; [lia|]. split; reflexivity.
  - cbn. split; [lia|]. split; [reflexivity | assumption].
Qed.

Lemma readme_session_is_a_singleton_witness :
  let rs := [ ResourceRead Sample.good (js "file://preview/html//site/pages/about.html");
              ToolCall Sample.good (js "analyze_content")
                (Sample.args "/site/pages/about.html") ] in
  session_ok Sample.world
  /\ session_ok (readme_serve_all Sample.world rs).
Proof.
  intros rs.
  assert (H : session_ok Sample.world) by reflexivity.
  split; [exact H|].
  exact (proj1 (readme_session_is_a_singleton rs Sample.world H)).
Defined.

(** ** The clock in the name of the screenshot *)

Lemma digits_value_snoc ds d :
  digits_value (ds ++ [d]) = 10 * digits_value ds + (d - 48).
Proof. unfold digits_value. now rewrite fold_left_app. Qed.

Lemma digits_go_value fuel : forall n acc,
  n < 10 ^ N.of_nat fuel ->
  exists ds, digits_go fuel n acc = ds ++ acc /\ digits_value ds = n.
Proof.
  induction fuel as [|fuel IH]; intros n acc Hn.
  - cbn in Hn. exists []. split; [reflexivity|]. cbn. lia.
  - cbn [digits_go]. destruct (N.ltb_spec n 10) as [Hlt|Hge].
    + exists [48 + n mod 10]. split; [reflexivity|].
      rewrite N.mod_small by assumption. unfold digits_value.
      cbn [fold_left]. revert Hlt. generalize n. intros m Hm. lia.
    + assert (Hq : n / 10 < 10 ^ N.of_nat fuel).
      { apply N.Div0.div_lt_upper_bound.
        rewrite Nat2N.inj_succ, N.pow_succ_r' in Hn. lia. }
      destruct (IH (n / 10) ((48 + n mod 10) :: acc) Hq) as (ds & -> & Hv).
      exists (ds ++ [48 + n mod 10]). split; [now rewrite <- app_assoc|].
      rewrite digits_value_snoc, Hv.
      assert (Hm : forall m, 48 + m - 48 = m) by (intros m; lia).
      rewrite Hm. symmetry. apply N.div_mod. discriminate.
Qed.

Lemma pos_lt_pow2 p : Npos p < 2 ^ N.of_nat (Pos.size_nat p).
Proof.
  induction p as [p IH|p IH|]; cbn [Pos.size_nat].
  - rewrite Nat2N.inj_succ, N.pow_succ_r'. lia.
  - rewrite Nat2N.inj_succ, N.pow_succ_r'. lia.
  - cbn. lia.
Qed.

Lemma lt_pow10 n : n < 10 ^ N.of_nat (S (N.size_nat n)).
Proof.
  rewrite Nat2N.inj_succ, N.pow_succ_r'.
  assert (H : n < 2 ^ N.of_nat (N.size_nat n)).
  { destruct n as [|p]; [cbn; lia | apply pos_lt_pow2]. }
  assert (H2 : 2 ^ N.of_nat (N.size_nat n) <= 10 ^ N.of_nat (N.size_nat n))
    by (apply N.pow_le_mono_l; lia).
  lia.
Qed.

Lemma dec_value n : digits_value (dec n) = n.
Proof.
  unfold dec.
  destruct (digits_go_value (S (N.size_nat n)) n [] (lt_pow10 n)) as (ds & -> & H).
  now rewrite app_nil_r.
Qed.

Lemma dec_injective n m : dec n = dec m -> n = m.
Proof. intros H. rewrite <- (dec_value n), <- (dec_value m). now rewrite H. Qed.

(** X28. Screenshots taken at different clock values have different
    names: for an input path that does not end with a separator, two
    values of [Date.now()] give two names, and two paths in the directory
    of the screenshots of either implementation, so that a later
    screenshot does not replace an earlier one. *)
Theorem later_screenshots_have_other_names (base p : jsstring) (t1 t2 : N) :
  base = Server.base \/ base = Wrapper.base ->
  Path.trailing_slash p = false ->
  t1 <> t2 ->
  screenshotName p t1 <> screenshotName p t2
  /\ screenshotPath base p t1 <> screenshotPath base p t2.
Proof.
  intros Hbase Hp Ht.
  assert (Hn : screenshotName p t1 <> screenshotName p t2).
  { unfold screenshotName. intros E.
    apply app_inv_head in E. change (js "_") with [95] in E.
    cbn [app] in E. injection E as E. apply app_inv_tail in E.
    now apply Ht, dec_injective. }
  split; [assumption|].
  destruct (bases_are_rooted base Hbase) as (ns & -> & Hns & Hne).
  assert (Hs : suffix_removed p (js ".html")).
  { destruct (basename_ext_cases p (js ".html")) as [H|[H _]];
      [discriminate | apply html_suffix_no_slash | assumption | congruence]. }
  rewrite (proj2 (screenshotPath_rooted ns p t1 Hns Hne Hs)),
    (proj2 (screenshotPath_rooted ns p t2 Hns Hne Hs)).
  intros E. apply app_inv_head in E. now injection E.
Qed.

Lemma later_screenshots_have_other_names_witness :
  let p := js "/site/pages/about.html" in
  ((Server.base = Server.base \/ Server.base = Wrapper.base)
   /\ Path.trailing_slash p = false
   /\ 1700000000000 <> 1700000001000)
  /\ screenshotPath Server.base p 1700000000000
     <> screenshotPath Server.base p 1700000001000.
Proof.
  intros p.
  assert (H1 : Server.base = Server.base \/ Server.base = Wrapper.base)
    by (left; reflexivity).
  assert (H2 : Path.trailing_slash p = false) by reflexivity.
  assert (H3 : 1700000000000 <> 1700000001000) by discriminate.
  split; [repeat split; assumption|].
  exact (proj2 (later_screenshots_have_other_names Server.base p 1700000000000
                  1700000001000 H1 H2 H3)).
Defined.
